(** * The intent merge engine of the data server: tree, leaf variants,
      and the intent transaction.

    A shallow embedding of
    - [pkg/tree]: leaf variants and their precedence rules, the tree of
      entries, insertion, delete aggregation and navigation;
    - [pkg/datastore]: the intent RPCs ([SetIntent], [SetIntentUpdate],
      [applyIntent], raw intent persistence).

    Pointers to entries are modelled by values, Go maps that are only
    looked up by key as [gmap], the children of an entry (a Go map that
    is ranged over) as an association list whose order stands for one
    iteration order, errors and run-time panics by the [Res] type. *)

From Stdlib Require Import ZArith Lia Ascii DecimalString.
From Stdlib Require DecimalZ DecimalPos OrdersEx Sorted Permutation.
From stdpp Require Import gmap strings list.

(** ** Results of fallible code *)

Inductive Res (A : Type) : Type :=
| Ok (a : A)
| Err (e : string)
| Panic.
Arguments Ok {A} a.
Arguments Err {A} e.
Arguments Panic {A}.

#[global] Instance Res_ret : MRet Res := λ A a, Ok a.

#[global] Instance Res_bind : MBind Res := λ A B k r,
  match r with
  | Ok a => k a
  | Err e => Err e
  | Panic => Panic
  end.

(** ** Messages and schema elements ([sdcpb], an external package)

    Only what the data server reads. A schema element is a container, a
    field or a leaf-list, or has its variant unset; a container has
    keys, the presence flag and the choices with their cases. *)

Module sdcpb.

Record LeafSchema : Type := mkLeafSchema { Name : string }.

Record ContainerSchema : Type := mkContainerSchema {
  Keys : list LeafSchema;
  IsPresence : bool;
  ChoiceInfo : list (string * list (string * list string))
}.

Inductive isSchemaElem_Schema : Type :=
| SchemaElem_Container (Container : ContainerSchema)
| SchemaElem_Field
| SchemaElem_Leaflist.

Record SchemaElem : Type := mkSchemaElem {
  Schema : option isSchemaElem_Schema
}.

(** The nil-safe getter [SchemaElem.GetContainer]. *)
Definition GetContainer (sch : option SchemaElem) : option ContainerSchema :=
  match sch with
  | Some {| Schema := Some (SchemaElem_Container c) |} => Some c
  | _ => None
  end.

Record PathElem : Type := mkPathElem {
  PathElemName : string;
  Key : list (string * string)
}.

Record Path : Type := mkPath { Elem : list PathElem }.

Inductive TypedValue : Type :=
| TypedValue_BytesVal (BytesVal : string)
| TypedValue_StringVal (StringVal : string)
| TypedValue_IntVal (IntVal : Z)
| TypedValue_BoolVal (BoolVal : bool).

(** The getter [TypedValue.GetBytesVal]: empty for the other variants. *)
Definition GetBytesVal (tv : TypedValue) : string :=
  match tv with
  | TypedValue_BytesVal b => b
  | _ => ""
  end.

Record Update : Type := mkUpdate {
  UpdatePath : Path;
  Value : TypedValue
}.

Inductive Type_ : Type := Type_MAIN | Type_CANDIDATE | Type_INTENDED.

Record DataStore : Type := mkDataStore {
  DSType : Type_;
  DSName : string;
  DSOwner : string;
  DSPriority : Z
}.

Record SetIntentRequest : Type := mkSetIntentRequest {
  ReqName : string;
  Intent : string;
  ReqPriority : Z;
  ReqUpdate : list Update;
  ReqDelete : bool
}.

Record SetIntentResponse : Type := mkSetIntentResponse { }.

Record SetDataRequest : Type := mkSetDataRequest {
  SDName : string;
  SDDatastore : option DataStore;
  SDUpdate : list Update;
  SDReplace : list Update;
  SDDelete : list Path
}.

(** The message [Intent] and the response of [GetIntent]. *)
Record Intent_ : Type := mkIntent {
  IntentName : string;
  IntentPriority : Z;
  IntentUpdate : list Update
}.

Record GetIntentResponse : Type := mkGetIntentResponse {
  RspName : string;
  RspIntent : Intent_
}.

End sdcpb.

(** ** [cache.Update] and [LeafEntry] *)

Module cache.

(** Modelled from the spec: the type [cache.Update] is not part of the
    sources; an update carries (path, value-bytes, priority, owner,
    timestamp). *)
Record Update : Type := NewUpdate {
  GetPath : list string;
  Bytes : string;
  Priority : Z;
  Owner : string;
  TS : Z
}.

(** Modelled from the spec: [Update.EqualSkipPath], the path-ignored
    equality; the timestamp is ignored as well. *)
Definition EqualSkipPath (u v : Update) : bool :=
  bool_decide (Owner u = Owner v) && (Priority u =? Priority v)%Z
  && bool_decide (Bytes u = Bytes v).

(** Two updates of the same owner, path, value and priority. *)
Definition sameUpdate (c c' : Update) : Prop :=
  Owner c' = Owner c
  ∧ GetPath c' = GetPath c
  ∧ Bytes c' = Bytes c
  ∧ Priority c' = Priority c.

End cache.

Module tree.

(** Modelled from the spec: the constant [RunningIntentName], the
    reserved owner of the running configuration. *)
Definition RunningIntentName : string := "running".

(** Modelled from the spec: the struct [LeafEntry] is not part of the
    sources; a variant is an update with the flags new, delete and
    updated. *)
Record LeafEntry : Type := mkLeafEntry {
  Update : cache.Update;
  IsNew : bool;
  Delete : bool;
  IsUpdated : bool
}.

Definition Priority (l : LeafEntry) : Z := cache.Priority (Update l).
Definition Owner (l : LeafEntry) : string := cache.Owner (Update l).
Definition GetPath (l : LeafEntry) : list string := cache.GetPath (Update l).

(** Modelled from the spec: [NewLeafEntry] appends a variant marked
    new=isNew; the other flags are clear. *)
Definition NewLeafEntry (c : cache.Update) (new : bool) : LeafEntry :=
  {| Update := c; IsNew := new; Delete := false; IsUpdated := false |}.

(** Modelled from the spec: [LeafEntry.MarkUpdate] sets the variant to
    the new value and marks updated=true, delete=false. *)
Definition MarkUpdate (l : LeafEntry) (c : cache.Update) : LeafEntry :=
  {| Update := c; IsNew := IsNew l; Delete := false; IsUpdated := true |}.

(** Modelled from the spec: [LeafEntry.MarkDelete] sets the delete flag. *)
Definition MarkDelete (l : LeafEntry) : LeafEntry :=
  {| Update := Update l; IsNew := IsNew l; Delete := true;
     IsUpdated := IsUpdated l |}.

Definition EqualSkipPath (l : LeafEntry) (c : cache.Update) : bool :=
  cache.EqualSkipPath (Update l) c.

Definition isRunning (l : LeafEntry) : bool :=
  bool_decide (Owner l = RunningIntentName).

(** ** [LeafVariants] *)

Abbreviation LeafVariants := (list LeafEntry).

Definition newLeafVariants : LeafVariants := [].

(** [LeafVariants.shouldDelete]. *)
Definition shouldDelete (lv : LeafVariants) : bool :=
  match lv with
  | [] => false
  | l0 :: rest =>
      if isRunning l0 && bool_decide (length lv = 1)
      then false
      else forallb (λ l, Delete l || isRunning l) lv
  end.

(** [LeafVariants.GetHighestPrecedenceValue]; [MaxInt32] when no variant
    is live. *)
Definition MaxInt32 : Z := 2147483647.

Definition GetHighestPrecedenceValue (lv : LeafVariants) : Z :=
  fold_left
    (λ result e,
       if negb (Delete e) && (Priority e <? result)%Z
       then Priority e else result)
    lv MaxInt32.

(** The loop body of [GetHighestPrecedence]: the state is the pair
    ([highest], [secondHighest]), [None] for a nil pointer. *)
Definition scanStep (st : option LeafEntry * option LeafEntry)
    (e : LeafEntry) : option LeafEntry * option LeafEntry :=
  match st with
  | (None, sec) => (Some e, sec)
  | (Some highest, sec) =>
      if (Priority e <? Priority highest)%Z
      then (Some e, Some highest)
      else
        match sec with
        | None => (Some highest, Some e)
        | Some s =>
            if (Priority e <? Priority s)%Z
            then (Some highest, Some e)
            else (Some highest, Some s)
        end
  end.

Definition scan (lv : LeafVariants) : option LeafEntry * option LeafEntry :=
  fold_left scanStep lv (None, None).

(** [LeafVariants.GetHighestPrecedence]. *)
Definition GetHighestPrecedence (lv : LeafVariants)
    (onlyIfPrioChanged : bool) : option LeafEntry :=
  if bool_decide (length lv = 0) then None
  else if shouldDelete lv then None
  else
    match scan lv with
    | (None, _) => None
    | (Some highest, secondHighest) =>
        if negb onlyIfPrioChanged
        then (if negb (Delete highest) then Some highest else secondHighest)
        else if negb (Delete highest)
        then (if IsNew highest || IsUpdated highest
              then Some highest else None)
        else
          match secondHighest with
          | Some s => if negb (Delete s) then Some s else None
          | None => None
          end
    end.

(** [LeafVariants.GetByOwner]. *)
Fixpoint GetByOwner (lv : LeafVariants) (owner : string)
    : option LeafEntry :=
  match lv with
  | [] => None
  | e :: rest =>
      if bool_decide (Owner e = owner) then Some e
      else GetByOwner rest owner
  end.

(** *** What the claims call top and second

    [lowest] is the variant of lowest priority value, the earliest one
    among equals; [extractLowest] also gives the other variants in their
    order; [second] is the lowest of those. *)

Fixpoint lowest (lv : LeafVariants) : option LeafEntry :=
  match lv with
  | [] => None
  | e :: rest =>
      match lowest rest with
      | None => Some e
      | Some m => if (Priority m <? Priority e)%Z then Some m else Some e
      end
  end.

Fixpoint extractLowest (lv : LeafVariants)
    : option (LeafEntry * LeafVariants) :=
  match lv with
  | [] => None
  | e :: rest =>
      match extractLowest rest with
      | None => Some (e, [])
      | Some (m, others) =>
          if (Priority m <? Priority e)%Z
          then Some (m, e :: others)
          else Some (e, rest)
      end
  end.

Definition second (lv : LeafVariants) : option LeafEntry :=
  match extractLowest lv with
  | None => None
  | Some (_, others) => lowest others
  end.

Definition live (lv : LeafVariants) : LeafVariants :=
  filter (λ e, Delete e = false) lv.

Definition deleted (lv : LeafVariants) : LeafVariants :=
  filter (λ e, Delete e = true) lv.

(** ** Choice resolvers *)

(** Modelled from the spec: the type [choiceCasesResolvers] is not part
    of the sources. A resolver holds, for one choice, the cases with
    their element names and the two case names it has resolved (empty
    when there is none). *)
Record choiceCasesResolver : Type := mkResolver {
  choiceName : string;
  cases : list (string * list string);
  oldBestCaseName : string;
  bestCaseName : string
}.

Definition getOldBestCaseName (v : choiceCasesResolver) : string :=
  oldBestCaseName v.
Definition getBestCaseName (v : choiceCasesResolver) : string :=
  bestCaseName v.

(** Modelled from the spec: the skip set is the union of the element
    names of all cases other than the best case. *)
Definition GetSkipElements (rs : list choiceCasesResolver) : list string :=
  flat_map
    (λ v, flat_map
            (λ cs : string * list string,
               if bool_decide (cs.1 = bestCaseName v) then [] else cs.2)
            (cases v))
    rs.

(** Modelled from the spec: [AddChoice] and [AddCase] fill a resolver
    from the schema; nothing is resolved yet. *)
Definition newResolver (choice : string * list (string * list string))
    : choiceCasesResolver :=
  {| choiceName := choice.1; cases := choice.2;
     oldBestCaseName := ""; bestCaseName := "" |}.

(** ** Entries *)

(** [sharedEntryAttributes]. The parent pointer is not stored: a
    function that follows it takes the chain of ancestors, nearest
    first, ending with the root; it is empty for the root. *)
#[local] Unset Elimination Schemes.
Inductive Entry : Type := mkEntry {
  pathElemName : string;
  childs : list (string * Entry);
  leafVariants : LeafVariants;
  schema : option sdcpb.SchemaElem;
  choicesResolvers : list choiceCasesResolver
}.
#[local] Set Elimination Schemes.

(** [s.childs[name]] *)
Fixpoint getChild (cs : list (string * Entry)) (name : string)
    : option Entry :=
  match cs with
  | [] => None
  | (k, c) :: rest =>
      if bool_decide (k = name) then Some c else getChild rest name
  end.

(** [s.childs[name] = e] *)
Fixpoint setChild (cs : list (string * Entry)) (name : string) (e : Entry)
    : list (string * Entry) :=
  match cs with
  | [] => [(name, e)]
  | (k, c) :: rest =>
      if bool_decide (k = name) then (k, e) :: rest
      else (k, c) :: setChild rest name e
  end.

Definition withChilds (s : Entry) (cs : list (string * Entry)) : Entry :=
  {| pathElemName := pathElemName s; childs := cs;
     leafVariants := leafVariants s; schema := schema s;
     choicesResolvers := choicesResolvers s |}.

Definition withLeafVariants (s : Entry) (lv : LeafVariants) : Entry :=
  {| pathElemName := pathElemName s; childs := childs s;
     leafVariants := lv; schema := schema s;
     choicesResolvers := choicesResolvers s |}.

Definition IsRoot (anc : list Entry) : bool := bool_decide (anc = []).

(** [sharedEntryAttributes.Path] *)
Fixpoint Path (anc : list Entry) (s : Entry) : list string :=
  match anc with
  | [] => []
  | parent :: up => Path up parent ++ [pathElemName s]
  end.

Definition PathName (s : Entry) : string := pathElemName s.

Definition GetLevel (anc : list Entry) (s : Entry) : nat :=
  length (Path anc s).

(** [sharedEntryAttributes.GetAncestorSchema], called on an entry whose
    ancestors are [anc]. The root hanging in the tree is a
    [sharedEntryAttributes] too, so at the root the nil parent is
    dereferenced. *)
Fixpoint GetAncestorSchema (anc : list Entry) : Res (sdcpb.SchemaElem * nat) :=
  match anc with
  | [] => Panic
  | parent :: up =>
      match schema parent with
      | Some sch => Ok (sch, 1)
      | None =>
          match GetAncestorSchema up with
          | Ok (sch, level) => Ok (sch, level + 1)
          | Err e => Err e
          | Panic => Panic
          end
      end
  end.

(** [sharedEntryAttributes.ShouldDelete] *)
Fixpoint ShouldDelete (s : Entry) : bool :=
  if bool_decide (0 < length (leafVariants s))
  then shouldDelete (leafVariants s)
  else
    (fix allChilds (cs : list (string * Entry)) : bool :=
       match cs with
       | [] => true
       | (_, c) :: rest =>
           if negb (ShouldDelete c) then false else allChilds rest
       end) (childs s).

(** [sharedEntryAttributes.IsDeleteKeyAttributesInLevelDown] *)
Definition IsDeleteKeyAttributesInLevelDown (s : Entry) (anc : list Entry)
    (keyAttributes : list string) (result : list (list string))
    : list (list string) :=
  let doDelete :=
    fold_left
      (λ (doDelete : bool) (n : string),
         match getChild (childs s) n with
         | Some c => if negb (ShouldDelete c) then false else doDelete
         | None => doDelete
         end)
      keyAttributes true in
  if doDelete then result ++ [Path anc s] else result.

(** The deletes for the choice cases that became inactive. *)
Definition choiceDeletes (s : Entry) (anc : list Entry)
    (deletes : list (list string)) : list (list string) :=
  fold_left
    (λ deletes v,
       let oldBestCase := getOldBestCaseName v in
       let newBestCase := getBestCaseName v in
       if negb (bool_decide (oldBestCase = ""))
          && negb (bool_decide (newBestCase = ""))
          && negb (bool_decide (oldBestCase = newBestCase))
       then deletes ++ [Path anc s ++ [oldBestCase]]
       else deletes)
    (choicesResolvers s) deletes.

(** [sharedEntryAttributes.GetDeletes] *)
Fixpoint GetDeletes (s : Entry) (anc : list Entry)
    (deletes : list (list string)) : Res (list (list string)) :=
  let recurse :=
    fix recurse (cs : list (string * Entry)) (deletes : list (list string))
        : Res (list (list string)) :=
      match cs with
      | [] => Ok deletes
      | (_, c) :: rest =>
          match GetDeletes c (s :: anc) deletes with
          | Ok deletes => recurse rest deletes
          | Err e => Err e
          | Panic => Panic
          end
      end in
  let regular :=
    let deletes :=
      match sdcpb.GetContainer (schema s) with
      | Some _ => choiceDeletes s anc deletes
      | None => deletes
      end in
    if shouldDelete (leafVariants s)
    then
      match leafVariants s with
      | l0 :: _ => Ok (deletes ++ [GetPath l0])
      | [] => Panic
      end
    else recurse (childs s) deletes in
  match schema s with
  | Some _ => regular
  | None =>
      match GetAncestorSchema anc with
      | Ok (sch, level) =>
          match sdcpb.GetContainer (Some sch) with
          | Some contschema =>
              if bool_decide (level = length (sdcpb.Keys contschema))
              then
                let keys := map sdcpb.Name (sdcpb.Keys contschema) in
                let preCountDeletes := length deletes in
                let deletes :=
                  IsDeleteKeyAttributesInLevelDown s anc keys deletes in
                if bool_decide (length deletes = preCountDeletes)
                then recurse (childs s) deletes
                else Ok deletes
              else regular
          | None => regular
          end
      | Err e => Err e
      | Panic => Panic
      end
  end.

(** The range of [GetDeletes] over the children of an entry whose
    chain, itself included, is [anc]. *)
Fixpoint GetDeletesChilds (cs : list (string * Entry)) (anc : list Entry)
    (deletes : list (list string)) : Res (list (list string)) :=
  match cs with
  | [] => Ok deletes
  | (_, c) :: rest =>
      deletes ← GetDeletes c anc deletes;
      GetDeletesChilds rest anc deletes
  end.

(** [sharedEntryAttributes.AddChild]: [s] with ancestors [anc] receives
    the entry [e], whose own parent chain is [eanc]. *)
Definition AddChild (s : Entry) (anc : list Entry)
    (e : Entry) (eanc : list Entry) : Res Entry :=
  guard1 ←
    (if bool_decide (0 < length (leafVariants s))
     then
       match schema s with
       | None => Panic
       | Some sch =>
           match sdcpb.Schema sch with
           | Some (sdcpb.SchemaElem_Container _) =>
               (* [!is_container] is false: the conjunction is false *)
               Ok tt
           | _ =>
               (* [!is_container] holds and [contSchema] is nil *)
               Panic
           end
       end
     else Ok tt);
  let epath := Path eanc e in
  if bool_decide (length epath = 0) then Panic
  else if negb (bool_decide (Path anc s = take (length epath - 1) epath))
  then Err "adding Child with diverging path"
  else Ok (withChilds s (setChild (childs s) (PathName e) e)).

(** [filterActiveChoiceCaseChilds] *)
Definition filterActiveChoiceCaseChilds (s : Entry)
    : list (string * Entry) :=
  match schema s with
  | None => childs s
  | Some _ =>
      let skipAttributesList := GetSkipElements (choicesResolvers s) in
      filter (λ kc : string * Entry,
                ¬ (kc.1 ∈ skipAttributesList)) (childs s)
  end.

(** [sharedEntryAttributes.MarkOwnerDelete] *)
Fixpoint markFirstByOwner (f : LeafEntry → LeafEntry) (lv : LeafVariants)
    (owner : string) : LeafVariants :=
  match lv with
  | [] => []
  | e :: rest =>
      if bool_decide (Owner e = owner) then f e :: rest
      else e :: markFirstByOwner f rest owner
  end.

Fixpoint MarkOwnerDelete (s : Entry) (o : string) : Entry :=
  {| pathElemName := pathElemName s;
     childs :=
       (fix markChilds (cs : list (string * Entry)) :=
          match cs with
          | [] => []
          | (k, c) :: rest => (k, MarkOwnerDelete c o) :: markChilds rest
          end) (childs s);
     leafVariants := markFirstByOwner MarkDelete (leafVariants s) o;
     schema := schema s;
     choicesResolvers := choicesResolvers s |}.

(** ** The tree context: the schema service and the cache behind the
    tree, external collaborators given by what they answer. *)
Record TreeContext : Type := mkTreeContext {
  GetSchema : list string → Res (option sdcpb.SchemaElem);
  ReadRunning : list string → Res (option cache.Update)
}.

(** [initChoiceCasesResolvers] *)
Definition initChoiceCasesResolvers (sch : option sdcpb.SchemaElem)
    : list choiceCasesResolver :=
  match sch with
  | None => []
  | Some _ =>
      match sdcpb.GetContainer sch with
      | Some c => map newResolver (sdcpb.ChoiceInfo c)
      | None => []
      end
  end.

(** [newSharedEntryAttributes], for an entry under the ancestors [anc]. *)
Definition newSharedEntryAttributes (tc : TreeContext) (anc : list Entry)
    (pathElemName : string) : Res Entry :=
  let s := {| pathElemName := pathElemName; childs := [];
              leafVariants := newLeafVariants; schema := None;
              choicesResolvers := [] |} in
  getSchema ←
    (if negb (IsRoot anc)
     then
       '(ancesterschema, levelUp) ← GetAncestorSchema anc;
       match sdcpb.Schema ancesterschema with
       | Some (sdcpb.SchemaElem_Container c) =>
           if bool_decide (levelUp ≤ length (sdcpb.Keys c))
           then Ok false else Ok true
       | _ => Ok true
       end
     else Ok true);
  sch ←
    (if getSchema : bool
     then GetSchema tc (Path anc s)
     else Ok None);
  Ok {| pathElemName := pathElemName; childs := [];
        leafVariants := newLeafVariants; schema := sch;
        choicesResolvers := initChoiceCasesResolvers sch |}.

(** [newEntry]: gives the parent with the new child and the new entry. *)
Definition newEntry (tc : TreeContext) (parent : Entry) (anc : list Entry)
    (pathElemName : string) : Res (Entry * Entry) :=
  sea ← newSharedEntryAttributes tc (parent :: anc) pathElemName;
  parent' ← AddChild parent anc sea (parent :: anc);
  Ok (parent', sea).

(** [leafVariant.Delete = false] *)
Definition clearDelete (l : LeafEntry) : LeafEntry :=
  {| Update := Update l; IsNew := IsNew l; Delete := false;
     IsUpdated := IsUpdated l |}.

(** The terminal case of [AddCacheUpdateRecursive]: the variant found
    by [GetByOwner] is changed in place. *)
Definition addLeafEntry (lv : LeafVariants) (c : cache.Update) (new : bool)
    : LeafVariants :=
  match GetByOwner lv (cache.Owner c) with
  | Some leafVariant =>
      if EqualSkipPath leafVariant c
      then markFirstByOwner clearDelete lv (cache.Owner c)
      else markFirstByOwner (λ l, MarkUpdate l c) lv (cache.Owner c)
  | None => lv ++ [NewLeafEntry c new]
  end.

(** [AddCacheUpdateRecursive], from an entry at depth [idx]: [rest] is
    what is left of the path from index [idx] on. *)
Fixpoint addCacheUpdateFrom (tc : TreeContext) (rest : list string)
    (r : Entry) (anc : list Entry) (c : cache.Update) (new : bool)
    : Res Entry :=
  match rest with
  | [] => Ok (withLeafVariants r (addLeafEntry (leafVariants r) c new))
  | name :: rest' =>
      match getChild (childs r) name with
      | Some e =>
          e' ← addCacheUpdateFrom tc rest' e (r :: anc) c new;
          Ok (withChilds r (setChild (childs r) name e'))
      | None =>
          '(r1, e) ← newEntry tc r anc name;
          e' ← addCacheUpdateFrom tc rest' e (r1 :: anc) c new;
          Ok (withChilds r1 (setChild (childs r1) name e'))
      end
  end.

Definition AddCacheUpdateRecursive (tc : TreeContext) (r : Entry)
    (anc : list Entry) (c : cache.Update) (new : bool) : Res Entry :=
  let idx := if IsRoot anc then 0 else GetLevel anc r in
  if bool_decide (length (cache.GetPath c) < idx)
  then Panic
  else addCacheUpdateFrom tc (drop idx (cache.GetPath c)) r anc c new.

(** ** Navigation

    An entry of a tree is addressed by the names from the root down to
    it; its parent is addressed by the names without the last. *)

Fixpoint getAt (root : Entry) (loc : list string) : option Entry :=
  match loc with
  | [] => Some root
  | name :: rest =>
      match getChild (childs root) name with
      | Some c => getAt c rest
      | None => None
      end
  end.

Fixpoint ancestorsAt (root : Entry) (loc : list string) (acc : list Entry)
    : list Entry :=
  match loc with
  | [] => acc
  | name :: rest =>
      match getChild (childs root) name with
      | Some c => ancestorsAt c rest (root :: acc)
      | None => acc
      end
  end.

Definition parentLoc (loc : list string) : list string :=
  take (length loc - 1) loc.

(** [sharedEntryAttributes.tryLoading]: the tree after the load. *)
Definition tryLoading (tc : TreeContext) (root s : Entry) (anc : list Entry)
    (path : list string) : Res Entry :=
  upd ← ReadRunning tc (Path anc s ++ path);
  match upd with
  | None => Err "reached entry but child does not exist"
  | Some upd => AddCacheUpdateRecursive tc root [] upd false
  end.

(** [sharedEntryAttributes.Navigate], on the entry at [loc] of the tree
    [root]: gives the tree (lazy loading may have grown it) and the
    address of the entry found. [None] when [fuel] runs out. *)
Fixpoint Navigate (fuel : nat) (tc : TreeContext) (root : Entry)
    (loc path : list string) : option (Res (Entry * list string)) :=
  match fuel with
  | 0 => None
  | S fuel =>
      match getAt root loc with
      | None => Some Panic
      | Some s =>
          let anc := ancestorsAt root loc [] in
          if bool_decide (length path = 0) then Some (Ok (root, loc))
          else
            (fix loop (n : nat) (cont : bool) (idx : nat)
               : option (Res (Entry * list string)) :=
               if cont then
                 match n with
                 | 0 => None
                 | S n =>
                     match path !! idx with
                     | None => Some Panic
                     | Some seg =>
                         if bool_decide (seg = ".") then
                           loop n true (idx + 1)
                         else if bool_decide (seg = "..") then
                           match anc with
                           | [] => Some Panic
                           | _ :: _ =>
                               Navigate fuel tc root (parentLoc loc)
                                 (drop 1 path)
                           end
                         else
                           let name := default "" (head path) in
                           match getChild
                                   (filterActiveChoiceCaseChilds s) name with
                           | Some _ =>
                               Navigate fuel tc root (loc ++ [name])
                                 (drop 1 path)
                           | None =>
                               match tryLoading tc root s anc path with
                               | Ok root' =>
                                   Navigate fuel tc root' (loc ++ [name])
                                     (drop 1 path)
                               | Err e => Some (Err e)
                               | Panic => Some Panic
                               end
                           end
                     end
                 end
               else
                 Some (Err "navigating tree, reached entry but child does not exist"))
              fuel false 0
      end
  end.

(** ** What the tree gives back *)

(** [sharedEntryAttributes.GetHighestPrecedence]: the range over the
    active children skips the children in the skip set. *)
Fixpoint GetHighestPrecedenceOfBranch (s : Entry)
    (result : list cache.Update) (onlyNewOrUpdated : bool)
    : list cache.Update :=
  let result :=
    match GetHighestPrecedence (leafVariants s) onlyNewOrUpdated with
    | Some lv => result ++ [Update lv]
    | None => result
    end in
  let skip :=
    match schema s with
    | None => []
    | Some _ => GetSkipElements (choicesResolvers s)
    end in
  (fix range (cs : list (string * Entry)) (result : list cache.Update) :=
     match cs with
     | [] => result
     | (k, c) :: rest =>
         if bool_decide (k ∈ skip) then range rest result
         else range rest (GetHighestPrecedenceOfBranch c result onlyNewOrUpdated)
     end) (childs s) result.

(** [sharedEntryAttributes.GetByOwner] *)
Fixpoint GetByOwnerOfBranch (s : Entry) (owner : string)
    (result : list LeafEntry) : list LeafEntry :=
  let result :=
    match GetByOwner (leafVariants s) owner with
    | Some lv => result ++ [lv]
    | None => result
    end in
  (fix range (cs : list (string * Entry)) (result : list LeafEntry) :=
     match cs with
     | [] => result
     | (_, c) :: rest => range rest (GetByOwnerOfBranch c owner result)
     end) (childs s) result.

(** Modelled from the spec: the filters [FilterNonDeletedButNewOrUpdated]
    and [FilterDeleted] are not part of the sources; they keep the
    variants that are not deleted and new or updated, and the deleted
    ones. *)
Definition FilterNonDeletedButNewOrUpdated (l : LeafEntry) : bool :=
  negb (Delete l) && (IsNew l || IsUpdated l).
Definition FilterDeleted (l : LeafEntry) : bool := Delete l.

(** [RootEntry.getByOwnerFiltered] *)
Definition getByOwnerFiltered (r : Entry) (owner : string)
    (f : LeafEntry → bool) : list LeafEntry :=
  List.filter f (GetByOwnerOfBranch r owner []).

(** [RootEntry.GetUpdatesForOwner], [RootEntry.GetDeletesForOwner] *)
Definition GetUpdatesForOwner (r : Entry) (owner : string)
    : list cache.Update :=
  map Update (getByOwnerFiltered r owner FilterNonDeletedButNewOrUpdated).

Definition GetDeletesForOwner (r : Entry) (owner : string)
    : list (list string) :=
  map cache.GetPath (map Update (getByOwnerFiltered r owner FilterDeleted)).

(** [NewTreeRoot] *)
Definition NewTreeRoot (tc : TreeContext) : Res Entry :=
  newSharedEntryAttributes tc [] "".

(** [sharedEntryAttributes.GetHighestPrecedenceValueOfBranch] *)
Fixpoint GetHighestPrecedenceValueOfBranch (s : Entry) : Z :=
  let result :=
    (fix range (cs : list (string * Entry)) (result : Z) : Z :=
       match cs with
       | [] => result
       | (_, e) :: rest =>
           let val := GetHighestPrecedenceValueOfBranch e in
           range rest (if (val <? result)%Z then val else result)
       end) (childs s) MaxInt32 in
  let val := GetHighestPrecedenceValue (leafVariants s) in
  if (val <? result)%Z then val else result.

(** The range of [GetHighestPrecedenceValueOfBranch] over children. *)
Fixpoint branchValues (cs : list (string * Entry)) (result : Z) : Z :=
  match cs with
  | [] => result
  | (_, e) :: rest =>
      let val := GetHighestPrecedenceValueOfBranch e in
      branchValues rest (if (val <? result)%Z then val else result)
  end.

(** The ranges of [GetByOwner] and of [GetHighestPrecedence] over the
    children of an entry. *)
Fixpoint GetByOwnerOfChilds (cs : list (string * Entry)) (owner : string)
    (result : list LeafEntry) : list LeafEntry :=
  match cs with
  | [] => result
  | (_, c) :: rest =>
      GetByOwnerOfChilds rest owner (GetByOwnerOfBranch c owner result)
  end.

(** Induction on entries: a property holds of an entry when it holds
    of its children. *)
Section EntryInduction.
Variable P : Entry → Prop.
Hypothesis step :
  ∀ name cs lv sch rs,
    Forall (λ kc : string * Entry, P kc.2) cs →
    P (mkEntry name cs lv sch rs).

Fixpoint Entry_induction (s : Entry) : P s :=
  match s with
  | mkEntry name cs lv sch rs =>
      step name cs lv sch rs
        ((fix all (cs : list (string * Entry))
            : Forall (λ kc : string * Entry, P kc.2) cs :=
            match cs return Forall (λ kc : string * Entry, P kc.2) cs
            with
            | [] => @List.Forall_nil _ (λ kc : string * Entry, P kc.2)
            | (k, c) :: rest =>
                @List.Forall_cons _ (λ kc : string * Entry, P kc.2)
                  (k, c) rest (Entry_induction c) (all rest)
            end) cs)
  end.
End EntryInduction.

End tree.

(** ** The Go library functions the datastore calls ([strings],
    [strconv]), as far as they are used *)

Module gostrings.

(** [strings.TrimPrefix] *)
Fixpoint stripPrefix (prefix s : string) : option string :=
  match prefix with
  | EmptyString => Some s
  | String a prefix' =>
      match s with
      | EmptyString => None
      | String b s' =>
          if Ascii.eqb a b then stripPrefix prefix' s' else None
      end
  end.

Definition TrimPrefix (s prefix : string) : string :=
  default s (stripPrefix prefix s).

(** [strings.Split] at a separator of one character: the pieces
    between the separators, one more than there are separators. *)
Fixpoint Split (s : string) (sep : ascii) : list string :=
  match s with
  | EmptyString => [EmptyString]
  | String a s' =>
      if Ascii.eqb a sep then EmptyString :: Split s' sep
      else
        match Split s' sep with
        | piece :: pieces => String a piece :: pieces
        | [] => [String a EmptyString]
        end
  end.

(** [strings.Join] *)
Definition Join (elems : list string) (sep : string) : string :=
  String.concat sep elems.

(** [strings.Contains] *)
Fixpoint Contains (s substr : string) : bool :=
  String.prefix substr s
  || match s with
     | EmptyString => false
     | String _ s' => Contains s' substr
     end.

(** [%q] of [fmt], for a string that has no character to escape: the
    string between double quotes *)
Definition quoted (s : string) : string :=
  String (ascii_of_nat 34) (s +:+ String (ascii_of_nat 34) "").

End gostrings.

Module strconv.

Definition minInt64 : Z := -9223372036854775808.
Definition maxInt64 : Z := 9223372036854775807.

(** The error of [strconv]: the function, the input and the reason *)
Definition NumError (fn s reason : string) : string :=
  "strconv." +:+ fn +:+ ": parsing " +:+ gostrings.quoted s +:+ ": "
    +:+ reason.

(** Parsing in base 10 to 64 bits, for the function [fn]: an optional
    sign, then decimal digits, at least one; values outside of the 64
    bits are an error. *)
Definition parse (fn s : string) : Res Z :=
  let parsed :=
    match s with
    | String "+"%char digits =>
        option_map Decimal.Pos (NilZero.uint_of_string digits)
    | _ => NilZero.int_of_string s
    end in
  match parsed with
  | None => Err (NumError fn s "invalid syntax")
  | Some d =>
      let n := Z.of_int d in
      if (n <? minInt64)%Z || (maxInt64 <? n)%Z
      then Err (NumError fn s "value out of range")
      else Ok n
  end.

(** [strconv.ParseInt(s, 10, 64)] *)
Definition ParseInt (s : string) : Res Z := parse "ParseInt" s.

(** [strconv.Atoi], with [int] of 64 bits *)
Definition Atoi (s : string) : Res Z := parse "Atoi" s.

(** The conversion [int32(n)] *)
Definition int32 (n : Z) : Z :=
  ((n + 2147483648) mod 4294967296 - 2147483648)%Z.

End strconv.

(** ** The datastore: the intent RPCs *)

Module datastore.

(** [%d] of [fmt.Sprintf] *)
Definition decimal (z : Z) : string := NilZero.string_of_int (Z.to_int z).

Definition rawIntentPrefix : string := "__raw_intent__".
Definition intentRawNameSep : string := "_".

(** [rawIntentName] *)
Definition rawIntentName (name : string) (pr : Z) : string :=
  rawIntentPrefix +:+ name +:+ intentRawNameSep +:+ decimal pr.

(** *** The cache, an external collaborator

    Three stores keyed by owner and path (the owner is empty where the
    store is not owner-scoped) and the candidates with what was set into
    them. [Modify] deletes, then writes. *)

Inductive Store : Type := Store_CONFIG | Store_INTENDED | Store_INTENTS.

Record Opts : Type := mkOpts {
  OptStore : Store;
  OptOwner : string;
  OptPriority : Z
}.

Record Cache : Type := mkCache {
  config : gmap (string * list string) cache.Update;
  intended : gmap (string * list string) cache.Update;
  intents : gmap (string * list string) cache.Update;
  candidates : gmap string (list sdcpb.SetDataRequest)
}.

Definition getStore (c : Cache) (s : Store)
    : gmap (string * list string) cache.Update :=
  match s with
  | Store_CONFIG => config c
  | Store_INTENDED => intended c
  | Store_INTENTS => intents c
  end.

Definition setStore (c : Cache) (s : Store)
    (m : gmap (string * list string) cache.Update) : Cache :=
  match s with
  | Store_CONFIG =>
      {| config := m; intended := intended c; intents := intents c;
         candidates := candidates c |}
  | Store_INTENDED =>
      {| config := config c; intended := m; intents := intents c;
         candidates := candidates c |}
  | Store_INTENTS =>
      {| config := config c; intended := intended c; intents := m;
         candidates := candidates c |}
  end.

Definition setCandidates (c : Cache)
    (m : gmap string (list sdcpb.SetDataRequest)) : Cache :=
  {| config := config c; intended := intended c; intents := intents c;
     candidates := m |}.

Definition modifyStore (m : gmap (string * list string) cache.Update)
    (owner : string) (deletes : list (list string))
    (updates : list cache.Update)
    : gmap (string * list string) cache.Update :=
  fold_left (λ m u, <[(owner, cache.GetPath u) := u]> m) updates
    (fold_left (λ m p, delete (owner, p) m) deletes m).

(** [cacheClient.Read] of explicit paths: the updates found, in the
    order of the paths. *)
Definition Read (c : Cache) (opts : Opts) (paths : list (list string))
    : list cache.Update :=
  omap (λ p, getStore c (OptStore opts) !! (OptOwner opts, p)) paths.

(** The receiver [d]: its name, the cache behind [d.cacheClient], what
    the southbound target [d.sbi] has committed, and whether
    [d.intentMutex] is held. *)
Record Datastore : Type := mkDatastore {
  Name : string;
  cacheClient : Cache;
  sbi : list sdcpb.SetDataRequest;
  intentMutex : bool
}.

Definition withCache (d : Datastore) (c : Cache) : Datastore :=
  {| Name := Name d; cacheClient := c; sbi := sbi d;
     intentMutex := intentMutex d |}.

Definition withSbi (d : Datastore) (l : list sdcpb.SetDataRequest)
    : Datastore :=
  {| Name := Name d; cacheClient := cacheClient d; sbi := l;
     intentMutex := intentMutex d |}.

Definition withMutex (d : Datastore) (held : bool) : Datastore :=
  {| Name := Name d; cacheClient := cacheClient d; sbi := sbi d;
     intentMutex := held |}.

(** The error a function of the transaction returns, with the place of
    [SetIntentUpdate] that returned it. *)
Inductive Site : Type :=
| AtPopulateTree
| AtCacheUpdateToUpdate
| AtValidation
| AtSetCandidate
| AtApplyIntent
| AtIntendedStore
| AtConfigStore
| AtRawIntent.

Inductive Outcome : Type :=
| Success
| Failure (site : Site) (e : string)
| Crash.

(** *** What the other collaborators answer

    The schema and validation services, the southbound target, the
    protobuf codec and the clock, and the functions of this repository
    that are not part of the sources. Apart from [SetIntentDelete] none
    of them writes to a store: they get the cache to read from. *)
Record Env : Type := mkEnv {
  now : Z;
  proto_Marshal : sdcpb.SetIntentRequest → Res string;
  proto_Unmarshal : string → Res sdcpb.SetIntentRequest;
  proto_MarshalValue : sdcpb.TypedValue → Res string;
  proto_UnmarshalValue : string → Res sdcpb.TypedValue;
  Modify_fails : Opts → list (list string) → list cache.Update
                 → option string;
  GetKeys_fails : Store → option string;
  CreateCandidate_fails : sdcpb.DataStore → option string;
  DeleteCandidate_fails : string → option string;
  setCandidate_fails : Cache → sdcpb.SetDataRequest → option string;
  sbi_Set_fails : sdcpb.SetDataRequest → option string;
  validateMustStatement : Cache → string → sdcpb.Path → option string;
  validateLeafRef : Cache → sdcpb.Update → string → option string;
  expandUpdates : list sdcpb.Update → Res (list sdcpb.Update);
  CompletePath : sdcpb.Path → Res (list string);
  validateUpdate : sdcpb.Update → option string;
  toPath : list string → Res sdcpb.Path;
  NewTreeContext : Cache → string → tree.TreeContext;
  LoadIntendedStoreOwnerData :
    Cache → tree.Entry → string → list (list string) → tree.Entry;
  FinishInsertionPhase :
    gmap string (list cache.Update) → string → tree.Entry → tree.Entry;
  Validate :
    Cache → gmap string (list cache.Update) → tree.Entry → list string;
  SetIntentDelete :
    Datastore → sdcpb.SetIntentRequest → string → Outcome * Datastore
}.

Definition failed (o : option string) : Res () :=
  match o with
  | Some e => Err e
  | None => Ok ()
  end.

(** [cacheClient.Modify] on the cache of [d] *)
Definition Modify (env : Env) (d : Datastore) (opts : Opts)
    (deletes : list (list string)) (updates : list cache.Update)
    : Res () * Datastore :=
  match Modify_fails env opts deletes updates with
  | Some e => (Err e, d)
  | None =>
      let c := cacheClient d in
      (Ok (),
       withCache d
         (setStore c (OptStore opts)
            (modifyStore (getStore c (OptStore opts)) (OptOwner opts)
               deletes updates)))
  end.

(** [cacheClient.GetKeys]: the entries come in no particular order. *)
Definition GetKeys (env : Env) (d : Datastore) (s : Store)
    : Res (list cache.Update) :=
  _ ← failed (GetKeys_fails env s);
  Ok ((map_to_list (getStore (cacheClient d) s)).*2).

(** [cache.Update.Value] *)
Definition UpdateValue (env : Env) (u : cache.Update)
    : Res sdcpb.TypedValue :=
  proto_UnmarshalValue env (cache.Bytes u).

(** [cacheClient.NewUpdate] of an update whose path is the single
    element [name] *)
Definition NewUpdateNamed (env : Env) (name : string)
    (v : sdcpb.TypedValue) : Res cache.Update :=
  b ← proto_MarshalValue env v;
  Ok (cache.NewUpdate [name] b 0 "" 0).

(** [Datastore.saveRawIntent] *)
Definition saveRawIntent (env : Env) (d : Datastore) (intentName : string)
    (req : sdcpb.SetIntentRequest) : Res () * Datastore :=
  match proto_Marshal env req with
  | Err e => (Err e, d)
  | Panic => (Panic, d)
  | Ok b =>
      let rin := rawIntentName intentName (sdcpb.ReqPriority req) in
      match NewUpdateNamed env rin (sdcpb.TypedValue_BytesVal b) with
      | Err e => (Err e, d)
      | Panic => (Panic, d)
      | Ok upd =>
          Modify env d (mkOpts Store_INTENTS "" 0) [] [upd]
      end
  end.

Definition ErrIntentNotFound : string := "intent not found".

(** [Datastore.getRawIntent] *)
Definition getRawIntent (env : Env) (d : Datastore) (intentName : string)
    (priority : Z) : Res sdcpb.SetIntentRequest :=
  let rin := rawIntentName intentName priority in
  let upds := Read (cacheClient d) (mkOpts Store_INTENTS "" 0) [[rin]] in
  match upds with
  | [] => Err ErrIntentNotFound
  | upd0 :: _ =>
      val ← UpdateValue env upd0;
      proto_Unmarshal env (sdcpb.GetBytesVal val)
  end.

(** [Datastore.deleteRawIntent] *)
Definition deleteRawIntent (env : Env) (d : Datastore)
    (intentName : string) (priority : Z) : Res () * Datastore :=
  Modify env d (mkOpts Store_INTENTS "" 0)
    [[rawIntentName intentName priority]] [].

(** [Datastore.cacheUpdateToUpdate] *)
Definition cacheUpdateToUpdate (env : Env) (cupd : cache.Update)
    : Res sdcpb.Update :=
  scp ← toPath env (cache.GetPath cupd);
  val ← UpdateValue env cupd;
  Ok (sdcpb.mkUpdate scp val).

Fixpoint mapRes {A B : Type} (f : A → Res B) (l : list A) : Res (list B) :=
  match l with
  | [] => Ok []
  | a :: rest =>
      b ← f a;
      bs ← mapRes f rest;
      Ok (b :: bs)
  end.

(** The two validation loops of [applyIntent]: the first error ends. *)
Fixpoint firstError {A : Type} (f : A → option string) (l : list A)
    : Res () :=
  match l with
  | [] => Ok ()
  | a :: rest =>
      match f a with
      | Some e => Err e
      | None => firstError f rest
      end
  end.

(** [d.sbi.Set]: the target commits the request or fails. *)
Definition sbi_Set (env : Env) (d : Datastore)
    (req : sdcpb.SetDataRequest) : Res () * Datastore :=
  match sbi_Set_fails env req with
  | Some e => (Err e, d)
  | None => (Ok (), withSbi d (sbi d ++ [req]))
  end.

(** [Datastore.applyIntent] *)
Definition applyIntent (env : Env) (d : Datastore) (candidateName : string)
    (priority : Z) (sdreq : sdcpb.SetDataRequest) : Res () * Datastore :=
  if bool_decide (candidateName = "") then (Err "missing candidate name", d)
  else
    match firstError
            (λ upd, validateMustStatement env (cacheClient d) candidateName
                      (sdcpb.UpdatePath upd))
            (sdcpb.SDUpdate sdreq) with
    | Err e => (Err e, d)
    | Panic => (Panic, d)
    | Ok _ =>
        match firstError
                (λ upd, validateLeafRef env (cacheClient d) upd
                          candidateName)
                (sdcpb.SDUpdate sdreq) with
        | Err e => (Err e, d)
        | Panic => (Panic, d)
        | Ok _ =>
            let sbiSet :=
              {| sdcpb.SDName := ""; sdcpb.SDDatastore := None;
                 sdcpb.SDUpdate := sdcpb.SDUpdate sdreq;
                 sdcpb.SDReplace := [];
                 sdcpb.SDDelete := sdcpb.SDDelete sdreq |} in
            if bool_decide
                 (0 < length (sdcpb.SDUpdate sbiSet)
                      + length (sdcpb.SDReplace sbiSet)
                      + length (sdcpb.SDDelete sbiSet))
            then sbi_Set env d sbiSet
            else (Ok (), d)
        end
    end.

(** [Datastore.setCandidate] is not part of the sources: it sets the
    request into the candidate, or fails. *)
Definition setCandidate (env : Env) (d : Datastore)
    (req : sdcpb.SetDataRequest) : Res () * Datastore :=
  match setCandidate_fails env (cacheClient d) req with
  | Some e => (Err e, d)
  | None =>
      let c := cacheClient d in
      let name :=
        match sdcpb.SDDatastore req with
        | Some ds => sdcpb.DSName ds
        | None => ""
        end in
      (Ok (),
       withCache d
         (setCandidates c
            (<[name := default [] (candidates c !! name) ++ [req]]>
               (candidates c))))
  end.

(** [Datastore.readIntendedStoreKeysMeta]: the keys of the intended
    store grouped under the path joined by [KeysIndexSep]. *)
Definition KeysIndexSep : string := "_".

Definition readIntendedStoreKeysMeta (env : Env) (d : Datastore)
    : Res (gmap string (list cache.Update)) :=
  entries ← GetKeys env d Store_INTENDED;
  Ok (fold_left
        (λ (result : gmap string (list cache.Update)) e,
           let key := String.concat KeysIndexSep (cache.GetPath e) in
           <[key := default [] (result !! key) ++ [e]]> result)
        entries ∅).

(** The body of the loop of [readIntendedStoreKeysMeta] *)
Definition keysStep (result : gmap string (list cache.Update))
    (e : cache.Update) : gmap string (list cache.Update) :=
  let key := String.concat KeysIndexSep (cache.GetPath e) in
  <[key := default [] (result !! key) ++ [e]]> result.

(** The loop of [populateTree] over the expanded updates: the paths to
    fetch and the updates to add. *)
Fixpoint requestUpdates (env : Env) (req : sdcpb.SetIntentRequest)
    (expanded : list sdcpb.Update)
    : Res (list (list string) * list cache.Update) :=
  match expanded with
  | [] => Ok ([], [])
  | u :: rest =>
      pathslice ← CompletePath env (sdcpb.UpdatePath u);
      _ ← failed (validateUpdate env u);
      val ← proto_MarshalValue env (sdcpb.Value u);
      '(pathKeySet, newCacheUpdates) ← requestUpdates env req rest;
      Ok (pathslice :: pathKeySet,
          cache.NewUpdate pathslice val (sdcpb.ReqPriority req)
            (sdcpb.Intent req) 0 :: newCacheUpdates)
  end.

Fixpoint addAll (tc : tree.TreeContext) (root : tree.Entry)
    (upds : list cache.Update) : Res tree.Entry :=
  match upds with
  | [] => Ok root
  | upd :: rest =>
      root ← tree.AddCacheUpdateRecursive tc root [] upd true;
      addAll tc root rest
  end.

(** [Datastore.populateTree]: the tree and the store index. *)
Definition populateTree (env : Env) (d : Datastore)
    (req : sdcpb.SetIntentRequest) (tc : tree.TreeContext)
    : Res (tree.Entry * gmap string (list cache.Update)) :=
  root ← tree.NewTreeRoot tc;
  storeIndex ← readIntendedStoreKeysMeta env d;
  expandedReqUpdates ← expandUpdates env (sdcpb.ReqUpdate req);
  '(pathKeySet, newCacheUpdates) ← requestUpdates env req expandedReqUpdates;
  let root :=
    LoadIntendedStoreOwnerData env (cacheClient d) root (sdcpb.Intent req)
      pathKeySet in
  root ← addAll tc root newCacheUpdates;
  Ok (root, storeIndex).

(** [Datastore.SetIntentUpdate] *)
Definition SetIntentUpdate (env : Env) (d : Datastore)
    (req : sdcpb.SetIntentRequest) (candidateName : string)
    : Outcome * Datastore :=
  let tc := NewTreeContext env (cacheClient d) (sdcpb.Intent req) in
  match populateTree env d req tc with
  | Err e => (Failure AtPopulateTree e, d)
  | Panic => (Crash, d)
  | Ok (root, storeIndex) =>
  let root := FinishInsertionPhase env storeIndex (sdcpb.Intent req) root in
  let updates := tree.GetHighestPrecedenceOfBranch root [] true in
  match tree.GetDeletes root [] [] with
  | Err _ | Panic => (Crash, d)
  | Ok deletes =>
  match mapRes (cacheUpdateToUpdate env) updates with
  | Err e => (Failure AtCacheUpdateToUpdate e, d)
  | Panic => (Crash, d)
  | Ok sdUpdates =>
  let validationErrors := Validate env (cacheClient d) storeIndex root in
  if bool_decide (0 < length validationErrors)
  then (Failure AtValidation
          ("cumulated validation errors:" +:+
             String.concat "" validationErrors), d)
  else
  match mapRes
          (λ u, sdcpbUpd ←
                  cacheUpdateToUpdate env
                    (cache.NewUpdate u "" (sdcpb.ReqPriority req)
                       (sdcpb.Intent req) 0);
                Ok (sdcpb.UpdatePath sdcpbUpd))
          deletes with
  | Err e => (Failure AtCacheUpdateToUpdate e, d)
  | Panic => (Crash, d)
  | Ok sdDeletes =>
  let setDataReq :=
    {| sdcpb.SDName := sdcpb.ReqName req;
       sdcpb.SDDatastore :=
         Some {| sdcpb.DSType := sdcpb.Type_CANDIDATE;
                 sdcpb.DSName := candidateName;
                 sdcpb.DSOwner := sdcpb.Intent req;
                 sdcpb.DSPriority := sdcpb.ReqPriority req |};
       sdcpb.SDUpdate := sdUpdates;
       sdcpb.SDReplace := [];
       sdcpb.SDDelete := sdDeletes |} in
  match setCandidate env d setDataReq with
  | (Err e, d) => (Failure AtSetCandidate e, d)
  | (Panic, d) => (Crash, d)
  | (Ok _, d) =>
  match applyIntent env d candidateName (sdcpb.ReqPriority req)
          setDataReq with
  | (Err e, d) => (Failure AtApplyIntent e, d)
  | (Panic, d) => (Crash, d)
  | (Ok _, d) =>
  let updatesOwner := tree.GetUpdatesForOwner root (sdcpb.Intent req) in
  let deletesOwner := tree.GetDeletesForOwner root (sdcpb.Intent req) in
  match Modify env d
          (mkOpts Store_INTENDED (sdcpb.Intent req) (sdcpb.ReqPriority req))
          deletesOwner updatesOwner with
  | (Err e, d) =>
      (Failure AtIntendedStore
         ("failed updating the intended store for " +:+ Name d +:+ ": "
            +:+ e), d)
  | (Panic, d) => (Crash, d)
  | (Ok _, d) =>
  match Modify env d (mkOpts Store_CONFIG "" 0) deletes updates with
  | (Err e, d) =>
      (Failure AtConfigStore
         ("failed updating the running config store for " +:+ Name d
            +:+ ": " +:+ e), d)
  | (Panic, d) => (Crash, d)
  | (Ok _, d) =>
  match (if sdcpb.ReqDelete req
         then deleteRawIntent env d (sdcpb.Intent req)
                (sdcpb.ReqPriority req)
         else saveRawIntent env d (sdcpb.Intent req) req) with
  | (Err e, d) => (Failure AtRawIntent e, d)
  | (Panic, d) => (Crash, d)
  | (Ok _, d) => (Success, d)
  end end end end end end end end end.

(** [Datastore.CreateCandidate] and [cacheClient.DeleteCandidate] *)
Definition CreateCandidate (env : Env) (d : Datastore)
    (ds : sdcpb.DataStore) : Res () * Datastore :=
  match CreateCandidate_fails env ds with
  | Some e => (Err e, d)
  | None =>
      (Ok (),
       withCache d
         (setCandidates (cacheClient d)
            (<[sdcpb.DSName ds := []]> (candidates (cacheClient d)))))
  end.

Definition DeleteCandidate (env : Env) (d : Datastore)
    (candidateName : string) : Res () * Datastore :=
  match DeleteCandidate_fails env candidateName with
  | Some e => (Err e, d)
  | None =>
      (Ok (),
       withCache d
         (setCandidates (cacheClient d)
            (delete candidateName (candidates (cacheClient d)))))
  end.

(** [Datastore.SetIntent], with the update path and the delete path it
    dispatches to. *)
Definition SetIntentWith
    (onUpdate onDelete :
       Datastore → sdcpb.SetIntentRequest → string → Outcome * Datastore)
    (env : Env) (d : Datastore) (req : sdcpb.SetIntentRequest)
    : Res sdcpb.SetIntentResponse * Datastore :=
  if intentMutex d
  then (Err "datastore has an ongoing SetIntentRequest", d)
  else
    let d := withMutex d true in
    let candidateName := sdcpb.Intent req +:+ "-" +:+ decimal (now env) in
    match CreateCandidate env d
            {| sdcpb.DSType := sdcpb.Type_CANDIDATE;
               sdcpb.DSName := candidateName;
               sdcpb.DSOwner := sdcpb.Intent req;
               sdcpb.DSPriority := sdcpb.ReqPriority req |} with
    | (Err e, d) => (Err e, withMutex d false)
    | (Panic, d) => (Panic, withMutex d false)
    | (Ok _, d) =>
        let '(out, d) :=
          if bool_decide (0 < length (sdcpb.ReqUpdate req))
          then onUpdate d req candidateName
          else if sdcpb.ReqDelete req
          then onDelete d req candidateName
          else (Success, d) in
        (* the deferred calls: the candidate is deleted (a failure is
           only logged), the mutex released *)
        let d := (DeleteCandidate env d candidateName).2 in
        let d := withMutex d false in
        (match out with
         | Success => Ok sdcpb.mkSetIntentResponse
         | Failure _ e => Err e
         | Crash => Panic
         end, d)
    end.

Definition SetIntent (env : Env) (d : Datastore)
    (req : sdcpb.SetIntentRequest)
    : Res sdcpb.SetIntentResponse * Datastore :=
  SetIntentWith (SetIntentUpdate env) (SetIntentDelete env) env d req.

(** [Datastore.GetIntent], of an intent name and a priority *)
Definition GetIntent (env : Env) (d : Datastore) (intent : string)
    (priority : Z) : Res sdcpb.GetIntentResponse :=
  r ← getRawIntent env d intent priority;
  Ok {| sdcpb.RspName := Name d;
        sdcpb.RspIntent :=
          {| sdcpb.IntentName := sdcpb.Intent r;
             sdcpb.IntentPriority := sdcpb.ReqPriority r;
             sdcpb.IntentUpdate := sdcpb.ReqUpdate r |} |}.

(** The character of [intentRawNameSep] *)
Definition intentRawNameSepChar : ascii := "_".

(** The body of the loop of [listRawIntent]: the intent that the name
    of a raw intent stands for. Where the path is empty the code builds
    its error from the first element of the path. *)
Definition decodeRawIntent (upd : cache.Update) : Res sdcpb.Intent_ :=
  match cache.GetPath upd with
  | [] => Panic
  | path0 :: _ =>
      let intentRawName := gostrings.TrimPrefix path0 rawIntentPrefix in
      let intentNameComp :=
        gostrings.Split intentRawName intentRawNameSepChar in
      let inc := length intentNameComp in
      if bool_decide (inc < 2)
      then Err ("malformed raw intent name: " +:+ gostrings.quoted path0)
      else
        match strconv.Atoi (default "" (last intentNameComp)) with
        | Ok pr =>
            Ok {| sdcpb.IntentName :=
                    gostrings.Join (take (inc - 1) intentNameComp)
                      intentRawNameSep;
                  sdcpb.IntentPriority := strconv.int32 pr;
                  sdcpb.IntentUpdate := [] |}
        | Err e =>
            Err ("malformed raw intent name: " +:+ gostrings.quoted path0
                   +:+ ": " +:+ e)
        | Panic => Panic
        end
  end.

(** The order of [listRawIntent]: by priority, then by name. *)
Definition intentLess (i j : sdcpb.Intent_) : bool :=
  if (sdcpb.IntentPriority i =? sdcpb.IntentPriority j)%Z
  then String.ltb (sdcpb.IntentName i) (sdcpb.IntentName j)
  else (sdcpb.IntentPriority i <? sdcpb.IntentPriority j)%Z.

(** [sort.Slice] with that order, as a sort by insertion. The intents
    sorted have no updates, so two of them that the order does not tell
    apart are the same, and every sort gives the same slice. *)
Fixpoint insertIntent (i : sdcpb.Intent_) (l : list sdcpb.Intent_)
    : list sdcpb.Intent_ :=
  match l with
  | [] => [i]
  | j :: rest =>
      if intentLess j i then j :: insertIntent i rest else i :: j :: rest
  end.

Fixpoint sortIntents (l : list sdcpb.Intent_) : list sdcpb.Intent_ :=
  match l with
  | [] => []
  | i :: rest => insertIntent i (sortIntents rest)
  end.

(** [cacheClient.Read] of the path ["*"] with keys only: every entry
    of the store, in no particular order. *)
Definition ReadAll (c : Cache) (s : Store) : list cache.Update :=
  (map_to_list (getStore c s)).*2.

(** [Datastore.listRawIntent] *)
Definition listRawIntent (d : Datastore) : Res (list sdcpb.Intent_) :=
  let upds := ReadAll (cacheClient d) Store_INTENTS in
  let numUpds := length upds in
  if bool_decide (numUpds = 0) then Ok []
  else
    intents ← mapRes decodeRawIntent upds;
    Ok (sortIntents intents).

(** [pathIsKeyAsLeaf]: the keys of a path element are looked up in
    the list that stands for the map. *)
Definition pathIsKeyAsLeaf (p : sdcpb.Path) : bool :=
  let numPElem := length (sdcpb.Elem p) in
  if bool_decide (numPElem < 2) then false
  else
    match sdcpb.Elem p !! (numPElem - 2), sdcpb.Elem p !! (numPElem - 1)
    with
    | Some pe, Some leaf =>
        bool_decide (sdcpb.PathElemName leaf ∈ (sdcpb.Key pe).*1)
    | _, _ => false
    end.

(** The path that stands for the key [k] of the element at [idx] of
    [p]: the elements up to [idx], copied, and an element named [k]. *)
Definition keyAsLeafPath (p : sdcpb.Path) (idx : nat) (k : string)
    : sdcpb.Path :=
  {| sdcpb.Elem :=
       map (λ pe, {| sdcpb.PathElemName := sdcpb.PathElemName pe;
                     sdcpb.Key := sdcpb.Key pe |})
         (take (idx + 1) (sdcpb.Elem p))
       ++ [ {| sdcpb.PathElemName := k; sdcpb.Key := [] |} ] |}.

(** The loops of [buildPathsWithKeysAsLeaves] over the keys of an
    element and over the elements of a path; [ToXPath] is
    [utils.ToXPath] without prefixes, which is not part of the sources.
    The state is the identifiers added and the paths collected. *)
Definition addKeyPaths (ToXPath : sdcpb.Path → string) (p : sdcpb.Path)
    (idx : nat) (keys : list (string * string))
    (st : list string * list sdcpb.Path)
    : list string * list sdcpb.Path :=
  fold_left
    (λ (st : list string * list sdcpb.Path) (kv : string * string),
       let pp := keyAsLeafPath p idx kv.1 in
       let uniqueID := ToXPath pp +:+ ":::" +:+ kv.2 in
       if bool_decide (uniqueID ∈ st.1) then st
       else (st.1 ++ [uniqueID], st.2 ++ [pp]))
    keys st.

Definition addElemPaths (ToXPath : sdcpb.Path → string) (p : sdcpb.Path)
    (st : list string * list sdcpb.Path)
    : list string * list sdcpb.Path :=
  fold_left
    (λ (st : list string * list sdcpb.Path) (ipe : nat * sdcpb.PathElem),
       if bool_decide (length (sdcpb.Key ipe.2) = 0) then st
       else addKeyPaths ToXPath p ipe.1 (sdcpb.Key ipe.2) st)
    (imap (λ idx pe, (idx, pe)) (sdcpb.Elem p)) st.

(** [Datastore.buildPathsWithKeysAsLeaves] *)
Definition buildPathsWithKeysAsLeaves (ToXPath : sdcpb.Path → string)
    (paths : list sdcpb.Path) : list sdcpb.Path :=
  (fold_left (λ st p, addElemPaths ToXPath p st) paths ([], [])).2.

(** [Datastore.pathsAddKeysAsLeaves] *)
Definition pathsAddKeysAsLeaves (ToXPath : sdcpb.Path → string)
    (paths : list sdcpb.Path) : list sdcpb.Path :=
  (fold_left
     (λ (st : list string * list sdcpb.Path) p,
        addElemPaths ToXPath p (st.1, st.2 ++ [p]))
     paths ([], [])).2.

End datastore.

(** ** Ranges of signed integers ([pkg/utils]) *)

Module utils.

Record SRng : Type := mkSRng { min : Z; max : Z }.

Record SRnges : Type := mkSRnges { rnges : list SRng }.

Definition NewSrnges : SRnges := {| rnges := [] |}.

(** [SRng.isInRange] *)
Definition isInRange (r : SRng) (value : Z) : bool :=
  (min r <=? value)%Z && (value <=? max r)%Z.

(** The loop of [isWithinAnyRange] over the ranges *)
Fixpoint inSomeRange (rngs : list SRng) (intValue : Z) : bool :=
  match rngs with
  | [] => false
  | rng :: rest =>
      if isInRange rng intValue then true else inSomeRange rest intValue
  end.

(** [SRnges.isWithinAnyRange] *)
Definition isWithinAnyRange (r : SRnges) (value : string)
    : Res sdcpb.TypedValue :=
  intValue ← strconv.ParseInt value;
  let tv := sdcpb.TypedValue_IntVal intValue in
  if bool_decide (length (rnges r) = 0) then Ok tv
  else if inSomeRange (rnges r) intValue then Ok tv
  else Err (gostrings.quoted value +:+ " not within ranges").

(** [SRnges.addRange] *)
Definition addRange (r : SRnges) (min max : Z) : SRnges :=
  {| rnges := rnges r ++ [ {| min := min; max := max |} ] |}.

End utils.

(** ** The NETCONF target ([ncTarget]) *)

Module target.

(** The calls to the NETCONF driver, and the reconnection started in
    the background. *)
Inductive DriverCall : Type :=
| EditConfig (target doc : string)
| Discard
| Commit
| Close
| Reconnect.

(** What the driver and the XML builders answer: external. *)
Record Driver : Type := mkDriver {
  EditConfig_fails : string → string → option string;
  Commit_fails : option string;
  DeleteDoc : list sdcpb.Path → Res string;
  AddDoc : list sdcpb.Update → Res string
}.

(** The target: whether it is connected and the calls made so far. *)
Record ncTarget : Type := mkTarget {
  connected : bool;
  calls : list DriverCall
}.

(** [t.Close(); t.connected = false; go t.reconnect()] *)
Definition lost (t : ncTarget) : ncTarget :=
  {| connected := false; calls := calls t ++ [Close; Reconnect] |}.

Definition called (t : ncTarget) (c : DriverCall) : ncTarget :=
  {| connected := connected t; calls := calls t ++ [c] |}.

(** The loop of [Set] over the two builders *)
Fixpoint editDocs (drv : Driver) (t : ncTarget) (docs : list (Res string))
    : Res () * ncTarget :=
  match docs with
  | [] => (Ok (), t)
  | doc :: rest =>
      match doc with
      | Err e => (Err e, t)
      | Panic => (Panic, t)
      | Ok xdoc =>
          if bool_decide (String.length xdoc = 0) then editDocs drv t rest
          else
            let t := called t (EditConfig "candidate" xdoc) in
            match EditConfig_fails drv "candidate" xdoc with
            | Some e =>
                if gostrings.Contains e "EOF" then (Err e, lost t)
                else (Err e, called t Discard)
            | None => editDocs drv t rest
            end
      end
  end.

(** [ncTarget.Set] *)
Definition Set_ (drv : Driver) (t : ncTarget) (req : sdcpb.SetDataRequest)
    : Res () * ncTarget :=
  if negb (connected t) then (Err "not connected", t)
  else
    match editDocs drv t
            [DeleteDoc drv (sdcpb.SDDelete req);
             AddDoc drv (sdcpb.SDUpdate req)] with
    | (Ok _, t) =>
        let t := called t Commit in
        match Commit_fails drv with
        | Some e =>
            if gostrings.Contains e "EOF" then (Err e, lost t)
            else (Err e, t)
        | None => (Ok (), t)
        end
    | (r, t) => (r, t)
    end.

End target.

(** ** Concrete inputs *)

Module examples.

Definition variant (owner : string) (pr : Z) (value : string)
    (new del upd : bool) : tree.LeafEntry :=
  {| tree.Update := cache.NewUpdate ["interface"; "eth0"; "mtu"] value pr owner 0;
     tree.IsNew := new; tree.Delete := del; tree.IsUpdated := upd |}.

(** Two variants of low priority value are marked delete, a third of
    higher priority value is live. *)
Definition twoDeleted : tree.LeafVariants :=
  [ variant "A" 5 "9000" false true false;
    variant "B" 10 "1500" false true false;
    variant "C" 20 "1400" false false false ].

(** Scenarios A and B of the specification: owner B at priority 5 over
    owner A at priority 10, and the same with B marked delete. *)
Definition scenarioA : tree.LeafVariants :=
  [ variant "A" 10 "1500" false false false;
    variant "B" 5 "9000" true false false ].

Definition scenarioB : tree.LeafVariants :=
  [ variant "A" 10 "1500" false false false;
    variant "B" 5 "9000" false true false ].

(** Only the running configuration holds the leaf. *)
Definition onlyRunning : tree.LeafVariants :=
  [ variant "running" 100 "1500" false false false ].

(** A leaf entry that only the running configuration holds. *)
Definition runningLeaf : tree.Entry :=
  {| tree.pathElemName := "mtu"; tree.childs := [];
     tree.leafVariants := onlyRunning; tree.schema := None;
     tree.choicesResolvers := [] |}.

Definition container (keys : list string) (presence : bool)
    : option sdcpb.SchemaElem :=
  Some {| sdcpb.Schema :=
            Some (sdcpb.SchemaElem_Container
                    {| sdcpb.Keys := map sdcpb.mkLeafSchema keys;
                       sdcpb.IsPresence := presence;
                       sdcpb.ChoiceInfo := [] |}) |}.

Definition field : option sdcpb.SchemaElem :=
  Some {| sdcpb.Schema := Some sdcpb.SchemaElem_Field |}.

Definition leaf (name : string) (owner : string) (pr : Z) (value : string)
    (new del upd : bool) (path : list string) : tree.Entry :=
  {| tree.pathElemName := name; tree.childs := [];
     tree.leafVariants :=
       [ {| tree.Update := cache.NewUpdate path value pr owner 0;
            tree.IsNew := new; tree.Delete := del;
            tree.IsUpdated := upd |} ];
     tree.schema := field; tree.choicesResolvers := [] |}.

Definition node (name : string) (sch : option sdcpb.SchemaElem)
    (cs : list tree.Entry) : tree.Entry :=
  {| tree.pathElemName := name;
     tree.childs := map (λ c, (tree.pathElemName c, c)) cs;
     tree.leafVariants := []; tree.schema := sch;
     tree.choicesResolvers := [] |}.

(** Scenario C of the specification: owner A had
    /interface[name=eth1]/{mtu, description} and now issues an empty
    intent, so all its leaves are marked delete. *)
Definition eth1 (del : bool) : tree.Entry :=
  node "eth1" None
    [ leaf "name" "A" 10 "eth1" false del false
        ["interface"; "eth1"; "name"];
      leaf "mtu" "A" 10 "1500" false del false
        ["interface"; "eth1"; "mtu"];
      leaf "description" "A" 10 "x" false del false
        ["interface"; "eth1"; "description"] ].

Definition interface (del : bool) : tree.Entry :=
  node "interface" (container ["name"] false) [eth1 del].

Definition scenarioC (del : bool) : tree.Entry :=
  node "" (container [] false) [interface del].

(** The same instance where the description is kept by another owner
    and the key leaf by both. *)
Definition eth1Kept : tree.Entry :=
  {| tree.pathElemName := "eth1";
     tree.childs :=
       [ ("name",
          {| tree.pathElemName := "name"; tree.childs := [];
             tree.leafVariants :=
               [ {| tree.Update :=
                      cache.NewUpdate ["interface"; "eth1"; "name"] "eth1"
                        10 "A" 0;
                    tree.IsNew := false; tree.Delete := true;
                    tree.IsUpdated := false |};
                 {| tree.Update :=
                      cache.NewUpdate ["interface"; "eth1"; "name"] "eth1"
                        20 "B" 0;
                    tree.IsNew := false; tree.Delete := false;
                    tree.IsUpdated := false |} ];
             tree.schema := field; tree.choicesResolvers := [] |});
         ("mtu",
          leaf "mtu" "A" 10 "1500" false true false
            ["interface"; "eth1"; "mtu"]);
         ("description",
          leaf "description" "B" 20 "x" false false false
            ["interface"; "eth1"; "description"]) ];
     tree.leafVariants := []; tree.schema := None;
     tree.choicesResolvers := [] |}.

Definition interfaceKept : tree.Entry :=
  node "interface" (container ["name"] false) [eth1Kept].

Definition scenarioCKept : tree.Entry :=
  node "" (container [] false) [interfaceKept].

(** An entry that holds a leaf variant and whose schema is a container
    that is not a presence container, under the root; and a fresh entry
    to hang below it. *)
Definition emptyRoot : tree.Entry := node "" (container [] false) [].

Definition leafHolder (sch : option sdcpb.SchemaElem) : tree.Entry :=
  {| tree.pathElemName := "system"; tree.childs := [];
     tree.leafVariants :=
       [ {| tree.Update := cache.NewUpdate ["system"] "x" 10 "A" 0;
            tree.IsNew := true; tree.Delete := false;
            tree.IsUpdated := false |} ];
     tree.schema := sch; tree.choicesResolvers := [] |}.

Definition hostname : tree.Entry := node "hostname" field [].

(** A schema service for the interface list, and a cache that has
    nothing to load. *)
Definition interfaceSchemas : tree.TreeContext :=
  {| tree.GetSchema :=
       λ path,
         match path with
         | [] => Ok (container [] false)
         | [_] => Ok (container ["name"] false)
         | [_; _; _] => Ok field
         | _ => Ok None
         end;
     tree.ReadRunning := λ _, Ok None |}.

Definition mtu1500 : cache.Update :=
  cache.NewUpdate ["interface"; "eth0"; "mtu"] "1500" 10 "A" 0.

(** The same update read at another time. *)
Definition mtu1500Later : cache.Update :=
  cache.NewUpdate ["interface"; "eth0"; "mtu"] "1500" 10 "A" 77.

Definition mtuInserted : tree.Entry :=
  node "" (container [] false)
    [ node "interface" (container ["name"] false)
        [ node "eth0" None
            [ leaf "mtu" "A" 10 "1500" true false false
                ["interface"; "eth0"; "mtu"] ] ] ].

(** *** A datastore and its collaborators *)

(** A codec for typed values: a tag and the content. *)
Definition marshalValue (v : sdcpb.TypedValue) : Res string :=
  match v with
  | sdcpb.TypedValue_BytesVal b => Ok (String "b"%char b)
  | sdcpb.TypedValue_StringVal s => Ok (String "s"%char s)
  | sdcpb.TypedValue_IntVal z => Ok (String "i"%char (datastore.decimal z))
  | sdcpb.TypedValue_BoolVal b => Ok (if b then "t" else "f")
  end.

Definition unmarshalValue (b : string) : Res sdcpb.TypedValue :=
  match b with
  | String "b"%char r => Ok (sdcpb.TypedValue_BytesVal r)
  | String "s"%char r => Ok (sdcpb.TypedValue_StringVal r)
  | "" => Ok (sdcpb.TypedValue_StringVal "")
  | "t" => Ok (sdcpb.TypedValue_BoolVal true)
  | "f" => Ok (sdcpb.TypedValue_BoolVal false)
  | _ => Err "cannot parse invalid wire-format data"
  end.

(** owner A sets /interface[name=eth0]/mtu to "1500" at priority 10 *)
Definition setMtu : sdcpb.SetIntentRequest :=
  {| sdcpb.ReqName := "dev1"; sdcpb.Intent := "A";
     sdcpb.ReqPriority := 10;
     sdcpb.ReqUpdate :=
       [ {| sdcpb.UpdatePath :=
              {| sdcpb.Elem :=
                   [ {| sdcpb.PathElemName := "interface";
                        sdcpb.Key := [("name", "eth0")] |};
                     {| sdcpb.PathElemName := "mtu"; sdcpb.Key := [] |} ] |};
            sdcpb.Value := sdcpb.TypedValue_StringVal "1500" |} ];
     sdcpb.ReqDelete := false |}.

(** the key of the list instance as a leaf, as the expansion of the
    updates adds it *)
Definition nameLeaf : sdcpb.Update :=
  {| sdcpb.UpdatePath :=
       {| sdcpb.Elem :=
            [ {| sdcpb.PathElemName := "interface";
                 sdcpb.Key := [("name", "eth0")] |};
              {| sdcpb.PathElemName := "name"; sdcpb.Key := [] |} ] |};
     sdcpb.Value := sdcpb.TypedValue_StringVal "eth0" |}.

(** a request with nothing to update and nothing to delete *)
Definition nothingToDo : sdcpb.SetIntentRequest :=
  {| sdcpb.ReqName := "dev1"; sdcpb.Intent := "A";
     sdcpb.ReqPriority := 10; sdcpb.ReqUpdate := [];
     sdcpb.ReqDelete := false |}.

(** The collaborators: the codec of requests only knows [setMtu]; the
    southbound target and the validation answer as given. *)
Definition env (sbiFails : option string) (validation : list string)
    : datastore.Env :=
  {| datastore.now := 1700000000;
     datastore.proto_Marshal := λ _, Ok "blob";
     datastore.proto_Unmarshal := λ _, Ok setMtu;
     datastore.proto_MarshalValue := marshalValue;
     datastore.proto_UnmarshalValue := unmarshalValue;
     datastore.Modify_fails := λ _ _ _, None;
     datastore.GetKeys_fails := λ _, None;
     datastore.CreateCandidate_fails := λ _, None;
     datastore.DeleteCandidate_fails := λ _, None;
     datastore.setCandidate_fails := λ _ _, None;
     datastore.sbi_Set_fails := λ _, sbiFails;
     datastore.validateMustStatement := λ _ _ _, None;
     datastore.validateLeafRef := λ _ _ _, None;
     datastore.expandUpdates := λ upds, Ok (nameLeaf :: upds);
     datastore.CompletePath :=
       λ p, Ok (flat_map
                  (λ pe, sdcpb.PathElemName pe :: (sdcpb.Key pe).*2)
                  (sdcpb.Elem p));
     datastore.validateUpdate := λ _, None;
     datastore.toPath :=
       λ l, Ok {| sdcpb.Elem := map (λ n, sdcpb.mkPathElem n []) l |};
     datastore.NewTreeContext := λ _ _, interfaceSchemas;
     datastore.LoadIntendedStoreOwnerData := λ _ root _ _, root;
     datastore.FinishInsertionPhase := λ _ _ root, root;
     datastore.Validate := λ _ _ _, validation;
     datastore.SetIntentDelete := λ d _ _, (datastore.Success, d) |}.

Definition dev1 : datastore.Datastore :=
  {| datastore.Name := "dev1";
     datastore.cacheClient :=
       {| datastore.config := ∅; datastore.intended := ∅;
          datastore.intents := ∅; datastore.candidates := ∅ |};
     datastore.sbi := [];
     datastore.intentMutex := false |}.

(** The same collaborators, but for a cache that refuses to write to
    the store [s]. *)
Definition envStoreFails (s : datastore.Store) : datastore.Env :=
  {| datastore.now := 1700000000;
     datastore.proto_Marshal := λ _, Ok "blob";
     datastore.proto_Unmarshal := λ _, Ok setMtu;
     datastore.proto_MarshalValue := marshalValue;
     datastore.proto_UnmarshalValue := unmarshalValue;
     datastore.Modify_fails :=
       λ opts _ _,
         match datastore.OptStore opts, s with
         | datastore.Store_CONFIG, datastore.Store_CONFIG
         | datastore.Store_INTENDED, datastore.Store_INTENDED
         | datastore.Store_INTENTS, datastore.Store_INTENTS =>
             Some "cache unavailable"
         | _, _ => None
         end;
     datastore.GetKeys_fails := λ _, None;
     datastore.CreateCandidate_fails := λ _, None;
     datastore.DeleteCandidate_fails := λ _, None;
     datastore.setCandidate_fails := λ _ _, None;
     datastore.sbi_Set_fails := λ _, None;
     datastore.validateMustStatement := λ _ _ _, None;
     datastore.validateLeafRef := λ _ _ _, None;
     datastore.expandUpdates := λ upds, Ok (nameLeaf :: upds);
     datastore.CompletePath :=
       λ p, Ok (flat_map
                  (λ pe, sdcpb.PathElemName pe :: (sdcpb.Key pe).*2)
                  (sdcpb.Elem p));
     datastore.validateUpdate := λ _, None;
     datastore.toPath :=
       λ l, Ok {| sdcpb.Elem := map (λ n, sdcpb.mkPathElem n []) l |};
     datastore.NewTreeContext := λ _ _, interfaceSchemas;
     datastore.LoadIntendedStoreOwnerData := λ _ root _ _, root;
     datastore.FinishInsertionPhase := λ _ _ root, root;
     datastore.Validate := λ _ _ _, [];
     datastore.SetIntentDelete := λ d _ _, (datastore.Success, d) |}.

(** owner A withdraws the intent of priority 10 while sending the
    update once more *)
Definition dropMtu : sdcpb.SetIntentRequest :=
  {| sdcpb.ReqName := "dev1"; sdcpb.Intent := "A";
     sdcpb.ReqPriority := 10;
     sdcpb.ReqUpdate := sdcpb.ReqUpdate setMtu;
     sdcpb.ReqDelete := true |}.

(** what is applied when the key leaf alone is set *)
Definition setName : sdcpb.SetDataRequest :=
  {| sdcpb.SDName := "dev1"; sdcpb.SDDatastore := None;
     sdcpb.SDUpdate := [nameLeaf]; sdcpb.SDReplace := [];
     sdcpb.SDDelete := [] |}.

(** the datastore once the intended store holds the update of owner A *)
Definition dev1Intended : datastore.Datastore :=
  {| datastore.Name := "dev1";
     datastore.cacheClient :=
       {| datastore.config := ∅;
          datastore.intended :=
            {[ ("A", ["interface"; "eth0"; "mtu"]) := mtu1500 ]};
          datastore.intents := ∅; datastore.candidates := ∅ |};
     datastore.sbi := [];
     datastore.intentMutex := false |}.

(** *** A NETCONF target *)

(** A driver that accepts every edit and the commit; the builders give
    no document for no delete, and one document for the updates. *)
Definition driver : target.Driver :=
  {| target.EditConfig_fails := λ _ _, None;
     target.Commit_fails := None;
     target.DeleteDoc :=
       λ paths, Ok (match paths with [] => "" | _ => "<delete/>" end);
     target.AddDoc :=
       λ upds, Ok (match upds with [] => "" | _ => "<edit/>" end) |}.

Definition connectedTarget : target.ncTarget :=
  {| target.connected := true; target.calls := [] |}.

Definition lostTarget : target.ncTarget :=
  {| target.connected := false;
     target.calls := [target.Close; target.Reconnect] |}.

End examples.

(** * Properties *)

(** ** Leaf variants: the scan and the two lowest priorities *)

(** Case analysis on the priority comparisons of a goal. *)
Ltac prio_cases :=
  repeat (simpl in *;
          match goal with
          | |- context [(?a <? ?b)%Z] =>
              destruct (Z.ltb_spec a b)
          | H : context [(?a <? ?b)%Z] |- _ =>
              destruct (Z.ltb_spec a b)
          end);
  simpl in *; try done; try lia.

Section LeafVariantsFacts.
Import tree.

Lemma lowest_snoc (lv : LeafVariants) (e : LeafEntry) :
  lowest (lv ++ [e]) =
  match lowest lv with
  | None => Some e
  | Some h => if (Priority e <? Priority h)%Z then Some e else Some h
  end.
Proof.
  induction lv as [|x lv IH]; simpl; [done|].
  rewrite IH. destruct (lowest lv) as [h|]; prio_cases.
Qed.

Lemma extractLowest_nil (lv : LeafVariants) :
  extractLowest lv = None → lv = [].
Proof.
  destruct lv as [|x lv]; [done|]. simpl.
  destruct (extractLowest lv) as [[??]|]; prio_cases.
Qed.

Lemma extractLowest_snoc (lv : LeafVariants) (e : LeafEntry) :
  extractLowest (lv ++ [e]) =
  match extractLowest lv with
  | None => Some (e, [])
  | Some (h, others) =>
      if (Priority e <? Priority h)%Z then Some (e, lv)
      else Some (h, others ++ [e])
  end.
Proof.
  induction lv as [|x lv IH]; simpl; [done|].
  rewrite IH. destruct (extractLowest lv) as [[h others]|] eqn:E.
  - prio_cases.
  - apply extractLowest_nil in E as ->. prio_cases.
Qed.

Lemma extractLowest_lowest (lv : LeafVariants) :
  lowest lv = fst <$> extractLowest lv.
Proof.
  induction lv as [|x lv IH]; simpl; [done|].
  rewrite IH. destruct (extractLowest lv) as [[h others]|]; prio_cases.
Qed.

Lemma scan_lowest_second (lv : LeafVariants) :
  scan lv = (lowest lv, second lv).
Proof.
  unfold scan, second.
  induction lv as [|e lv IH] using rev_ind; [done|].
  rewrite fold_left_app, IH. simpl.
  rewrite lowest_snoc, extractLowest_snoc, (extractLowest_lowest lv).
  destruct (extractLowest lv) as [[h others]|] eqn:E; simpl.
  - destruct (Z.ltb_spec (Priority e) (Priority h)).
    + by rewrite (extractLowest_lowest lv), E.
    + rewrite lowest_snoc. destruct (lowest others); prio_cases.
  - done.
Qed.

End LeafVariantsFacts.

Section PrecedenceFacts.
Import tree.

Lemma lowest_elem_of (lv : LeafVariants) (h : LeafEntry) :
  lowest lv = Some h → h ∈ lv.
Proof.
  revert h. induction lv as [|x lv IH]; intros h; simpl; [done|].
  destruct (lowest lv) as [m|].
  - destruct (Priority m <? Priority x)%Z; intros [= <-].
    + right. by apply IH.
    + left.
  - intros [= <-]. left.
Qed.

Lemma lowest_le (lv : LeafVariants) (h x : LeafEntry) :
  lowest lv = Some h → x ∈ lv → (Priority h ≤ Priority x)%Z.
Proof.
  revert h. induction lv as [|y lv IH]; intros h; simpl; [by inversion 2|].
  intros Hlow Hx.
  destruct (lowest lv) as [m|] eqn:E.
  - pose proof (IH m eq_refl) as IHm.
    apply elem_of_cons in Hx as [->|Hx];
      [|specialize (IHm Hx)]; prio_cases; simplify_eq; lia.
  - destruct lv as [|z lv]; [|simpl in E; destruct (lowest lv); prio_cases].
    apply elem_of_cons in Hx as [->|Hx]; [|by inversion Hx].
    simplify_eq. lia.
Qed.

Lemma lowest_None (lv : LeafVariants) : lowest lv = None → lv = [].
Proof.
  destruct lv as [|x lv]; [done|]. simpl. destruct (lowest lv); prio_cases.
Qed.

(** The lowest variant stays the lowest of any selection it is in. *)
Lemma lowest_filter (P : LeafEntry → Prop) `{!∀ e, Decision (P e)}
    (lv : LeafVariants) (h : LeafEntry) :
  lowest lv = Some h → P h → lowest (filter P lv) = Some h.
Proof.
  revert h. induction lv as [|x lv IH]; intros h; [done|].
  cbn [lowest]. intros Hlow HP. rewrite filter_cons.
  destruct (lowest lv) as [m|] eqn:E.
  - destruct (Z.ltb_spec (Priority m) (Priority x)); simplify_eq.
    + specialize (IH h eq_refl HP).
      destruct (decide (P x)); [|done]. simpl. rewrite IH. prio_cases.
    + rewrite decide_True by done. simpl.
      destruct (lowest (filter P lv)) as [m'|] eqn:E'; [|done].
      apply lowest_elem_of in E'.
      apply list_elem_of_filter in E' as [_ E'].
      pose proof (lowest_le _ _ _ E E'). prio_cases.
  - apply lowest_None in E as ->. simplify_eq.
    rewrite decide_True by done. done.
Qed.

(** [extractLowest] takes out the first variant of minimal priority
    value: the variants before it have a greater one, those after it
    none smaller. *)
Lemma extractLowest_split (lv others : LeafVariants) (h : LeafEntry) :
  extractLowest lv = Some (h, others) →
  ∃ l1 l2, lv = l1 ++ h :: l2 ∧ others = l1 ++ l2
    ∧ (∀ x, x ∈ l1 → (Priority h < Priority x)%Z)
    ∧ (∀ x, x ∈ l2 → (Priority h ≤ Priority x)%Z).
Proof.
  revert h others. induction lv as [|x lv IH]; intros h others; simpl; [done|].
  destruct (extractLowest lv) as [[m rest]|] eqn:E.
  - destruct (Z.ltb_spec (Priority m) (Priority x)); intros [= <- <-].
    + destruct (IH _ _ eq_refl) as (l1 & l2 & -> & -> & Hlt & Hle).
      exists (x :: l1), l2. split; [done|]. split; [done|].
      split; [|done]. intros y [->|Hy]%elem_of_cons; [done|by apply Hlt].
    + exists [], lv. split; [done|]. split; [done|].
      split; [by inversion 1|]. intros y Hy.
      assert (lowest lv = Some m) as Hm
        by (by rewrite extractLowest_lowest, E).
      pose proof (lowest_le _ _ _ Hm Hy). lia.
  - intros [= <- <-]. apply extractLowest_nil in E as ->.
    exists [], []. split; [done|]. split; [done|].
    split; by inversion 1.
Qed.

Lemma lowest_first_minimum (lv : LeafVariants) (h : LeafEntry) :
  lowest lv = Some h →
  ∃ l1 l2, lv = l1 ++ h :: l2
    ∧ (∀ x, x ∈ l1 → (Priority h < Priority x)%Z)
    ∧ (∀ x, x ∈ l2 → (Priority h ≤ Priority x)%Z).
Proof.
  rewrite extractLowest_lowest.
  destruct (extractLowest lv) as [[m others]|] eqn:E; [|done].
  intros [= ->].
  destruct (extractLowest_split _ _ _ E) as (l1 & l2 & ? & _ & ? & ?).
  by exists l1, l2.
Qed.

Lemma filter_none_length {A} (P : A → Prop) `{!∀ a, Decision (P a)}
    (l : list A) :
  length (filter P l) = 0 → filter (λ a, ¬ P a) l = l.
Proof.
  induction l as [|a l IH]; [done|].
  rewrite !filter_cons. destruct (decide (P a)); simpl; [done|].
  intros Hl. rewrite decide_True by done. by rewrite IH.
Qed.

Lemma live_not_deleted (lv : LeafVariants) :
  live lv = filter (λ e, ¬ (Delete e = true)) lv.
Proof.
  unfold live. induction lv as [|x lv IH]; [done|].
  rewrite !filter_cons, IH. destruct (Delete x); simpl; done.
Qed.

(** With a single variant marked delete, and that one the lowest, the
    live variants are the others. *)
Lemma live_others (lv others : LeafVariants) (h : LeafEntry) :
  extractLowest lv = Some (h, others) →
  Delete h = true →
  live lv = live others.
Proof.
  intros (l1 & l2 & -> & -> & _)%extractLowest_split Hdel.
  unfold live. rewrite !filter_app, filter_cons.
  by rewrite decide_False by (by rewrite Hdel).
Qed.

(** The two lowest variants are not both marked delete where at most
    one variant is. *)
Lemma one_deleted_not_both (lv others : LeafVariants) (h s : LeafEntry) :
  extractLowest lv = Some (h, others) →
  lowest others = Some s →
  Delete h = true → Delete s = true →
  2 ≤ length (deleted lv).
Proof.
  intros (l1 & l2 & -> & -> & _)%extractLowest_split Hs Hh Hds.
  apply lowest_elem_of in Hs.
  unfold deleted. rewrite filter_app, filter_cons, decide_True by done.
  rewrite length_app. simpl.
  apply elem_of_app in Hs as [Hs|Hs].
  - assert (s ∈ filter (λ e, Delete e = true) l1) as Hin
      by (by apply list_elem_of_filter).
    destruct (filter _ l1); [by inversion Hin|]. simpl. lia.
  - assert (s ∈ filter (λ e, Delete e = true) l2) as Hin
      by (by apply list_elem_of_filter).
    destruct (filter _ l2); [by inversion Hin|]. simpl. lia.
Qed.

Lemma GetHighestPrecedence_unfold (lv : LeafVariants) (top : LeafEntry)
    (onlyIfPrioChanged : bool) :
  shouldDelete lv = false →
  lowest lv = Some top →
  GetHighestPrecedence lv onlyIfPrioChanged =
  if negb onlyIfPrioChanged
  then (if negb (Delete top) then Some top else second lv)
  else if negb (Delete top)
  then (if IsNew top || IsUpdated top then Some top else None)
  else match second lv with
       | Some s => if negb (Delete s) then Some s else None
       | None => None
       end.
Proof.
  intros Hsd Hlow. unfold GetHighestPrecedence.
  destruct lv as [|x lv]; [done|].
  rewrite bool_decide_false by done.
  rewrite Hsd, scan_lowest_second, Hlow. done.
Qed.

End PrecedenceFacts.

(** C1, as amended. When [shouldDelete] holds there is no result.
    Otherwise, with onlyChanged=false and a variant set that is not
    empty, the result is the variant of lowest priority value among the
    variants not marked delete (the earliest of equals), provided the
    two variants of lowest priority value are not both marked delete;
    this is so whenever at most one variant is marked delete. *)
Theorem GetHighestPrecedence_all_variants (lv : tree.LeafVariants) :
  (tree.shouldDelete lv = true →
   tree.GetHighestPrecedence lv false = None) ∧
  (lv ≠ [] → tree.shouldDelete lv = false →
   ¬ (∃ top s, tree.lowest lv = Some top ∧ tree.second lv = Some s
               ∧ tree.Delete top = true ∧ tree.Delete s = true) →
   tree.GetHighestPrecedence lv false = tree.lowest (tree.live lv)) ∧
  (lv ≠ [] → tree.shouldDelete lv = false →
   length (tree.deleted lv) ≤ 1 →
   tree.GetHighestPrecedence lv false = tree.lowest (tree.live lv)).
Proof.
  assert (Hgen : lv ≠ [] → tree.shouldDelete lv = false →
    ¬ (∃ top s, tree.lowest lv = Some top ∧ tree.second lv = Some s
                ∧ tree.Delete top = true ∧ tree.Delete s = true) →
    tree.GetHighestPrecedence lv false = tree.lowest (tree.live lv)).
  { intros Hne Hsd Hnot.
    destruct (tree.lowest lv) as [top|] eqn:Hlow;
      [|by apply lowest_None in Hlow].
    rewrite (GetHighestPrecedence_unfold lv top false Hsd Hlow). simpl.
    destruct (tree.Delete top) eqn:Hdel; simpl.
    - unfold tree.second in *. rewrite extractLowest_lowest in Hlow.
      destruct (tree.extractLowest lv) as [[h others]|] eqn:E; [|done].
      simpl in Hlow. simplify_eq.
      rewrite (live_others lv others top E Hdel).
      destruct (tree.lowest others) as [s|] eqn:Hs.
      + destruct (tree.Delete s) eqn:Hds.
        * destruct Hnot. by exists top, s.
        * symmetry.
          by apply (lowest_filter (λ e, tree.Delete e = false)).
      + by apply lowest_None in Hs as ->.
    - symmetry. by apply (lowest_filter (λ e, tree.Delete e = false)). }
  split; [|split].
  - intros Hsd. unfold tree.GetHighestPrecedence. rewrite Hsd.
    by destruct (bool_decide _).
  - exact Hgen.
  - intros Hne Hsd Hone. apply Hgen; [done..|].
    intros (top & s & Hlow & Hsec & Hdt & Hds).
    unfold tree.second in Hsec.
    destruct (tree.extractLowest lv) as [[h others]|] eqn:E; [|done].
    rewrite extractLowest_lowest, E in Hlow. simpl in Hlow. simplify_eq.
    pose proof (one_deleted_not_both lv others top s E Hsec Hdt Hds). lia.
Qed.

Lemma GetHighestPrecedence_all_variants_witness :
  tree.GetHighestPrecedence examples.scenarioB false
  = tree.lowest (tree.live examples.scenarioB)
  ∧ tree.GetHighestPrecedence examples.scenarioB false
    = Some (examples.variant "A" 10 "1500" false false false).
Proof.
  split.
  - apply (proj2 (proj2
             (GetHighestPrecedence_all_variants examples.scenarioB))).
    + discriminate.
    + reflexivity.
    + vm_compute. lia.
  - reflexivity.
Defined.

(** Among variants of equal priority value the earlier one wins. *)
Example GetHighestPrecedence_tie :
  tree.GetHighestPrecedence
    [ examples.variant "A" 10 "1500" false false false;
      examples.variant "B" 10 "9000" false false false ] false
  = Some (examples.variant "A" 10 "1500" false false false).
Proof. reflexivity. Qed.

(** C1 as stated fails where two variants of lower priority value are
    both marked delete: the result is the second of them, not the live
    variant. *)
Lemma GetHighestPrecedence_two_deleted :
  examples.twoDeleted ≠ []
  ∧ tree.shouldDelete examples.twoDeleted = false
  ∧ tree.GetHighestPrecedence examples.twoDeleted false
    = Some (examples.variant "B" 10 "1500" false true false)
  ∧ tree.lowest (tree.live examples.twoDeleted)
    = Some (examples.variant "C" 20 "1400" false false false)
  ∧ tree.GetHighestPrecedence examples.twoDeleted false
    ≠ tree.lowest (tree.live examples.twoDeleted).
Proof.
  split; [discriminate|]. split; [reflexivity|].
  split; [reflexivity|]. split; [reflexivity|].
  vm_compute. discriminate.
Qed.

(** C2. With a non-empty variant set and [shouldDelete] false,
    onlyChanged=true gives the top variant iff it is not marked delete
    and is new or updated; the second variant if the top one is marked
    delete and the second exists and is not; and nothing otherwise. *)
Theorem GetHighestPrecedence_only_changed
    (lv : tree.LeafVariants) (top : tree.LeafEntry) :
  lv ≠ [] →
  tree.shouldDelete lv = false →
  tree.lowest lv = Some top →
  (tree.GetHighestPrecedence lv true = Some top ↔
   tree.Delete top = false
   ∧ (tree.IsNew top = true ∨ tree.IsUpdated top = true))
  ∧ (∀ s, tree.Delete top = true → tree.second lv = Some s →
          tree.Delete s = false →
          tree.GetHighestPrecedence lv true = Some s)
  ∧ (¬ (tree.Delete top = false
        ∧ (tree.IsNew top = true ∨ tree.IsUpdated top = true)) →
     ¬ (∃ s, tree.Delete top = true ∧ tree.second lv = Some s
             ∧ tree.Delete s = false) →
     tree.GetHighestPrecedence lv true = None).
Proof.
  intros Hne Hsd Hlow.
  rewrite (GetHighestPrecedence_unfold lv top true Hsd Hlow). simpl.
  split; [|split].
  - destruct (tree.Delete top) eqn:Hdel; simpl.
    + split; [|by intros [? _]].
      destruct (tree.second lv) as [s|]; [|done].
      destruct (tree.Delete s) eqn:Hs; simpl; [done|].
      intros [= ->]. congruence.
    + destruct (tree.IsNew top), (tree.IsUpdated top); simpl;
        intuition congruence.
  - intros s Hdel Hsec Hs. by rewrite Hdel, Hsec, Hs.
  - intros Hnot Hnos.
    destruct (tree.Delete top) eqn:Hdel; simpl.
    + destruct (tree.second lv) as [s|]; [|done].
      destruct (tree.Delete s) eqn:Hs; simpl; [done|].
      exfalso. apply Hnos. by exists s.
    + destruct (tree.IsNew top), (tree.IsUpdated top); simpl;
        try done; exfalso; apply Hnot; auto.
Qed.

Lemma GetHighestPrecedence_only_changed_witness :
  tree.GetHighestPrecedence examples.scenarioB true
  = Some (examples.variant "A" 10 "1500" false false false).
Proof.
  apply (proj1 (proj2
           (GetHighestPrecedence_only_changed examples.scenarioB
              (examples.variant "B" 5 "9000" false true false)
              ltac:(discriminate) eq_refl eq_refl)));
    reflexivity.
Defined.

(** ** Entries: [ShouldDelete] and [GetDeletes] *)

Section EntryFacts.
Import tree.

Lemma ShouldDelete_unfold (s : Entry) :
  ShouldDelete s =
  if bool_decide (0 < length (leafVariants s))
  then shouldDelete (leafVariants s)
  else forallb (λ kc : string * Entry, ShouldDelete kc.2) (childs s).
Proof.
  destruct s as [name cs lv sch rs]. simpl.
  destruct (bool_decide _); [done|].
  induction cs as [|[k c] cs IH]; simpl; [done|].
  rewrite IH. by destruct (ShouldDelete c).
Qed.

Lemma shouldDelete_spec (lv : LeafVariants) :
  shouldDelete lv = true ↔
  lv ≠ []
  ∧ ¬ (∃ v, lv = [v] ∧ Owner v = RunningIntentName)
  ∧ ∀ v, v ∈ lv → Owner v ≠ RunningIntentName → Delete v = true.
Proof.
  assert (Hall : forallb (λ l, Delete l || isRunning l) lv = true ↔
                 ∀ v, v ∈ lv → Owner v ≠ RunningIntentName → Delete v = true).
  { rewrite forallb_forall. unfold isRunning.
    split; intros H v Hv.
    - apply list_elem_of_In, H in Hv. intros Hne.
      rewrite bool_decide_false in Hv by done.
      by rewrite orb_false_r in Hv.
    - apply list_elem_of_In in Hv. specialize (H v Hv).
      destruct (decide (Owner v = RunningIntentName)) as [Heq|Hne].
      + rewrite (bool_decide_true _ Heq). apply orb_true_r.
      + by rewrite (H Hne). }
  destruct lv as [|l0 rest].
  { simpl. split; [done|]. by intros [? _]. }
  unfold shouldDelete.
  set (all := forallb _ _) in *. clearbody all.
  unfold isRunning.
  destruct (decide (Owner l0 = RunningIntentName)) as [Hrun|Hrun].
  - rewrite (bool_decide_true _ Hrun). simpl.
    destruct rest as [|l1 rest].
    + rewrite bool_decide_true by done.
      split; [done|]. intros (_ & Hno & _). destruct Hno. by exists l0.
    + rewrite bool_decide_false by (simpl; lia).
      rewrite Hall. split.
      * intros H. split; [done|]. split; [|done]. by intros (v & [=] & _).
      * by intros (_ & _ & H).
  - rewrite (bool_decide_false _ Hrun). simpl.
    rewrite Hall. split.
    + intros H. split; [done|]. split; [|done].
      intros (v & [= <- _] & Hv). done.
    + by intros (_ & _ & H).
Qed.

Lemma GetDeletes_recurse (s : Entry) (anc : list Entry)
    (cs : list (string * Entry)) (deletes : list (list string)) :
  (fix recurse (cs : list (string * Entry)) (deletes : list (list string))
     : Res (list (list string)) :=
     match cs with
     | [] => Ok deletes
     | (_, c) :: rest =>
         match GetDeletes c (s :: anc) deletes with
         | Ok deletes => recurse rest deletes
         | Err e => Err e
         | Panic => Panic
         end
     end) cs deletes
  = GetDeletesChilds cs (s :: anc) deletes.
Proof.
  revert deletes. induction cs as [|[k c] cs IH]; intros deletes; [done|].
  cbn [GetDeletesChilds]. unfold mbind, Res_bind.
  destruct (GetDeletes c (s :: anc) deletes); [apply IH|done..].
Qed.

(** The key attributes whose child is there and is not to be deleted
    keep [doDelete] from holding. *)
Lemma doDelete_spec (s : Entry) (keys : list string) (b : bool) :
  fold_left
    (λ (doDelete : bool) (n : string),
       match getChild (childs s) n with
       | Some c => if negb (ShouldDelete c) then false else doDelete
       | None => doDelete
       end) keys b = true
  ↔ b = true
    ∧ ∀ n c, n ∈ keys → getChild (childs s) n = Some c →
             ShouldDelete c = true.
Proof.
  revert b. induction keys as [|n keys IH]; intros b; simpl.
  { split; [intros ->; split; [done|]; by inversion 1|by intros [-> _]]. }
  rewrite IH. split.
  - intros [Hb Hall]. destruct (getChild (childs s) n) as [c|] eqn:E.
    + destruct (ShouldDelete c) eqn:Hc; simpl in Hb; [|done].
      split; [done|]. intros n' c' [->|Hin]%elem_of_cons Hget;
        [congruence|by eapply Hall].
    + split; [done|]. intros n' c' [->|Hin]%elem_of_cons Hget;
        [congruence|by eapply Hall].
  - intros [-> Hall]. split.
    + destruct (getChild (childs s) n) as [c|] eqn:E; [|done].
      by rewrite (Hall n c (list_elem_of_here _ _) E).
    + intros n' c' Hin. apply Hall. by right.
Qed.

End EntryFacts.

(** C5, as amended. An entry is to be deleted iff either it has leaf
    variants, they are not just the single variant of the running
    configuration, and every variant whose owner is not "running" is
    marked delete; or it has no leaf variants and every child is to be
    deleted. *)
Theorem ShouldDelete_iff (n : tree.Entry) :
  tree.ShouldDelete n = true ↔
  (tree.leafVariants n ≠ []
   ∧ ¬ (∃ v, tree.leafVariants n = [v]
             ∧ tree.Owner v = tree.RunningIntentName)
   ∧ ∀ v, v ∈ tree.leafVariants n →
          tree.Owner v ≠ tree.RunningIntentName → tree.Delete v = true)
  ∨ (tree.leafVariants n = []
     ∧ ∀ k c, (k, c) ∈ tree.childs n → tree.ShouldDelete c = true).
Proof.
  rewrite ShouldDelete_unfold.
  destruct (tree.leafVariants n) as [|l0 rest] eqn:Hlv.
  - rewrite bool_decide_false by (simpl; lia).
    rewrite forallb_forall. split.
    + intros H. right. split; [done|]. intros k c Hin.
      by apply list_elem_of_In, H in Hin.
    + intros [[? _]|[_ H]]; [done|]. intros [k c] Hin.
      apply list_elem_of_In in Hin. by apply (H k c).
  - rewrite bool_decide_true by (simpl; lia).
    rewrite shouldDelete_spec. split; [by left|].
    intros [H|[? _]]; done.
Qed.

(** C5 as stated fails on a leaf that only the running configuration
    holds: every variant whose owner is not "running" is marked delete,
    as there is none, and the entry is not to be deleted. *)
Lemma ShouldDelete_only_running :
  tree.ShouldDelete examples.runningLeaf = false
  ∧ tree.leafVariants examples.runningLeaf ≠ []
  ∧ (∀ v, v ∈ tree.leafVariants examples.runningLeaf →
          tree.Owner v ≠ tree.RunningIntentName → tree.Delete v = true)
  ∧ ¬ (tree.ShouldDelete examples.runningLeaf = true ↔
       (tree.leafVariants examples.runningLeaf ≠ []
        ∧ ∀ v, v ∈ tree.leafVariants examples.runningLeaf →
               tree.Owner v ≠ tree.RunningIntentName →
               tree.Delete v = true)
       ∨ (tree.leafVariants examples.runningLeaf = []
          ∧ ∀ k c, (k, c) ∈ tree.childs examples.runningLeaf →
                   tree.ShouldDelete c = true)).
Proof.
  assert (Hall : ∀ v, v ∈ tree.leafVariants examples.runningLeaf →
            tree.Owner v ≠ tree.RunningIntentName → tree.Delete v = true).
  { intros v Hv Hne. simpl in Hv. apply list_elem_of_singleton in Hv.
    subst v. by destruct Hne. }
  split; [reflexivity|]. split; [discriminate|]. split; [exact Hall|].
  intros [_ H].
  assert (tree.ShouldDelete examples.runningLeaf = true) as Hsd
    by (apply H; left; split; [discriminate|exact Hall]).
  vm_compute in Hsd. discriminate.
Qed.

(** C4. At an entry without schema whose nearest ancestor schema is a
    container with as many keys as the entry lies below it: if every
    key attribute child that is there is to be deleted, [GetDeletes]
    adds the path of the entry, once, and nothing else; if one of them
    is not, it adds what the children add, in turn, and no delete of
    its own. *)
Theorem GetDeletes_key_level (s : tree.Entry) (anc : list tree.Entry)
    (deletes : list (list string)) (sch : sdcpb.SchemaElem) (level : nat)
    (contschema : sdcpb.ContainerSchema) :
  tree.schema s = None →
  tree.GetAncestorSchema anc = Ok (sch, level) →
  sdcpb.GetContainer (Some sch) = Some contschema →
  level = length (sdcpb.Keys contschema) →
  ((∀ n c, n ∈ map sdcpb.Name (sdcpb.Keys contschema) →
           tree.getChild (tree.childs s) n = Some c →
           tree.ShouldDelete c = true) →
   tree.GetDeletes s anc deletes = Ok (deletes ++ [tree.Path anc s]))
  ∧ ((∃ n c, n ∈ map sdcpb.Name (sdcpb.Keys contschema)
             ∧ tree.getChild (tree.childs s) n = Some c
             ∧ tree.ShouldDelete c = false) →
     tree.GetDeletes s anc deletes
     = tree.GetDeletesChilds (tree.childs s) (s :: anc) deletes).
Proof.
  intros Hsch Hanc Hcont Hlevel.
  assert (Hunfold :
    tree.GetDeletes s anc deletes =
    let deletes' :=
      tree.IsDeleteKeyAttributesInLevelDown s anc
        (map sdcpb.Name (sdcpb.Keys contschema)) deletes in
    if bool_decide (length deletes' = length deletes)
    then tree.GetDeletesChilds (tree.childs s) (s :: anc) deletes'
    else Ok deletes').
  { destruct s as [name cs lv sch' rs]. simpl in Hsch. subst sch'.
    cbn [tree.GetDeletes tree.schema]. rewrite Hanc, Hcont.
    rewrite (bool_decide_true _ Hlevel). cbn zeta.
    destruct (bool_decide _); [|done].
    apply GetDeletes_recurse. }
  rewrite Hunfold. unfold tree.IsDeleteKeyAttributesInLevelDown.
  split.
  - intros Hall. cbn zeta.
    rewrite (proj2 (doDelete_spec s _ true)) by done.
    rewrite bool_decide_false; [done|]. rewrite length_app. simpl. lia.
  - intros (n & c & Hin & Hget & Hc). cbn zeta.
    destruct (fold_left _ _ true) eqn:Hfold.
    + apply doDelete_spec in Hfold as [_ Hall].
      rewrite (Hall n c Hin Hget) in Hc. done.
    + by rewrite bool_decide_true.
Qed.

Lemma GetDeletes_key_level_witness :
  tree.GetDeletes (examples.eth1 true)
    [examples.interface true; examples.scenarioC true] []
  = Ok [["interface"; "eth1"]]
  ∧ tree.GetDeletes examples.eth1Kept
      [examples.interfaceKept; examples.scenarioCKept] []
    = Ok [["interface"; "eth1"; "mtu"]].
Proof.
  split.
  - refine (proj1 (GetDeletes_key_level (examples.eth1 true)
             [examples.interface true; examples.scenarioC true] []
             _ 1 _ eq_refl eq_refl eq_refl eq_refl) _).
    intros n c Hn. apply list_elem_of_singleton in Hn. subst n.
    intros [= <-]. reflexivity.
  - etransitivity.
    + refine (proj2 (GetDeletes_key_level examples.eth1Kept
               [examples.interfaceKept; examples.scenarioCKept] []
               _ 1 _ eq_refl eq_refl eq_refl eq_refl) _).
      eexists "name", _. split; [apply list_elem_of_here|].
      split; reflexivity.
    + reflexivity.
Defined.

(** Scenario C: the deletes of the whole tree are the one path of the
    list instance. *)
Example GetDeletes_scenarioC :
  tree.GetDeletes (examples.scenarioC true) [] []
  = Ok [["interface"; "eth1"]].
Proof. reflexivity. Qed.

(** ** Entries: [AddChild], [Navigate] and [AddCacheUpdateRecursive] *)

Section InsertFacts.
Import tree.

Lemma getChild_setChild (cs : list (string * Entry)) (name : string)
    (e : Entry) :
  getChild (setChild cs name e) name = Some e.
Proof.
  induction cs as [|[k c] cs IH]; simpl.
  - by rewrite bool_decide_true.
  - destruct (decide (k = name)) as [->|Hne].
    + rewrite bool_decide_true by done. simpl.
      by rewrite bool_decide_true.
    + rewrite bool_decide_false by done. simpl.
      by rewrite bool_decide_false.
Qed.

Lemma setChild_setChild (cs : list (string * Entry)) (name : string)
    (e e' : Entry) :
  setChild (setChild cs name e) name e' = setChild cs name e'.
Proof.
  induction cs as [|[k c] cs IH]; simpl.
  - by rewrite bool_decide_true.
  - destruct (decide (k = name)) as [->|Hne].
    + rewrite bool_decide_true by done. simpl.
      by rewrite bool_decide_true.
    + rewrite bool_decide_false by done. simpl.
      by rewrite bool_decide_false, IH.
Qed.

Lemma setChild_getChild (cs : list (string * Entry)) (name : string)
    (e : Entry) :
  getChild cs name = Some e → setChild cs name e = cs.
Proof.
  induction cs as [|[k c] cs IH]; simpl; [done|].
  destruct (decide (k = name)) as [->|Hne].
  - rewrite bool_decide_true by done. by intros [= ->].
  - rewrite bool_decide_false by done. intros H. by rewrite IH.
Qed.

Lemma markFirstByOwner_id (f : LeafEntry → LeafEntry) (lv : LeafVariants)
    (owner : string) (v : LeafEntry) :
  GetByOwner lv owner = Some v → f v = v →
  markFirstByOwner f lv owner = lv.
Proof.
  induction lv as [|x lv IH]; simpl; [done|].
  destruct (bool_decide (Owner x = owner)).
  - intros [= ->] ->. done.
  - intros H1 H2. by rewrite IH.
Qed.

Lemma GetByOwner_markFirst (f : LeafEntry → LeafEntry) (lv : LeafVariants)
    (owner : string) (v : LeafEntry) :
  GetByOwner lv owner = Some v → Owner (f v) = owner →
  GetByOwner (markFirstByOwner f lv owner) owner = Some (f v).
Proof.
  induction lv as [|x lv IH]; simpl; [done|].
  destruct (decide (Owner x = owner)) as [Hx|Hx].
  - rewrite (bool_decide_true _ Hx). intros [= ->] Hf. simpl.
    by rewrite bool_decide_true.
  - rewrite (bool_decide_false _ Hx). intros H1 H2. simpl.
    rewrite (bool_decide_false _ Hx). by apply IH.
Qed.

Lemma GetByOwner_owner (lv : LeafVariants) (owner : string)
    (v : LeafEntry) :
  GetByOwner lv owner = Some v → Owner v = owner.
Proof.
  induction lv as [|x lv IH]; simpl; [done|].
  destruct (decide (Owner x = owner)) as [Hx|Hx].
  - rewrite (bool_decide_true _ Hx). by intros [= <-].
  - by rewrite (bool_decide_false _ Hx).
Qed.

Lemma GetByOwner_snoc (lv : LeafVariants) (owner : string)
    (v : LeafEntry) :
  GetByOwner lv owner = None → Owner v = owner →
  GetByOwner (lv ++ [v]) owner = Some v.
Proof.
  induction lv as [|x lv IH]; simpl.
  - intros _ ->. by rewrite bool_decide_true.
  - destruct (bool_decide (Owner x = owner)); [done|]. apply IH.
Qed.

Lemma EqualSkipPath_same (u c c' : cache.Update) :
  cache.sameUpdate c c' →
  cache.EqualSkipPath u c' = cache.EqualSkipPath u c.
Proof.
  intros (Ho & _ & Hb & Hp). unfold cache.EqualSkipPath.
  by rewrite Ho, Hb, Hp.
Qed.

Lemma EqualSkipPath_refl (c c' : cache.Update) :
  cache.sameUpdate c c' → cache.EqualSkipPath c c' = true.
Proof.
  intros (Ho & _ & Hb & Hp). unfold cache.EqualSkipPath.
  rewrite Ho, Hb, Hp, !bool_decide_true by done.
  by rewrite Z.eqb_refl.
Qed.

(** On the leaf: after an insertion, the same insertion changes
    nothing. *)
Lemma addLeafEntry_twice (lv : LeafVariants) (c c' : cache.Update)
    (new new' : bool) :
  cache.sameUpdate c c' →
  addLeafEntry (addLeafEntry lv c new) c' new' = addLeafEntry lv c new.
Proof.
  intros Hsame. pose proof Hsame as (Ho & _).
  assert (Hfound : ∃ v, GetByOwner (addLeafEntry lv c new) (cache.Owner c)
                        = Some v
                        ∧ EqualSkipPath v c' = true ∧ Delete v = false).
  { unfold addLeafEntry.
    destruct (GetByOwner lv (cache.Owner c)) as [v|] eqn:E.
    - pose proof (GetByOwner_owner _ _ _ E) as Hv.
      destruct (EqualSkipPath v c) eqn:Heq.
      + eexists. split; [by apply GetByOwner_markFirst|].
        split; [|done]. unfold EqualSkipPath in *. simpl.
        by rewrite (EqualSkipPath_same _ c c').
      + eexists. split; [by apply GetByOwner_markFirst|].
        split; [|done]. unfold EqualSkipPath. simpl.
        by apply EqualSkipPath_refl.
    - eexists. split; [by apply GetByOwner_snoc|].
      split; [|done]. unfold EqualSkipPath. simpl.
      by apply EqualSkipPath_refl. }
  destruct Hfound as (v & Hget & Heq & Hdel).
  unfold addLeafEntry at 1. rewrite Ho, Hget, Heq.
  apply (markFirstByOwner_id _ _ _ v Hget).
  destruct v; simpl in *; by subst.
Qed.

Lemma addCacheUpdateFrom_twice (tc tc' : TreeContext) (rest : list string)
    (r r1 : Entry) (anc anc' : list Entry) (c c' : cache.Update)
    (new new' : bool) :
  cache.sameUpdate c c' →
  addCacheUpdateFrom tc rest r anc c new = Ok r1 →
  addCacheUpdateFrom tc' rest r1 anc' c' new' = Ok r1.
Proof.
  intros Hsame. revert r r1 anc anc'.
  induction rest as [|name rest IH]; intros r r1 anc anc'.
  - cbn [addCacheUpdateFrom]. intros [= <-].
    destruct r; unfold withLeafVariants; simpl.
    by rewrite addLeafEntry_twice.
  - cbn [addCacheUpdateFrom].
    destruct (getChild (childs r) name) as [e|] eqn:E.
    + destruct (addCacheUpdateFrom tc rest e (r :: anc) c new)
        as [e'| |] eqn:Hrec; simpl; [|done..].
      intros [= <-]. cbn [childs withChilds].
      rewrite getChild_setChild.
      rewrite (IH e e' (r :: anc) _ Hrec). simpl.
      unfold withChilds. simpl. by rewrite setChild_setChild.
    + destruct (newEntry tc r anc name) as [[r' e]| |]; simpl; [|done..].
      destruct (addCacheUpdateFrom tc rest e (r' :: anc) c new)
        as [e'| |] eqn:Hrec; simpl; [|done..].
      intros [= <-]. cbn [childs withChilds].
      rewrite getChild_setChild.
      rewrite (IH e e' (r' :: anc) _ Hrec). simpl.
      unfold withChilds. simpl. by rewrite setChild_setChild.
Qed.

Lemma AddChild_Err (s e : Entry) (anc eanc : list Entry) (msg : string) :
  AddChild s anc e eanc = Err msg →
  Path eanc e ≠ []
  ∧ Path anc s ≠ take (length (Path eanc e) - 1) (Path eanc e).
Proof.
  unfold AddChild.
  assert (Htail :
    (if bool_decide (length (Path eanc e) = 0) then Panic
     else if negb (bool_decide
                     (Path anc s = take (length (Path eanc e) - 1)
                                     (Path eanc e)))
     then Err "adding Child with diverging path"
     else Ok (withChilds s (setChild (childs s) (PathName e) e)))
    = Err msg →
    Path eanc e ≠ []
    ∧ Path anc s ≠ take (length (Path eanc e) - 1) (Path eanc e)).
  { destruct (decide (length (Path eanc e) = 0)) as [H0|H0].
    { by rewrite (bool_decide_true _ H0). }
    rewrite (bool_decide_false _ H0).
    destruct (decide (Path anc s = take (length (Path eanc e) - 1)
                                     (Path eanc e))) as [Hp|Hp].
    { by rewrite (bool_decide_true _ Hp). }
    intros _. split; [|done]. by destruct (Path eanc e). }
  destruct (bool_decide (0 < length (leafVariants s))); [|exact Htail].
  destruct (schema s) as [sch|]; [|done].
  destruct (sdcpb.Schema sch) as [[]|]; done.
Qed.

End InsertFacts.

(** C6, where the code departs from it: a parent that holds leaf
    variants and whose schema is a container, presence container or
    not, takes the child of the matching path and returns no error. *)
Theorem AddChild_leaf_holder_takes_child (s e : tree.Entry)
    (anc eanc : list tree.Entry) (c : sdcpb.ContainerSchema) :
  tree.leafVariants s ≠ [] →
  tree.schema s
  = Some {| sdcpb.Schema := Some (sdcpb.SchemaElem_Container c) |} →
  sdcpb.IsPresence c = false →
  tree.Path eanc e = tree.Path anc s ++ [tree.PathName e] →
  tree.AddChild s anc e eanc
  = Ok (tree.withChilds s
          (tree.setChild (tree.childs s) (tree.PathName e) e)).
Proof.
  intros Hlv Hsch _ Hpath. unfold tree.AddChild.
  assert (0 < length (tree.leafVariants s)) as Hlen
    by (destruct (tree.leafVariants s); simpl; [done|lia]).
  rewrite (bool_decide_true _ Hlen).
  rewrite Hsch. simpl. rewrite Hpath, length_app. simpl.
  rewrite bool_decide_false by lia.
  replace (length (tree.Path anc s) + 1 - 1) with (length (tree.Path anc s))
    by lia.
  rewrite take_app_length. by rewrite bool_decide_true.
Qed.

Lemma AddChild_leaf_holder_takes_child_witness :
  tree.AddChild (examples.leafHolder (examples.container [] false))
    [examples.emptyRoot]
    examples.hostname
    [examples.leafHolder (examples.container [] false);
     examples.emptyRoot]
  = Ok (tree.withChilds (examples.leafHolder (examples.container [] false))
          [("hostname", examples.hostname)]).
Proof.
  apply (AddChild_leaf_holder_takes_child
           (examples.leafHolder (examples.container [] false))
           examples.hostname [examples.emptyRoot]
           [examples.leafHolder (examples.container [] false);
            examples.emptyRoot]
           {| sdcpb.Keys := []; sdcpb.IsPresence := false;
              sdcpb.ChoiceInfo := [] |});
    [discriminate|reflexivity..].
Defined.

(** C6, further: an error of [AddChild] is the error of the diverging
    path, whatever the parent holds; a parent that holds leaf variants
    and has a field schema or none makes [AddChild] dereference nil. *)
Lemma AddChild_error_is_diverging_path (s e : tree.Entry)
    (anc eanc : list tree.Entry) (msg : string) :
  tree.AddChild s anc e eanc = Err msg →
  tree.Path anc s
  ≠ take (length (tree.Path eanc e) - 1) (tree.Path eanc e).
Proof. intros H. by apply AddChild_Err in H as [_ H]. Qed.

Example AddChild_diverging_path :
  tree.AddChild examples.emptyRoot [] examples.hostname
    [examples.leafHolder examples.field; examples.emptyRoot]
  = Err "adding Child with diverging path".
Proof. reflexivity. Qed.

Example AddChild_field_leaf_holder_panics :
  tree.AddChild (examples.leafHolder examples.field)
    [examples.emptyRoot]
    examples.hostname
    [examples.leafHolder examples.field; examples.emptyRoot]
  = Panic.
Proof. reflexivity. Qed.

(** The loop of [Navigate] is guarded by a flag that starts false, so
    every path that is not empty ends in the error. *)
Lemma Navigate_nonempty_path_fails (fuel : nat) (tc : tree.TreeContext)
    (root s : tree.Entry) (loc : list string) (seg : string)
    (path : list string) :
  tree.getAt root loc = Some s →
  tree.Navigate (S fuel) tc root loc (seg :: path)
  = Some (Err "navigating tree, reached entry but child does not exist").
Proof.
  intros Hs. cbn [tree.Navigate]. rewrite Hs.
  rewrite bool_decide_false by done. by destruct fuel.
Qed.

(** C7, where the code departs from it: the root has the active child
    "interface", and [Navigate] to it ends in the error, with any fuel
    there is. *)
Theorem Navigate_to_child_fails :
  tree.getChild
    (tree.filterActiveChoiceCaseChilds examples.mtuInserted) "interface"
  = Some (examples.node "interface" (examples.container ["name"] false)
            [ examples.node "eth0" None
                [ examples.leaf "mtu" "A" 10 "1500" true false false
                    ["interface"; "eth0"; "mtu"] ] ])
  ∧ ∀ fuel,
      tree.Navigate (S fuel) examples.interfaceSchemas
        examples.mtuInserted [] ["interface"]
      = Some (Err "navigating tree, reached entry but child does not exist").
Proof.
  split; [reflexivity|]. intros fuel.
  by apply (Navigate_nonempty_path_fails fuel examples.interfaceSchemas
              examples.mtuInserted examples.mtuInserted).
Qed.

Example Navigate_empty_path :
  tree.Navigate 1 examples.interfaceSchemas examples.mtuInserted
    ["interface"; "eth0"] []
  = Some (Ok (examples.mtuInserted, ["interface"; "eth0"])).
Proof. reflexivity. Qed.

(** ** The datastore: raw intents and the intent transaction *)

Section DatastoreFacts.
Import datastore.

Lemma Modify_other_stores (env : Env) (d d' : Datastore) (opts : Opts)
    (deletes : list (list string)) (updates : list cache.Update)
    (r : Res ()) (s : Store) :
  Modify env d opts deletes updates = (r, d') →
  s ≠ OptStore opts →
  getStore (cacheClient d') s = getStore (cacheClient d) s.
Proof.
  unfold Modify. destruct (Modify_fails _ _ _ _); intros [= <- <-]; [done|].
  intros Hs. simpl. by destruct s, (OptStore opts).
Qed.

Lemma setCandidate_stores (env : Env) (d d' : Datastore)
    (req : sdcpb.SetDataRequest) (r : Res ()) (s : Store) :
  setCandidate env d req = (r, d') →
  getStore (cacheClient d') s = getStore (cacheClient d) s
  ∧ sbi d' = sbi d.
Proof.
  unfold setCandidate. destruct (setCandidate_fails _ _ _);
    intros [= <- <-]; [done|]. by destruct s.
Qed.

Lemma applyIntent_cache (env : Env) (d d' : Datastore) (cand : string)
    (priority : Z) (sdreq : sdcpb.SetDataRequest) (r : Res ()) :
  applyIntent env d cand priority sdreq = (r, d') →
  cacheClient d' = cacheClient d.
Proof.
  unfold applyIntent, sbi_Set.
  repeat case_match; by intros [= <- <-].
Qed.

End DatastoreFacts.

(** C9. [saveRawIntent] writes, in the intents store, under the key
    "__raw_intent__" + owner + "_" + the priority in decimal, the
    serialized request as a bytes value; and where the codec gives back
    what it was given for this request, [getRawIntent] of the owner and
    the priority of the request gives back the request. *)
Theorem raw_intent_round_trip (env : datastore.Env)
    (d d' : datastore.Datastore) (owner : string)
    (req : sdcpb.SetIntentRequest) :
  (∀ b, datastore.proto_Marshal env req = Ok b →
        datastore.proto_Unmarshal env b = Ok req) →
  (∀ b vb, datastore.proto_Marshal env req = Ok b →
           datastore.proto_MarshalValue env (sdcpb.TypedValue_BytesVal b)
           = Ok vb →
           datastore.proto_UnmarshalValue env vb
           = Ok (sdcpb.TypedValue_BytesVal b)) →
  datastore.saveRawIntent env d owner req = (Ok (), d') →
  (∃ b vb,
     datastore.proto_Marshal env req = Ok b
     ∧ datastore.proto_MarshalValue env (sdcpb.TypedValue_BytesVal b)
       = Ok vb
     ∧ datastore.intents (datastore.cacheClient d')
       !! ("", ["__raw_intent__" +:+ owner +:+ "_"
                  +:+ datastore.decimal (sdcpb.ReqPriority req)])
       = Some (cache.NewUpdate
                 ["__raw_intent__" +:+ owner +:+ "_"
                    +:+ datastore.decimal (sdcpb.ReqPriority req)]
                 vb 0 "" 0))
  ∧ datastore.getRawIntent env d' owner (sdcpb.ReqPriority req) = Ok req.
Proof.
  intros Hreq Hval. unfold datastore.saveRawIntent.
  destruct (datastore.proto_Marshal env req) as [b| |] eqn:Hb;
    [|by intros [= ]..].
  unfold datastore.NewUpdateNamed.
  destruct (datastore.proto_MarshalValue env _) as [vb| |] eqn:Hvb;
    simpl; [|by intros [= ]..].
  unfold datastore.Modify.
  destruct (datastore.Modify_fails _ _ _ _); [by intros [= ]|].
  intros [= <-]. simpl.
  assert (Hlook :
    (<[("", [datastore.rawIntentName owner (sdcpb.ReqPriority req)])
       := cache.NewUpdate
            [datastore.rawIntentName owner (sdcpb.ReqPriority req)]
            vb 0 "" 0]>
       (datastore.intents (datastore.cacheClient d)))
    !! ("", [datastore.rawIntentName owner (sdcpb.ReqPriority req)])
    = Some (cache.NewUpdate
              [datastore.rawIntentName owner (sdcpb.ReqPriority req)]
              vb 0 "" 0)) by apply lookup_insert_eq.
  split.
  - exists b, vb. split; [done|]. split; [done|]. exact Hlook.
  - unfold datastore.getRawIntent, datastore.Read, datastore.modifyStore.
    simpl. rewrite Hlook. simpl. unfold datastore.UpdateValue. simpl.
    rewrite (Hval b vb eq_refl Hvb). simpl. by apply Hreq.
Qed.

Lemma raw_intent_round_trip_witness :
  datastore.getRawIntent (examples.env None [])
    (datastore.saveRawIntent (examples.env None []) examples.dev1 "A"
       examples.setMtu).2 "A" 10
  = Ok examples.setMtu
  ∧ datastore.rawIntentName "A" 10 = "__raw_intent__A_10"
  ∧ datastore.rawIntentName "A" (-3) = "__raw_intent__A_-3".
Proof.
  split; [|split; reflexivity].
  refine (proj2 (raw_intent_round_trip (examples.env None [])
            examples.dev1 _ "A" examples.setMtu _ _ _)).
  - intros b _. reflexivity.
  - intros b vb _ [= <-]. reflexivity.
  - reflexivity.
Defined.



(** The stores are written when the transaction goes through. *)
Example SetIntentUpdate_success_writes_stores :
  let r := datastore.SetIntentUpdate (examples.env None [])
             examples.dev1 examples.setMtu "A-1" in
  r.1 = datastore.Success
  ∧ length (datastore.sbi r.2) = 1
  ∧ (cache.Bytes
       <$> datastore.intended (datastore.cacheClient r.2)
           !! ("A", ["interface"; "eth0"; "mtu"])) = Some "s1500"
  ∧ (cache.Bytes
       <$> datastore.config (datastore.cacheClient r.2)
           !! ("", ["interface"; "eth0"; "mtu"])) = Some "s1500"
  ∧ (cache.Bytes
       <$> datastore.intents (datastore.cacheClient r.2)
           !! ("", ["__raw_intent__A_10"])) = Some "bblob".
Proof. vm_compute. done. Qed.

(** C10. A request with no update and the delete flag clear, on a
    datastore whose intent mutex is free and where the candidate can be
    created, gets the empty response whatever the update path and the
    delete path would do: neither is run. The datastore is left as it
    was but for the candidate, which was created and, unless its
    deletion failed, deleted. *)
Theorem SetIntent_nothing_to_do
    (onUpdate onDelete :
       datastore.Datastore → sdcpb.SetIntentRequest → string
       → datastore.Outcome * datastore.Datastore)
    (env : datastore.Env) (d : datastore.Datastore)
    (req : sdcpb.SetIntentRequest) :
  sdcpb.ReqUpdate req = [] →
  sdcpb.ReqDelete req = false →
  datastore.intentMutex d = false →
  datastore.CreateCandidate_fails env
    {| sdcpb.DSType := sdcpb.Type_CANDIDATE;
       sdcpb.DSName :=
         sdcpb.Intent req +:+ "-" +:+ datastore.decimal (datastore.now env);
       sdcpb.DSOwner := sdcpb.Intent req;
       sdcpb.DSPriority := sdcpb.ReqPriority req |} = None →
  let candidateName :=
    sdcpb.Intent req +:+ "-" +:+ datastore.decimal (datastore.now env) in
  let created :=
    <[candidateName := []]>
      (datastore.candidates (datastore.cacheClient d)) in
  let after :=
    {| datastore.Name := datastore.Name d;
       datastore.cacheClient :=
         {| datastore.config := datastore.config (datastore.cacheClient d);
            datastore.intended :=
              datastore.intended (datastore.cacheClient d);
            datastore.intents := datastore.intents (datastore.cacheClient d);
            datastore.candidates :=
              match datastore.DeleteCandidate_fails env candidateName with
              | Some _ => created
              | None => delete candidateName created
              end |};
       datastore.sbi := datastore.sbi d;
       datastore.intentMutex := false |} in
  datastore.SetIntentWith onUpdate onDelete env d req
  = (Ok sdcpb.mkSetIntentResponse, after)
  ∧ datastore.SetIntent env d req = (Ok sdcpb.mkSetIntentResponse, after).
Proof.
  intros Hupd Hdel Hmutex Hcreate candidateName created after.
  assert (Hgen : ∀ onU onD,
            datastore.SetIntentWith onU onD env d req
            = (Ok sdcpb.mkSetIntentResponse, after)).
  { intros onU onD. unfold datastore.SetIntentWith.
    rewrite Hmutex. unfold datastore.CreateCandidate.
    cbn [datastore.Name datastore.cacheClient datastore.sbi
         datastore.intentMutex datastore.withMutex].
    rewrite Hcreate, Hupd, Hdel. simpl.
    unfold datastore.DeleteCandidate, after, created, candidateName.
    by destruct (datastore.DeleteCandidate_fails env _). }
  split; [apply Hgen|]. apply Hgen.
Qed.

Lemma SetIntent_nothing_to_do_witness :
  datastore.SetIntent (examples.env None []) examples.dev1
    examples.nothingToDo
  = (Ok sdcpb.mkSetIntentResponse, examples.dev1).
Proof.
  etransitivity.
  - exact (proj2 (SetIntent_nothing_to_do
             (datastore.SetIntentUpdate (examples.env None []))
             (datastore.SetIntentDelete (examples.env None []))
             (examples.env None []) examples.dev1 examples.nothingToDo
             eq_refl eq_refl eq_refl eq_refl)).
  - vm_compute. reflexivity.
Defined.

(** * Further properties *)

(** ** Leaf variants *)

(** X1. [GetByOwner] gives the first variant of the owner: the
    variants before it have another owner; it gives none exactly when
    no variant has the owner. *)
Theorem GetByOwner_first (lv : tree.LeafVariants) (owner : string) :
  match tree.GetByOwner lv owner with
  | Some v =>
      ∃ l1 l2, lv = l1 ++ v :: l2 ∧ tree.Owner v = owner
               ∧ ∀ x, x ∈ l1 → tree.Owner x ≠ owner
  | None => ∀ x, x ∈ lv → tree.Owner x ≠ owner
  end.
Proof.
  induction lv as [|e lv IH]; simpl; [by inversion 1|].
  destruct (decide (tree.Owner e = owner)) as [He|He].
  - rewrite (bool_decide_true _ He). exists [], lv.
    split; [done|]. split; [done|]. by inversion 1.
  - rewrite (bool_decide_false _ He).
    destruct (tree.GetByOwner lv owner) as [v|].
    + destruct IH as (l1 & l2 & -> & Hv & Hl1).
      exists (e :: l1), l2. split; [done|]. split; [done|].
      intros x [->|Hx]%elem_of_cons; [done|by apply Hl1].
    + intros x [->|Hx]%elem_of_cons; [done|by apply IH].
Qed.

Section ValueFacts.
Import tree.

Lemma GetHighestPrecedenceValue_fold (lv : LeafVariants) (start : Z) :
  let r :=
    fold_left
      (λ result e,
         if negb (Delete e) && (Priority e <? result)%Z
         then Priority e else result) lv start in
  (r ≤ start)%Z
  ∧ (∀ v, v ∈ lv → Delete v = false → (r ≤ Priority v)%Z)
  ∧ (r = start ∨ ∃ v, v ∈ lv ∧ Delete v = false ∧ Priority v = r).
Proof.
  revert start. induction lv as [|e lv IH]; intros start; simpl.
  { split; [lia|]. split; [by inversion 1|by left]. }
  set (start' := if negb (Delete e) && (Priority e <? start)%Z
                 then Priority e else start).
  destruct (IH start') as (Hle & Hlow & Hatt).
  assert (Hstart' : (start' ≤ start)%Z
                    ∧ (Delete e = false → (start' ≤ Priority e)%Z)
                    ∧ (start' = start
                       ∨ (Delete e = false ∧ Priority e = start'))).
  { unfold start'. destruct (Delete e); simpl; [lia|].
    destruct (Z.ltb_spec (Priority e) start); [|lia].
    split; [lia|]. split; [lia|]. by right. }
  destruct Hstart' as (H1 & H2 & H3).
  split; [lia|]. split.
  - intros v [->|Hv]%elem_of_cons Hd; [specialize (H2 Hd); lia|].
    by apply Hlow.
  - destruct Hatt as [->|(v & Hv & Hd & Hp)].
    + destruct H3 as [->|[Hd Hp]]; [by left|].
      right. exists e. split; [left|done].
    + right. exists v. split; [by right|done].
Qed.

End ValueFacts.

(** X2. [GetHighestPrecedenceValue] is the least priority value of the
    variants not marked delete, and [MaxInt32] where it is not
    below. *)
Theorem GetHighestPrecedenceValue_least (lv : tree.LeafVariants) :
  (tree.GetHighestPrecedenceValue lv ≤ tree.MaxInt32)%Z
  ∧ (∀ v, v ∈ lv → tree.Delete v = false →
          (tree.GetHighestPrecedenceValue lv ≤ tree.Priority v)%Z)
  ∧ (tree.GetHighestPrecedenceValue lv = tree.MaxInt32
     ∨ ∃ v, v ∈ lv ∧ tree.Delete v = false
            ∧ tree.Priority v = tree.GetHighestPrecedenceValue lv).
Proof. apply GetHighestPrecedenceValue_fold. Qed.

(** X3. What [GetHighestPrecedence] gives with onlyChanged=true is a
    variant of the set that is not marked delete, and it is what
    onlyChanged=false gives as well. *)
Theorem GetHighestPrecedence_changed_is_effective
    (lv : tree.LeafVariants) (v : tree.LeafEntry) :
  tree.GetHighestPrecedence lv true = Some v →
  v ∈ lv ∧ tree.Delete v = false
  ∧ tree.GetHighestPrecedence lv false = Some v.
Proof.
  intros Hv.
  assert (Hsd : tree.shouldDelete lv = false).
  { unfold tree.GetHighestPrecedence in Hv.
    destruct (bool_decide _); [done|].
    by destruct (tree.shouldDelete lv). }
  destruct (tree.lowest lv) as [top|] eqn:Hlow.
  2: { apply lowest_None in Hlow as ->. done. }
  rewrite (GetHighestPrecedence_unfold lv top true Hsd Hlow) in Hv.
  rewrite (GetHighestPrecedence_unfold lv top false Hsd Hlow).
  simpl in *.
  destruct (tree.Delete top) eqn:Hdel; simpl in *.
  - unfold tree.second in *.
    destruct (tree.extractLowest lv) as [[h others]|] eqn:E; [|done].
    destruct (tree.lowest others) as [s|] eqn:Hs; [|done].
    destruct (tree.Delete s) eqn:Hds; simpl in Hv; [done|].
    simplify_eq. split; [|done].
    apply lowest_elem_of in Hs.
    apply extractLowest_split in E as (l1 & l2 & -> & -> & _).
    apply elem_of_app in Hs as [Hs|Hs]; apply elem_of_app;
      [by left|right; by right].
  - destruct (tree.IsNew top || tree.IsUpdated top); [|done].
    simplify_eq. split; [by apply lowest_elem_of|done].
Qed.

Lemma GetHighestPrecedence_changed_is_effective_witness :
  tree.GetHighestPrecedence examples.scenarioA false
  = Some (examples.variant "B" 5 "9000" true false false).
Proof.
  by apply (GetHighestPrecedence_changed_is_effective examples.scenarioA).
Defined.

(** ** Entries *)

Section EntryExtraFacts.
Import tree.

Lemma getChild_setChild_ne (cs : list (string * Entry)) (name n : string)
    (e : Entry) :
  n ≠ name → getChild (setChild cs name e) n = getChild cs n.
Proof.
  intros Hne. induction cs as [|[k c] cs IH]; simpl.
  - by rewrite bool_decide_false.
  - destruct (decide (k = name)) as [->|Hk].
    + rewrite bool_decide_true by done. simpl.
      by rewrite !bool_decide_false.
    + rewrite (bool_decide_false _ Hk). simpl. by rewrite IH.
Qed.

Lemma Path_length (anc : list Entry) (s : Entry) :
  length (Path anc s) = length anc.
Proof.
  revert s. induction anc as [|p anc IH]; intros s; simpl; [done|].
  rewrite length_app, IH. simpl. lia.
Qed.

(** The result with an accumulator before it. *)
Lemma IsDelete_acc (s : Entry) (anc : list Entry) (keys : list string)
    (acc : list (list string)) :
  IsDeleteKeyAttributesInLevelDown s anc keys acc
  = acc ++ IsDeleteKeyAttributesInLevelDown s anc keys [].
Proof.
  unfold IsDeleteKeyAttributesInLevelDown.
  destruct (fold_left _ _ _); simpl; [done|by rewrite app_nil_r].
Qed.

Lemma choiceDeletes_acc (s : Entry) (anc : list Entry)
    (acc : list (list string)) :
  choiceDeletes s anc acc = acc ++ choiceDeletes s anc [].
Proof.
  unfold choiceDeletes. generalize (choicesResolvers s) as rs.
  intros rs. revert acc.
  induction rs as [|v rs IH]; intros acc; simpl.
  { by rewrite app_nil_r. }
  destruct (_ && _).
  - rewrite (IH (acc ++ _)), (IH [_]). by rewrite app_assoc.
  - apply IH.
Qed.

Lemma GetDeletes_unfold (s : Entry) (anc : list Entry)
    (deletes : list (list string)) :
  GetDeletes s anc deletes =
  let regular :=
    let deletes :=
      match sdcpb.GetContainer (schema s) with
      | Some _ => choiceDeletes s anc deletes
      | None => deletes
      end in
    if shouldDelete (leafVariants s)
    then
      match leafVariants s with
      | l0 :: _ => Ok (deletes ++ [GetPath l0])
      | [] => Panic
      end
    else GetDeletesChilds (childs s) (s :: anc) deletes in
  match schema s with
  | Some _ => regular
  | None =>
      match GetAncestorSchema anc with
      | Ok (sch, level) =>
          match sdcpb.GetContainer (Some sch) with
          | Some contschema =>
              if bool_decide (level = length (sdcpb.Keys contschema))
              then
                let keys := map sdcpb.Name (sdcpb.Keys contschema) in
                let preCountDeletes := length deletes in
                let deletes :=
                  IsDeleteKeyAttributesInLevelDown s anc keys deletes in
                if bool_decide (length deletes = preCountDeletes)
                then GetDeletesChilds (childs s) (s :: anc) deletes
                else Ok deletes
              else regular
          | None => regular
          end
      | Err e => Err e
      | Panic => Panic
      end
  end.
Proof.
  destruct s as [name cs lv sch rs].
  cbn [GetDeletes schema leafVariants childs]. cbn zeta.
  repeat case_match; try done; apply GetDeletes_recurse.
Qed.

Lemma GetDeletesChilds_acc (cs : list (string * Entry)) (anc : list Entry)
    (acc : list (list string)) :
  Forall (λ kc : string * Entry,
            ∀ anc acc,
              GetDeletes kc.2 anc acc =
              match GetDeletes kc.2 anc [] with
              | Ok d => Ok (acc ++ d)
              | Err e => Err e
              | Panic => Panic
              end) cs →
  GetDeletesChilds cs anc acc =
  match GetDeletesChilds cs anc [] with
  | Ok d => Ok (acc ++ d)
  | Err e => Err e
  | Panic => Panic
  end.
Proof.
  intros Hall. revert acc.
  induction Hall as [|[k c] cs Hc _ IH]; intros acc; simpl.
  { by rewrite app_nil_r. }
  simpl in Hc. unfold mbind, Res_bind.
  rewrite (Hc anc acc).
  destruct (GetDeletes c anc []) as [d1| |]; [|done..].
  rewrite (IH (acc ++ d1)), (IH d1).
  destruct (GetDeletesChilds cs anc []); [|done..].
  by rewrite app_assoc.
Qed.

End EntryExtraFacts.

(** X4. [GetAncestorSchema] gives the schema of the nearest ancestor
    that has one and how many levels up it is, at least one; it never
    returns an error, and it dereferences nil exactly when no ancestor
    has a schema. *)
Theorem GetAncestorSchema_nearest (anc : list tree.Entry) :
  match tree.GetAncestorSchema anc with
  | Ok (sch, level) =>
      1 ≤ level
      ∧ (∃ p, anc !! (level - 1) = Some p ∧ tree.schema p = Some sch)
      ∧ ∀ i q, i < level - 1 → anc !! i = Some q → tree.schema q = None
  | Err _ => False
  | Panic => ∀ q, q ∈ anc → tree.schema q = None
  end.
Proof.
  induction anc as [|p anc IH]; simpl; [by inversion 1|].
  destruct (tree.schema p) as [sch|] eqn:Hp.
  - split; [lia|]. split; [by exists p|]. intros i q Hi. lia.
  - destruct (tree.GetAncestorSchema anc) as [[sch level]| |]; [|done|].
    + destruct IH as (Hl & (a & Ha & Hsch) & Hnone).
      split; [lia|]. split.
      * exists a. split; [|done].
        replace (level + 1 - 1) with (S (level - 1)) by lia. done.
      * intros [|i] q Hi; simpl; [by intros [= <-]|].
        apply Hnone. lia.
    + intros q [->|Hq]%elem_of_cons; [done|by apply IH].
Qed.

(** X5. After [AddChild] has succeeded the child is found under its
    name, the other names lead where they led, and the parent is
    otherwise as it was. *)
Theorem AddChild_lookup (s s' e : tree.Entry) (anc eanc : list tree.Entry) :
  tree.AddChild s anc e eanc = Ok s' →
  tree.getChild (tree.childs s') (tree.PathName e) = Some e
  ∧ (∀ n, n ≠ tree.PathName e →
          tree.getChild (tree.childs s') n
          = tree.getChild (tree.childs s) n)
  ∧ tree.leafVariants s' = tree.leafVariants s
  ∧ tree.schema s' = tree.schema s
  ∧ tree.pathElemName s' = tree.pathElemName s
  ∧ tree.Path eanc e = tree.Path anc s ++ [tree.PathName e] .
Proof.
  unfold tree.AddChild. intros H.
  assert (Htail :
    (if bool_decide (length (tree.Path eanc e) = 0) then Panic
     else if negb (bool_decide
                     (tree.Path anc s
                      = take (length (tree.Path eanc e) - 1)
                          (tree.Path eanc e)))
     then Err "adding Child with diverging path"
     else Ok (tree.withChilds s
                (tree.setChild (tree.childs s) (tree.PathName e) e)))
    = Ok s').
  { destruct (bool_decide (0 < length (tree.leafVariants s))); [|exact H].
    destruct (tree.schema s) as [sch|]; [|done].
    by destruct (sdcpb.Schema sch) as [[]|]. }
  clear H.
  destruct (decide (length (tree.Path eanc e) = 0)) as [H0|H0].
  { by rewrite (bool_decide_true _ H0) in Htail. }
  rewrite (bool_decide_false _ H0) in Htail.
  destruct (decide (tree.Path anc s
                    = take (length (tree.Path eanc e) - 1)
                        (tree.Path eanc e))) as [Hp|Hp].
  2: { by rewrite (bool_decide_false _ Hp) in Htail. }
  rewrite (bool_decide_true _ Hp) in Htail. simpl in Htail.
  injection Htail as <-. simpl.
  split; [apply getChild_setChild|].
  split; [intros n Hn; by apply getChild_setChild_ne|].
  do 3 (split; [done|]).
  rewrite Hp. destruct eanc as [|p eanc]; [done|]. simpl.
  rewrite length_app. simpl.
  replace (length (tree.Path eanc p) + 1 - 1)
    with (length (tree.Path eanc p)) by lia.
  by rewrite take_app_length.
Qed.

Lemma AddChild_lookup_witness :
  tree.getChild
    (tree.childs
       (tree.withChilds examples.emptyRoot
          [("hostname", examples.hostname)])) "hostname"
  = Some examples.hostname.
Proof.
  apply (AddChild_lookup examples.emptyRoot _ examples.hostname
           [] [examples.emptyRoot]).
  reflexivity.
Defined.

(** X6. [GetDeletes] only adds to the paths it is given: the result is
    the given paths followed by what it gives on no paths. *)
Theorem GetDeletes_accumulates (s : tree.Entry) (anc : list tree.Entry)
    (acc : list (list string)) :
  tree.GetDeletes s anc acc =
  match tree.GetDeletes s anc [] with
  | Ok d => Ok (acc ++ d)
  | Err e => Err e
  | Panic => Panic
  end.
Proof.
  revert anc acc. induction s as [name cs lv sch rs IH]
    using tree.Entry_induction.
  intros anc acc. rewrite !GetDeletes_unfold. cbn zeta.
  set (s := tree.mkEntry name cs lv sch rs).
  assert (Hchilds : ∀ anc' a,
            tree.GetDeletesChilds (tree.childs s) anc' a =
            match tree.GetDeletesChilds (tree.childs s) anc' [] with
            | Ok d => Ok (a ++ d)
            | Err e => Err e
            | Panic => Panic
            end).
  { intros anc' a. by apply GetDeletesChilds_acc. }
  assert (Hregular :
    ∀ a,
      (let deletes :=
         match sdcpb.GetContainer (tree.schema s) with
         | Some _ => tree.choiceDeletes s anc a
         | None => a
         end in
       if tree.shouldDelete (tree.leafVariants s)
       then match tree.leafVariants s with
            | l0 :: _ => Ok (deletes ++ [tree.GetPath l0])
            | [] => Panic
            end
       else tree.GetDeletesChilds (tree.childs s) (s :: anc) deletes)
      =
      match
        (let deletes :=
           match sdcpb.GetContainer (tree.schema s) with
           | Some _ => tree.choiceDeletes s anc []
           | None => []
           end in
         if tree.shouldDelete (tree.leafVariants s)
         then match tree.leafVariants s with
              | l0 :: _ => Ok (deletes ++ [tree.GetPath l0])
              | [] => Panic
              end
         else tree.GetDeletesChilds (tree.childs s) (s :: anc) deletes)
      with
      | Ok d => Ok (a ++ d)
      | Err e => Err e
      | Panic => Panic
      end).
  { intros a. cbn zeta.
    destruct (sdcpb.GetContainer (tree.schema s)).
    - rewrite (choiceDeletes_acc s anc a).
      destruct (tree.shouldDelete _).
      + destruct (tree.leafVariants s); [done|]. by rewrite app_assoc.
      + rewrite (Hchilds _ (a ++ _)), (Hchilds _ (tree.choiceDeletes _ _ _)).
        destruct (tree.GetDeletesChilds _ _ []); [|done..].
        by rewrite app_assoc.
    - destruct (tree.shouldDelete _).
      + by destruct (tree.leafVariants s).
      + rewrite (Hchilds _ a).
        destruct (tree.GetDeletesChilds _ _ []); [|done..].
        done. }
  destruct (tree.schema s) eqn:Hs; [apply Hregular|].
  destruct (tree.GetAncestorSchema anc) as [[sch' level]| |]; [|done..].
  destruct (sdcpb.GetContainer (Some sch')) as [c|]; [|apply Hregular].
  destruct (bool_decide (level = _)); [|apply Hregular].
  rewrite (IsDelete_acc s anc _ acc).
  set (k := tree.IsDeleteKeyAttributesInLevelDown s anc _ []).
  assert (Hk : k = [] ∨ k = [tree.Path anc s]).
  { unfold k, tree.IsDeleteKeyAttributesInLevelDown.
    destruct (fold_left _ _ true); auto. }
  clearbody k. destruct Hk as [->| ->].
  - rewrite app_nil_r, !bool_decide_true by done. apply Hchilds.
  - rewrite !bool_decide_false by (rewrite ?length_app; simpl; lia). done.
Qed.

Section BranchFacts.
Import tree.

Lemma getChild_elem_of (cs : list (string * Entry)) (name : string)
    (c : Entry) :
  getChild cs name = Some c → (name, c) ∈ cs.
Proof.
  induction cs as [|[k c'] cs IH]; simpl; [done|].
  destruct (decide (k = name)) as [->|Hk].
  - rewrite bool_decide_true by done. intros [= ->]. left.
  - rewrite (bool_decide_false _ Hk). intros H. right. by apply IH.
Qed.

Lemma GetByOwnerOfBranch_unfold (s : Entry) (owner : string)
    (result : list LeafEntry) :
  GetByOwnerOfBranch s owner result =
  GetByOwnerOfChilds (childs s) owner
    (match GetByOwner (leafVariants s) owner with
     | Some lv => result ++ [lv]
     | None => result
     end).
Proof.
  destruct s as [name cs lv sch rs]. cbn [GetByOwnerOfBranch childs
    leafVariants].
  generalize (match GetByOwner lv owner with
              | Some lv0 => result ++ [lv0]
              | None => result
              end) as acc.
  induction cs as [|[k c] cs IH]; intros acc; [done|]. apply IH.
Qed.

Lemma GetByOwnerOfBranch_acc (s : Entry) (owner : string)
    (acc : list LeafEntry) :
  GetByOwnerOfBranch s owner acc = acc ++ GetByOwnerOfBranch s owner [].
Proof.
  revert acc. induction s as [name cs lv sch rs IH] using Entry_induction.
  intros acc. rewrite !GetByOwnerOfBranch_unfold. simpl.
  assert (Hcs : ∀ a, GetByOwnerOfChilds cs owner a
                     = a ++ GetByOwnerOfChilds cs owner []).
  { induction IH as [|[k c] cs Hc _ IHcs]; intros a; simpl.
    - by rewrite app_nil_r.
    - simpl in Hc. rewrite (Hc a), (IHcs (a ++ _)).
      rewrite (IHcs (GetByOwnerOfBranch c owner [])).
      by rewrite app_assoc. }
  destruct (GetByOwner lv owner) as [x|].
  - rewrite (Hcs (acc ++ [x])), (Hcs [x]). by rewrite <- app_assoc.
  - apply Hcs.
Qed.

(** What [GetByOwner] gives on a branch: what the entry has, then what
    its children give, in turn. *)
Lemma GetByOwnerOfBranch_flat (s : Entry) (owner : string) :
  GetByOwnerOfBranch s owner [] =
  option_list (GetByOwner (leafVariants s) owner)
  ++ flat_map (λ kc : string * Entry, GetByOwnerOfBranch kc.2 owner [])
       (childs s).
Proof.
  rewrite GetByOwnerOfBranch_unfold.
  assert (Hcs : ∀ cs a, GetByOwnerOfChilds cs owner a
            = a ++ flat_map (λ kc : string * Entry,
                               GetByOwnerOfBranch kc.2 owner []) cs).
  { induction cs as [|[k c] cs IH]; intros a; simpl.
    - by rewrite app_nil_r.
    - rewrite IH, GetByOwnerOfBranch_acc. by rewrite app_assoc. }
  rewrite Hcs. by destruct (GetByOwner _ _).
Qed.

Lemma MarkOwnerDelete_unfold (s : Entry) (o : string) :
  MarkOwnerDelete s o =
  {| pathElemName := pathElemName s;
     childs := map (λ kc : string * Entry,
                      (kc.1, MarkOwnerDelete kc.2 o)) (childs s);
     leafVariants := markFirstByOwner MarkDelete (leafVariants s) o;
     schema := schema s;
     choicesResolvers := choicesResolvers s |}.
Proof.
  destruct s as [name cs lv sch rs]. cbn [MarkOwnerDelete childs
    leafVariants pathElemName schema choicesResolvers]. f_equal.
  induction cs as [|[k c] cs IH]; [done|]. simpl. by rewrite IH.
Qed.

Lemma GetByOwner_markFirst_fmap (f : LeafEntry → LeafEntry)
    (lv : LeafVariants) (o : string) :
  (∀ v, Owner (f v) = Owner v) →
  GetByOwner (markFirstByOwner f lv o) o = f <$> GetByOwner lv o.
Proof.
  intros Hf. induction lv as [|x lv IH]; simpl; [done|].
  destruct (decide (Owner x = o)) as [Hx|Hx].
  - rewrite (bool_decide_true _ Hx). simpl.
    by rewrite bool_decide_true by (by rewrite Hf).
  - rewrite (bool_decide_false _ Hx). simpl.
    by rewrite (bool_decide_false _ Hx).
Qed.

Lemma GetByOwner_markFirst_other (f : LeafEntry → LeafEntry)
    (lv : LeafVariants) (o o' : string) :
  (∀ v, Owner (f v) = Owner v) → o' ≠ o →
  GetByOwner (markFirstByOwner f lv o) o' = GetByOwner lv o'.
Proof.
  intros Hf Hne. induction lv as [|x lv IH]; simpl; [done|].
  destruct (decide (Owner x = o)) as [Hx|Hx].
  - rewrite (bool_decide_true _ Hx). simpl. rewrite Hf.
    by rewrite !bool_decide_false by congruence.
  - rewrite (bool_decide_false _ Hx). simpl. by rewrite IH.
Qed.

Lemma branchValues_le (cs : list (string * Entry)) (start : Z) :
  (branchValues cs start ≤ start)%Z
  ∧ ∀ k c, (k, c) ∈ cs →
           (branchValues cs start ≤ GetHighestPrecedenceValueOfBranch c)%Z.
Proof.
  revert start. induction cs as [|[k c] cs IH]; intros start; simpl.
  { split; [lia|]. by inversion 1. }
  set (start' := if (_ <? _)%Z then _ else _).
  destruct (IH start') as [H1 H2].
  assert ((start' ≤ start)%Z
          ∧ (start' ≤ GetHighestPrecedenceValueOfBranch c)%Z) as [H3 H4].
  { unfold start'.
    destruct (Z.ltb_spec (GetHighestPrecedenceValueOfBranch c) start);
      lia. }
  split; [lia|].
  intros k' c' [[= -> ->]|Hin]%elem_of_cons; [lia|by eapply H2].
Qed.

Lemma GetHighestPrecedenceValueOfBranch_unfold (s : Entry) :
  GetHighestPrecedenceValueOfBranch s =
  let result := branchValues (childs s) MaxInt32 in
  let val := GetHighestPrecedenceValue (leafVariants s) in
  if (val <? result)%Z then val else result.
Proof.
  destruct s as [name cs lv sch rs].
  cbn [GetHighestPrecedenceValueOfBranch childs leafVariants]. cbn zeta.
  assert (Hcs : ∀ start,
    (fix range (cs : list (string * Entry)) (result : Z) : Z :=
       match cs with
       | [] => result
       | (_, e) :: rest =>
           let val := GetHighestPrecedenceValueOfBranch e in
           range rest (if (val <? result)%Z then val else result)
       end) cs start = branchValues cs start).
  { induction cs as [|[k c] cs IH]; intros start; [done|]. apply IH. }
  by rewrite Hcs.
Qed.

Lemma addLeafEntry_found (lv : LeafVariants) (c : cache.Update)
    (new : bool) :
  ∃ v, GetByOwner (addLeafEntry lv c new) (cache.Owner c) = Some v
       ∧ EqualSkipPath v c = true ∧ Delete v = false.
Proof.
  assert (Hsame : cache.sameUpdate c c) by done.
  unfold addLeafEntry.
  destruct (GetByOwner lv (cache.Owner c)) as [v|] eqn:E.
  - pose proof (GetByOwner_owner _ _ _ E) as Hv.
    destruct (EqualSkipPath v c) eqn:Heq.
    + eexists. split; [by apply GetByOwner_markFirst|]. done.
    + eexists. split; [by apply GetByOwner_markFirst|].
      split; [|done]. unfold EqualSkipPath. simpl.
      by apply EqualSkipPath_refl.
  - eexists. split; [by apply GetByOwner_snoc|].
    split; [|done]. unfold EqualSkipPath. simpl.
    by apply EqualSkipPath_refl.
Qed.

Lemma addCacheUpdateFrom_lookup (tc : TreeContext) (rest : list string)
    (r r1 : Entry) (anc : list Entry) (c : cache.Update) (new : bool) :
  addCacheUpdateFrom tc rest r anc c new = Ok r1 →
  ∃ leaf v, getAt r1 rest = Some leaf
    ∧ GetByOwner (leafVariants leaf) (cache.Owner c) = Some v
    ∧ EqualSkipPath v c = true ∧ Delete v = false.
Proof.
  revert r r1 anc. induction rest as [|name rest IH]; intros r r1 anc.
  - cbn [addCacheUpdateFrom]. intros [= <-].
    destruct (addLeafEntry_found (leafVariants r) c new) as (v & ? & ? & ?).
    by exists (withLeafVariants r (addLeafEntry (leafVariants r) c new)), v.
  - cbn [addCacheUpdateFrom].
    destruct (getChild (childs r) name) as [e|] eqn:E.
    + destruct (addCacheUpdateFrom tc rest e (r :: anc) c new)
        as [e'| |] eqn:Hrec; simpl; [|done..].
      intros [= <-]. cbn [getAt childs withChilds].
      rewrite getChild_setChild. by eapply IH.
    + destruct (newEntry tc r anc name) as [[r' e]| |]; simpl; [|done..].
      destruct (addCacheUpdateFrom tc rest e (r' :: anc) c new)
        as [e'| |] eqn:Hrec; simpl; [|done..].
      intros [= <-]. cbn [getAt childs withChilds].
      rewrite getChild_setChild. by eapply IH.
Qed.

End BranchFacts.

(** X7. After [AddCacheUpdateRecursive] has added an update from the
    root, the entry at the path of the update is there and holds a
    variant of the owner of the update, with the value and priority of
    the update and not marked delete. *)
Theorem AddCacheUpdateRecursive_lookup (tc : tree.TreeContext)
    (root root' : tree.Entry) (c : cache.Update) (new : bool) :
  tree.AddCacheUpdateRecursive tc root [] c new = Ok root' →
  ∃ leaf v,
    tree.getAt root' (cache.GetPath c) = Some leaf
    ∧ tree.GetByOwner (tree.leafVariants leaf) (cache.Owner c) = Some v
    ∧ tree.EqualSkipPath v c = true
    ∧ tree.Delete v = false.
Proof.
  unfold tree.AddCacheUpdateRecursive.
  change (tree.IsRoot []) with true. cbn iota.
  rewrite bool_decide_false by lia. rewrite drop_0.
  apply addCacheUpdateFrom_lookup.
Qed.

Lemma AddCacheUpdateRecursive_lookup_witness :
  ∃ leaf v,
    tree.getAt examples.mtuInserted (cache.GetPath examples.mtu1500)
    = Some leaf
    ∧ tree.GetByOwner (tree.leafVariants leaf)
        (cache.Owner examples.mtu1500) = Some v
    ∧ tree.EqualSkipPath v examples.mtu1500 = true
    ∧ tree.Delete v = false.
Proof.
  apply (AddCacheUpdateRecursive_lookup examples.interfaceSchemas
           examples.emptyRoot examples.mtuInserted examples.mtu1500 true).
  reflexivity.
Defined.

(** X8. A new entry that lies no deeper below the nearest ancestor with
    a schema than that container has keys is a key level: it gets no
    schema and the schema service is not asked; deeper, its schema is
    what the schema service answers for its path, and an error of the
    service is the error returned. *)
Theorem newSharedEntryAttributes_key_level (tc : tree.TreeContext)
    (anc : list tree.Entry) (name : string) (sch : sdcpb.SchemaElem)
    (level : nat) (c : sdcpb.ContainerSchema) :
  tree.GetAncestorSchema anc = Ok (sch, level) →
  sdcpb.Schema sch = Some (sdcpb.SchemaElem_Container c) →
  (level ≤ length (sdcpb.Keys c) →
   tree.newSharedEntryAttributes tc anc name
   = Ok {| tree.pathElemName := name; tree.childs := [];
           tree.leafVariants := []; tree.schema := None;
           tree.choicesResolvers := [] |})
  ∧ (length (sdcpb.Keys c) < level →
     tree.newSharedEntryAttributes tc anc name
     = match tree.GetSchema tc
               (tree.Path anc
                  {| tree.pathElemName := name; tree.childs := [];
                     tree.leafVariants := []; tree.schema := None;
                     tree.choicesResolvers := [] |}) with
       | Ok s =>
           Ok {| tree.pathElemName := name; tree.childs := [];
                 tree.leafVariants := []; tree.schema := s;
                 tree.choicesResolvers :=
                   tree.initChoiceCasesResolvers s |}
       | Err e => Err e
       | Panic => Panic
       end).
Proof.
  intros Hanc Hsch. unfold tree.newSharedEntryAttributes.
  assert (Hroot : tree.IsRoot anc = false)
    by (by destruct anc).
  rewrite Hroot, Hanc. simpl. rewrite Hsch.
  split; intros Hl.
  - by rewrite bool_decide_true.
  - rewrite bool_decide_false by lia. simpl.
    by destruct (tree.GetSchema tc _).
Qed.

Lemma newSharedEntryAttributes_key_level_witness :
  tree.newSharedEntryAttributes examples.interfaceSchemas
    [examples.interface true; examples.scenarioC true] "eth1"
  = Ok {| tree.pathElemName := "eth1"; tree.childs := [];
          tree.leafVariants := []; tree.schema := None;
          tree.choicesResolvers := [] |}.
Proof.
  refine (proj1 (newSharedEntryAttributes_key_level
            examples.interfaceSchemas
            [examples.interface true; examples.scenarioC true] "eth1"
            _ 1 _ eq_refl eq_refl) _).
  simpl. lia.
Defined.

(** X9. [GetByOwner] on a branch adds to the variants it is given; the
    variants it adds have the owner asked for, and the variant of that
    owner at every entry that can be reached in the branch is among
    them. *)
Theorem GetByOwnerOfBranch_owner (s : tree.Entry) (owner : string)
    (acc : list tree.LeafEntry) :
  tree.GetByOwnerOfBranch s owner acc
  = acc ++ tree.GetByOwnerOfBranch s owner []
  ∧ (∀ v, v ∈ tree.GetByOwnerOfBranch s owner [] → tree.Owner v = owner)
  ∧ (∀ loc n v,
       tree.getAt s loc = Some n →
       tree.GetByOwner (tree.leafVariants n) owner = Some v →
       v ∈ tree.GetByOwnerOfBranch s owner []).
Proof.
  split; [apply GetByOwnerOfBranch_acc|]. split.
  - induction s as [name cs lv sch rs IH] using tree.Entry_induction.
    intros v. rewrite GetByOwnerOfBranch_flat. simpl.
    intros [Hv|Hv]%elem_of_app.
    + destruct (tree.GetByOwner lv owner) as [x|] eqn:E;
        [|by inversion Hv].
      apply list_elem_of_singleton in Hv as ->.
      by eapply GetByOwner_owner.
    + apply list_elem_of_In, in_flat_map in Hv as ([k c] & Hin & Hv).
      rewrite Forall_forall in IH.
      apply (IH (k, c)); [by apply list_elem_of_In|].
      by apply list_elem_of_In.
  - intros loc. revert s.
    induction loc as [|name loc IH]; intros s n v; simpl.
    + intros [= <-] Hv. rewrite GetByOwnerOfBranch_flat, Hv.
      apply elem_of_app. left. left.
    + destruct (tree.getChild (tree.childs s) name) as [c|] eqn:E;
        [|done].
      intros Hn Hv. rewrite GetByOwnerOfBranch_flat.
      apply elem_of_app. right.
      apply list_elem_of_In, in_flat_map. exists (name, c).
      split; [by apply list_elem_of_In, getChild_elem_of|].
      apply list_elem_of_In. by eapply IH.
Qed.

(** X10. After [MarkOwnerDelete] the variants that [GetByOwner] finds
    for the owner on the branch are the ones it found before, now all
    marked delete; what it finds for another owner is as before. *)
Theorem MarkOwnerDelete_marks_owner (s : tree.Entry) (o : string) :
  tree.GetByOwnerOfBranch (tree.MarkOwnerDelete s o) o []
  = map tree.MarkDelete (tree.GetByOwnerOfBranch s o [])
  ∧ (∀ v, v ∈ tree.GetByOwnerOfBranch (tree.MarkOwnerDelete s o) o [] →
          tree.Delete v = true)
  ∧ (∀ o', o' ≠ o →
           tree.GetByOwnerOfBranch (tree.MarkOwnerDelete s o) o' []
           = tree.GetByOwnerOfBranch s o' []).
Proof.
  assert (Hown : ∀ v, tree.Owner (tree.MarkDelete v) = tree.Owner v)
    by done.
  assert (H1 : ∀ s, tree.GetByOwnerOfBranch (tree.MarkOwnerDelete s o) o []
                    = map tree.MarkDelete (tree.GetByOwnerOfBranch s o [])).
  { clear s. intros s.
    induction s as [name cs lv sch rs IH] using tree.Entry_induction.
    rewrite (GetByOwnerOfBranch_flat (tree.MarkOwnerDelete _ _)),
      (GetByOwnerOfBranch_flat (tree.mkEntry _ _ _ _ _)).
    rewrite MarkOwnerDelete_unfold. simpl.
    rewrite (GetByOwner_markFirst_fmap _ _ _ Hown), map_app. f_equal.
    - by destruct (tree.GetByOwner lv o).
    - induction IH as [|[k c] cs Hc _ IHcs]; [done|]. simpl in *.
      by rewrite map_app, Hc, IHcs. }
  split; [apply H1|]. split.
  - rewrite H1. intros v Hv.
    apply list_elem_of_In, in_map_iff in Hv as (x & <- & _). done.
  - intros o' Hne.
    induction s as [name cs lv sch rs IH] using tree.Entry_induction.
    rewrite (GetByOwnerOfBranch_flat (tree.MarkOwnerDelete _ _)),
      (GetByOwnerOfBranch_flat (tree.mkEntry _ _ _ _ _)).
    rewrite MarkOwnerDelete_unfold. simpl.
    rewrite (GetByOwner_markFirst_other _ _ _ _ Hown Hne). f_equal.
    induction IH as [|[k c] cs Hc _ IHcs]; [done|]. simpl in *.
    by rewrite Hc, IHcs.
Qed.

(** X11. On a leaf, marking the variant of an owner delete and adding
    the update it holds again restores the leaf: the delete flag is
    clear, the flags new and updated are as they were, and no variant
    is added. *)
Theorem MarkOwnerDelete_then_same_update (tc : tree.TreeContext)
    (r : tree.Entry) (anc : list tree.Entry) (c : cache.Update)
    (new : bool) (v : tree.LeafEntry) :
  tree.childs r = [] →
  anc ≠ [] →
  length anc = length (cache.GetPath c) →
  tree.GetByOwner (tree.leafVariants r) (cache.Owner c) = Some v →
  tree.EqualSkipPath v c = true →
  tree.Delete v = false →
  tree.AddCacheUpdateRecursive tc
    (tree.MarkOwnerDelete r (cache.Owner c)) anc c new
  = Ok r.
Proof.
  intros Hcs Hanc Hlen Hv Heq Hdel.
  unfold tree.AddCacheUpdateRecursive.
  assert (tree.IsRoot anc = false) as -> by (by destruct anc).
  unfold tree.GetLevel. rewrite Path_length, Hlen.
  rewrite bool_decide_false by lia. rewrite drop_all.
  cbn [tree.addCacheUpdateFrom]. f_equal.
  rewrite MarkOwnerDelete_unfold. rewrite Hcs.
  destruct r as [name cs lv sch rs]. simpl in *. subst cs.
  unfold tree.withLeafVariants. simpl. f_equal.
  unfold tree.addLeafEntry.
  assert (Hown : ∀ x, tree.Owner (tree.MarkDelete x) = tree.Owner x)
    by done.
  rewrite (GetByOwner_markFirst_fmap _ _ _ Hown), Hv. simpl.
  assert (tree.EqualSkipPath (tree.MarkDelete v) c = true) as -> by done.
  clear Heq. revert Hv.
  induction lv as [|x lv IH]; simpl; [done|].
  destruct (decide (tree.Owner x = cache.Owner c)) as [Hx|Hx].
  - rewrite (bool_decide_true _ Hx). intros [= ->]. simpl.
    rewrite (bool_decide_true _ Hx). f_equal.
    destruct v; simpl in *; by subst.
  - rewrite (bool_decide_false _ Hx). intros H. simpl.
    rewrite (bool_decide_false _ Hx). f_equal. by apply IH.
Qed.

Lemma MarkOwnerDelete_then_same_update_witness :
  tree.AddCacheUpdateRecursive examples.interfaceSchemas
    (tree.MarkOwnerDelete
       (examples.leaf "mtu" "A" 10 "1500" true false false
          ["interface"; "eth0"; "mtu"]) "A")
    [examples.emptyRoot; examples.emptyRoot; examples.emptyRoot]
    examples.mtu1500Later false
  = Ok (examples.leaf "mtu" "A" 10 "1500" true false false
          ["interface"; "eth0"; "mtu"]).
Proof.
  by apply (MarkOwnerDelete_then_same_update examples.interfaceSchemas
              (examples.leaf "mtu" "A" 10 "1500" true false false
                 ["interface"; "eth0"; "mtu"])
              [examples.emptyRoot; examples.emptyRoot; examples.emptyRoot]
              examples.mtu1500Later false
              (examples.variant "A" 10 "1500" true false false)).
Defined.

(** X12. [GetHighestPrecedenceValueOfBranch] is at most [MaxInt32] and
    at most the priority value of every variant not marked delete at
    every entry that can be reached in the branch. *)
Theorem GetHighestPrecedenceValueOfBranch_bound (s : tree.Entry) :
  (tree.GetHighestPrecedenceValueOfBranch s ≤ tree.MaxInt32)%Z
  ∧ ∀ loc n v,
      tree.getAt s loc = Some n →
      v ∈ tree.leafVariants n →
      tree.Delete v = false →
      (tree.GetHighestPrecedenceValueOfBranch s ≤ tree.Priority v)%Z.
Proof.
  assert (Hstep : ∀ s,
    (tree.GetHighestPrecedenceValueOfBranch s ≤ tree.MaxInt32)%Z
    ∧ (tree.GetHighestPrecedenceValueOfBranch s
       ≤ tree.GetHighestPrecedenceValue (tree.leafVariants s))%Z
    ∧ ∀ k c, (k, c) ∈ tree.childs s →
             (tree.GetHighestPrecedenceValueOfBranch s
              ≤ tree.GetHighestPrecedenceValueOfBranch c)%Z).
  { intros s'. rewrite GetHighestPrecedenceValueOfBranch_unfold. cbn zeta.
    destruct (branchValues_le (tree.childs s') tree.MaxInt32) as [H1 H2].
    destruct (Z.ltb_spec
                (tree.GetHighestPrecedenceValue (tree.leafVariants s'))
                (tree.branchValues (tree.childs s') tree.MaxInt32)).
    - split; [lia|]. split; [lia|]. intros k c Hin.
      specialize (H2 k c Hin). lia.
    - split; [lia|]. split; [lia|]. intros k c Hin. by apply (H2 k c). }
  split; [apply Hstep|].
  intros loc. revert s. induction loc as [|name loc IH]; intros s n v; simpl.
  - intros [= <-] Hv Hd.
    destruct (Hstep s) as (_ & H & _).
    assert (Hlow : ∀ v, v ∈ tree.leafVariants s → tree.Delete v = false →
                   (tree.GetHighestPrecedenceValue (tree.leafVariants s)
                    ≤ tree.Priority v)%Z)
      by exact (proj1 (proj2 (GetHighestPrecedenceValue_fold
                                (tree.leafVariants s) tree.MaxInt32))).
    specialize (Hlow v Hv Hd). lia.
  - destruct (tree.getChild (tree.childs s) name) as [c|] eqn:E; [|done].
    intros Hn Hv Hd.
    destruct (Hstep s) as (_ & _ & H).
    specialize (H name c (getChild_elem_of _ _ _ E)).
    specialize (IH c n v Hn Hv Hd). lia.
Qed.

(** X13. The active children of an entry without schema are all its
    children; with a schema, a name of the skip set leads nowhere and
    every other name leads where it leads among all the children. *)
Theorem filterActiveChoiceCaseChilds_lookup (s : tree.Entry)
    (name : string) :
  tree.getChild (tree.filterActiveChoiceCaseChilds s) name =
  match tree.schema s with
  | None => tree.getChild (tree.childs s) name
  | Some _ =>
      if bool_decide (name ∈ tree.GetSkipElements (tree.choicesResolvers s))
      then None
      else tree.getChild (tree.childs s) name
  end.
Proof.
  unfold tree.filterActiveChoiceCaseChilds.
  destruct (tree.schema s); [|done].
  generalize (tree.GetSkipElements (tree.choicesResolvers s)) as skip.
  intros skip.
  induction (tree.childs s) as [|[k c] cs IH].
  { simpl. destruct (bool_decide (name ∈ skip)); reflexivity. }
  rewrite filter_cons. cbn [fst tree.getChild].
  destruct (decide (k = name)) as [->|Hk].
  - rewrite (bool_decide_true (name = name)) by done.
    destruct (decide (name ∈ skip)) as [Hin|Hin].
    + rewrite decide_False by (by intros H; apply H).
      rewrite IH. by rewrite (bool_decide_true _ Hin).
    + rewrite decide_True by done. cbn [tree.getChild].
      rewrite (bool_decide_true (name = name)) by done.
      by rewrite (bool_decide_false _ Hin).
  - rewrite (bool_decide_false _ Hk).
    destruct (decide (k ∉ skip)); cbn [tree.getChild];
      [rewrite (bool_decide_false _ Hk)|]; apply IH.
Qed.

(** ** Raw intent names *)

Section RawIntentNameFacts.
Import gostrings strconv datastore.

Lemma stripPrefix_app (prefix s : string) :
  stripPrefix prefix (prefix +:+ s) = Some s.
Proof.
  induction prefix as [|a prefix IH]; simpl; [done|].
  by rewrite Ascii.eqb_refl.
Qed.

Lemma Split_nonempty (s : string) (sep : ascii) : Split s sep ≠ [].
Proof.
  destruct s as [|a s]; simpl; [done|].
  destruct (Ascii.eqb a sep); [done|]. by destruct (Split s sep).
Qed.

Lemma Split_app (a b : string) (sep : ascii) :
  Split (a +:+ String sep b) sep = Split a sep ++ Split b sep.
Proof.
  induction a as [|x a IH]; simpl.
  - by rewrite Ascii.eqb_refl.
  - rewrite IH. destruct (Ascii.eqb x sep); [done|].
    pose proof (Split_nonempty a sep).
    by destruct (Split a sep).
Qed.

Lemma Join_Split (a : string) (sep : ascii) :
  Join (Split a sep) (String sep EmptyString) = a.
Proof.
  unfold Join. induction a as [|x a IH]; simpl; [done|].
  pose proof (Split_nonempty a sep).
  destruct (Split a sep) as [|p ps] eqn:E; [done|].
  destruct (Ascii.eqb_spec x sep) as [->|Hx].
  - change (String.concat (String sep "") ("" :: p :: ps))
      with (String sep (String.concat (String sep "") (p :: ps))).
    by rewrite IH.
  - destruct ps as [|q ps]; simpl in *; by rewrite <- IH.
Qed.

(** A decimal numeral has no separator in it. *)
Lemma Split_uint (u : Decimal.uint) :
  Split (NilEmpty.string_of_uint u) "_" = [NilEmpty.string_of_uint u].
Proof. induction u; simpl; [done|by rewrite IHu..]. Qed.

Lemma Split_decimal (z : Z) : Split (decimal z) "_" = [decimal z].
Proof.
  unfold decimal, NilZero.string_of_int, NilZero.string_of_uint.
  destruct (Z.to_int z) as [u|u]; destruct u; simpl;
    try done; by rewrite Split_uint.
Qed.

Lemma int_of_string_plus (r : string) :
  NilZero.int_of_string (String "+" r) = None.
Proof.
  unfold NilZero.int_of_string. simpl.
  by destruct (NilEmpty.uint_of_string r).
Qed.

Lemma int_of_string_decimal (z : Z) :
  NilZero.int_of_string (decimal z) = Some (Z.to_int z).
Proof.
  unfold decimal. apply NilZero.isi.
  - destruct z; simpl; [done| |done].
    intros [= H]. by apply DecimalPos.Unsigned.to_uint_nonnil in H.
  - destruct z; simpl; [done..|].
    intros [= H]. by apply DecimalPos.Unsigned.to_uint_nonnil in H.
Qed.

(** Parsing reads back what [%d] prints. *)
Lemma parse_decimal (fn : string) (z : Z) :
  (minInt64 ≤ z ≤ maxInt64)%Z → parse fn (decimal z) = Ok z.
Proof.
  intros Hz. unfold parse.
  assert (Hparsed :
    match decimal z with
    | String "+"%char digits =>
        option_map Decimal.Pos (NilZero.uint_of_string digits)
    | _ => NilZero.int_of_string (decimal z)
    end = Some (Z.to_int z)).
  { pose proof (int_of_string_decimal z) as H.
    destruct (decimal z) as [|a r] eqn:E; [done|].
    destruct (Ascii.eqb_spec a "+") as [->|Ha].
    - by rewrite int_of_string_plus in H.
    - rewrite <- H. clear -Ha.
      destruct a as [[] [] [] [] [] [] [] []]; try done. }
  rewrite Hparsed. cbn zeta. rewrite DecimalZ.of_to.
  destruct (Z.ltb_spec z minInt64); [lia|].
  destruct (Z.ltb_spec maxInt64 z); [lia|]. done.
Qed.

Lemma int32_id (z : Z) :
  (-2147483648 ≤ z ≤ 2147483647)%Z → int32 z = z.
Proof.
  intros Hz. unfold int32.
  rewrite Z.mod_small by lia. lia.
Qed.

Lemma decodeRawIntent_rawIntentName (upd : cache.Update) (name : string)
    (pr : Z) (rest : list string) :
  cache.GetPath upd = rawIntentName name pr :: rest →
  (-2147483648 ≤ pr ≤ 2147483647)%Z →
  decodeRawIntent upd
  = Ok {| sdcpb.IntentName := name; sdcpb.IntentPriority := pr;
          sdcpb.IntentUpdate := [] |}.
Proof.
  intros Hpath Hpr. unfold decodeRawIntent. rewrite Hpath.
  unfold rawIntentName, TrimPrefix. rewrite stripPrefix_app. simpl.
  change (name +:+ intentRawNameSep +:+ decimal pr)
    with (name +:+ String intentRawNameSepChar (decimal pr)).
  rewrite Split_app, Split_decimal.
  pose proof (Split_nonempty name intentRawNameSepChar) as Hne.
  rewrite length_app. simpl.
  rewrite bool_decide_false
    by (destruct (Split name intentRawNameSepChar); simpl; [done|lia]).
  rewrite last_snoc. simpl.
  unfold Atoi. rewrite parse_decimal
    by (unfold minInt64, maxInt64; lia).
  replace (length (Split name intentRawNameSepChar) + 1 - 1)
    with (length (Split name intentRawNameSepChar)) by lia.
  rewrite take_app_length.
  change intentRawNameSep with (String intentRawNameSepChar EmptyString).
  by rewrite Join_Split, int32_id.
Qed.

End RawIntentNameFacts.

Section ListRawIntentFacts.
Import datastore.

Lemma mapRes_Forall2 {A B : Type} (f : A → Res B) (l : list A)
    (r : list B) :
  mapRes f l = Ok r → Forall2 (λ x y, f x = Ok y) l r.
Proof.
  revert r. induction l as [|a l IH]; intros r; simpl.
  - intros [= <-]. constructor.
  - unfold mbind, Res_bind. destruct (f a) as [b| |] eqn:Hb; [|done..].
    destruct (mapRes f l) as [bs| |]; [|done..].
    intros [= <-]. constructor; [done|by apply IH].
Qed.

Lemma mapRes_all_Ok {A B : Type} (f : A → Res B) (l : list A) :
  (∀ x, x ∈ l → ∃ y, f x = Ok y) → ∃ r, mapRes f l = Ok r.
Proof.
  induction l as [|a l IH]; intros Hall; simpl; [by eexists|].
  destruct (Hall a) as [b Hb]; [left|].
  destruct IH as [bs Hbs]; [intros x Hx; apply Hall; by right|].
  exists (b :: bs). unfold mbind, Res_bind. by rewrite Hb, Hbs.
Qed.

Lemma ltb_asym (a b : string) :
  String.ltb a b = true → String.ltb b a = false.
Proof.
  unfold String.ltb. rewrite (String.compare_antisym b a).
  by destruct (String.compare a b).
Qed.

Lemma ltb_le_trans (a b c : string) :
  String.ltb b a = false → String.ltb c b = false →
  String.ltb c a = false.
Proof.
  unfold String.ltb. intros Hba Hcb.
  destruct (String.compare c a) eqn:Hca; try done.
  exfalso.
  destruct (String.compare b a) eqn:Hba'; try done.
  - apply String.compare_eq_iff in Hba' as ->. by rewrite Hca in Hcb.
  - assert (String.compare a b = Lt) as Hab
      by (rewrite String.compare_antisym, Hba'; done).
    assert (String.compare c b = Lt) as Hcb'.
    { pose proof (OrdersEx.String_as_OT.lt_strorder) as [_ Htrans].
      apply (Htrans c a b); done. }
    by rewrite Hcb' in Hcb.
Qed.

Lemma intentLess_asym (i j : sdcpb.Intent_) :
  intentLess j i = true → intentLess i j = false.
Proof.
  unfold intentLess.
  destruct (Z.eqb_spec (sdcpb.IntentPriority j) (sdcpb.IntentPriority i))
    as [Heq|Hne].
  - rewrite Heq, Z.eqb_refl. apply ltb_asym.
  - destruct (Z.eqb_spec (sdcpb.IntentPriority i) (sdcpb.IntentPriority j));
      [done|].
    intros H%Z.ltb_lt. apply Z.ltb_ge. lia.
Qed.

Lemma intentLess_le_trans (a b c : sdcpb.Intent_) :
  intentLess b a = false → intentLess c b = false →
  intentLess c a = false.
Proof.
  unfold intentLess.
  destruct (Z.eqb_spec (sdcpb.IntentPriority b) (sdcpb.IntentPriority a));
    destruct (Z.eqb_spec (sdcpb.IntentPriority c) (sdcpb.IntentPriority b));
    destruct (Z.eqb_spec (sdcpb.IntentPriority c) (sdcpb.IntentPriority a));
    rewrite ?Z.ltb_ge; try lia; try done.
  apply ltb_le_trans.
Qed.

Lemma insertIntent_elem_of (i x : sdcpb.Intent_) (l : list sdcpb.Intent_) :
  x ∈ insertIntent i l ↔ x = i ∨ x ∈ l.
Proof.
  induction l as [|j l IH]; simpl.
  - rewrite list_elem_of_singleton. split; [by left|].
    intros [?|H]; [done|by inversion H].
  - destruct (intentLess j i).
    + rewrite !elem_of_cons, IH. tauto.
    + rewrite !elem_of_cons. tauto.
Qed.

Lemma sortIntents_elem_of (x : sdcpb.Intent_) (l : list sdcpb.Intent_) :
  x ∈ sortIntents l ↔ x ∈ l.
Proof.
  induction l as [|j l IH]; simpl; [done|].
  rewrite insertIntent_elem_of, elem_of_cons, IH. tauto.
Qed.

Lemma insertIntent_sorted (i : sdcpb.Intent_) (l : list sdcpb.Intent_) :
  Sorted.StronglySorted (λ a b, intentLess b a = false) l →
  Sorted.StronglySorted (λ a b, intentLess b a = false) (insertIntent i l).
Proof.
  induction 1 as [|j l Hl IH Hj]; simpl.
  - constructor; [constructor|constructor].
  - destruct (intentLess j i) eqn:Hji.
    + constructor; [done|].
      apply Forall_forall. intros x Hx.
      apply insertIntent_elem_of in Hx as [->|Hx].
      * by apply intentLess_asym.
      * rewrite Forall_forall in Hj. by apply Hj.
    + constructor; [by constructor|].
      constructor; [done|].
      rewrite Forall_forall in Hj |- *. intros x Hx.
      eapply intentLess_le_trans; [exact Hji|by apply Hj].
Qed.

Lemma sortIntents_sorted (l : list sdcpb.Intent_) :
  Sorted.StronglySorted (λ a b, intentLess b a = false) (sortIntents l).
Proof.
  induction l as [|i l IH]; simpl; [constructor|].
  by apply insertIntent_sorted.
Qed.

Lemma saveRawIntent_store (env : Env) (d d' : Datastore) (owner : string)
    (req : sdcpb.SetIntentRequest) :
  saveRawIntent env d owner req = (Ok (), d') →
  ∃ upd,
    cache.GetPath upd = [rawIntentName owner (sdcpb.ReqPriority req)]
    ∧ d' = withCache d
             (setStore (cacheClient d) Store_INTENTS
                (<[("", [rawIntentName owner (sdcpb.ReqPriority req)])
                   := upd]> (intents (cacheClient d)))).
Proof.
  unfold saveRawIntent, NewUpdateNamed, Modify.
  destruct (proto_Marshal env req) as [b| |]; [|by intros [= ]..].
  destruct (proto_MarshalValue env _) as [vb| |]; simpl;
    [|by intros [= ]..].
  destruct (Modify_fails _ _ _ _); [by intros [= ]|].
  intros [= <-].
  exists (cache.NewUpdate
            [rawIntentName owner (sdcpb.ReqPriority req)] vb 0 "" 0).
  split; reflexivity.
Qed.

Lemma ReadAll_elem_of (c : Cache) (s : Store) (u : cache.Update) :
  u ∈ ReadAll c s ↔ ∃ k, getStore c s !! k = Some u.
Proof.
  unfold ReadAll. rewrite list_elem_of_fmap. split.
  - intros ([k v] & -> & Hin%elem_of_map_to_list). by exists k.
  - intros [k Hk]. exists (k, u). split; [done|].
    by apply elem_of_map_to_list.
Qed.

Lemma getRawIntent_other (env : Env) (d d' : Datastore)
    (owner owner' : string) (pr pr' : Z) :
  (∀ k, k ≠ ("", [rawIntentName owner pr]) →
        intents (cacheClient d') !! k = intents (cacheClient d) !! k) →
  rawIntentName owner' pr' ≠ rawIntentName owner pr →
  getRawIntent env d' owner' pr' = getRawIntent env d owner' pr'.
Proof.
  intros Hother Hne. unfold getRawIntent, Read. simpl.
  rewrite Hother; [done|]. intros Hk. apply Hne.
  exact (f_equal (λ k : string * list string, default "" (head k.2)) Hk).
Qed.

Lemma rawIntentName_inj (name name' : string) (pr pr' : Z) :
  (-2147483648 ≤ pr ≤ 2147483647)%Z →
  (-2147483648 ≤ pr' ≤ 2147483647)%Z →
  rawIntentName name' pr' = rawIntentName name pr →
  name' = name ∧ pr' = pr.
Proof.
  intros Hpr Hpr' Heq.
  pose proof (decodeRawIntent_rawIntentName
                (cache.NewUpdate [rawIntentName name pr] "" 0 "" 0)
                name pr [] eq_refl Hpr) as H1.
  pose proof (decodeRawIntent_rawIntentName
                (cache.NewUpdate [rawIntentName name pr] "" 0 "" 0)
                name' pr' [] (f_equal (λ x, [x]) (eq_sym Heq)) Hpr') as H2.
  rewrite H1 in H2. by injection H2 as -> ->.
Qed.

End ListRawIntentFacts.

(** X14. The name under which a raw intent is stored gives back the
    intent it was built from: for every intent name, with underscores
    or without, and every priority of 32 bits, the decoding that
    [listRawIntent] does of [rawIntentName] gives that name and that
    priority; so two intents only share a name where they are the
    same. *)
Theorem rawIntentName_decodes (upd : cache.Update) (name : string) (pr : Z) :
  (-2147483648 ≤ pr ≤ 2147483647)%Z →
  cache.GetPath upd = [datastore.rawIntentName name pr] →
  datastore.decodeRawIntent upd
  = Ok {| sdcpb.IntentName := name; sdcpb.IntentPriority := pr;
          sdcpb.IntentUpdate := [] |}
  ∧ ∀ name' pr',
      (-2147483648 ≤ pr' ≤ 2147483647)%Z →
      datastore.rawIntentName name' pr' = datastore.rawIntentName name pr →
      name' = name ∧ pr' = pr.
Proof.
  intros Hpr Hpath. split.
  - by eapply decodeRawIntent_rawIntentName.
  - intros name' pr' Hpr' Heq. by apply rawIntentName_inj.
Qed.

Lemma rawIntentName_decodes_witness :
  datastore.decodeRawIntent
    (cache.NewUpdate [datastore.rawIntentName "leaf_spine_a" (-7)]
       "" 0 "" 0)
  = Ok {| sdcpb.IntentName := "leaf_spine_a"; sdcpb.IntentPriority := -7;
          sdcpb.IntentUpdate := [] |}.
Proof.
  apply (rawIntentName_decodes
           (cache.NewUpdate [datastore.rawIntentName "leaf_spine_a" (-7)]
              "" 0 "" 0) "leaf_spine_a" (-7)); [lia|reflexivity].
Defined.

(** X15. After [deleteRawIntent] has succeeded, [getRawIntent] of the
    same intent name and priority finds no intent, and of every other
    name and priority (of 32 bits) it gives what it gave before. *)
Theorem raw_intent_deleted (env : datastore.Env)
    (d d' : datastore.Datastore) (owner : string) (pr : Z) :
  (-2147483648 ≤ pr ≤ 2147483647)%Z →
  datastore.deleteRawIntent env d owner pr = (Ok (), d') →
  datastore.getRawIntent env d' owner pr = Err datastore.ErrIntentNotFound
  ∧ ∀ owner' pr',
      (-2147483648 ≤ pr' ≤ 2147483647)%Z →
      (owner', pr') ≠ (owner, pr) →
      datastore.getRawIntent env d' owner' pr'
      = datastore.getRawIntent env d owner' pr'.
Proof.
  intros Hpr. unfold datastore.deleteRawIntent, datastore.Modify.
  destruct (datastore.Modify_fails _ _ _ _); [by intros [= ]|].
  intros [= <-]. split.
  - unfold datastore.getRawIntent, datastore.Read,
      datastore.modifyStore. simpl.
    by rewrite lookup_delete_eq.
  - intros owner' pr' Hpr' Hne.
    apply (getRawIntent_other env _ _ owner owner' pr pr').
    + intros k Hk. unfold datastore.modifyStore. simpl.
      by rewrite lookup_delete_ne.
    + intros Heq. apply Hne.
      by destruct (rawIntentName_inj owner owner' pr pr' Hpr Hpr' Heq)
        as [-> ->].
Qed.

Lemma Forall2_elem_of_l {A B : Type} (P : A → B → Prop) (l : list A)
    (r : list B) (x : A) :
  Forall2 P l r → x ∈ l → ∃ y, y ∈ r ∧ P x y.
Proof.
  induction 1 as [|a b l r Hab _ IH]; [by inversion 1|].
  intros [->|Hx]%elem_of_cons.
  - exists b. split; [left|done].
  - destruct (IH Hx) as (y & Hy & HP). exists y. split; [by right|done].
Qed.

Lemma Forall2_elem_of_r {A B : Type} (P : A → B → Prop) (l : list A)
    (r : list B) (y : B) :
  Forall2 P l r → y ∈ r → ∃ x, x ∈ l ∧ P x y.
Proof.
  induction 1 as [|a b l r Hab _ IH]; [by inversion 1|].
  intros [->|Hy]%elem_of_cons.
  - exists a. split; [left|done].
  - destruct (IH Hy) as (x & Hx & HP). exists x. split; [by right|done].
Qed.

Lemma raw_intent_deleted_witness :
  datastore.getRawIntent (examples.env None [])
    (datastore.deleteRawIntent (examples.env None [])
       (datastore.saveRawIntent (examples.env None []) examples.dev1 "A"
          examples.setMtu).2 "A" 10).2 "A" 10
  = Err datastore.ErrIntentNotFound.
Proof.
  refine (proj1 (raw_intent_deleted (examples.env None []) _ _ "A" 10
                   _ _)); [lia|reflexivity].
Defined.

(** X16. Where [listRawIntent] succeeded, it succeeds again after
    [saveRawIntent] has stored an intent (of a priority of 32 bits):
    the list is in the order of priority, then name; the intent stored
    is in it under its name and priority, and every other intent in it
    was listed before. *)
Theorem listRawIntent_after_save (env : datastore.Env)
    (d d' : datastore.Datastore) (owner : string)
    (req : sdcpb.SetIntentRequest) (l : list sdcpb.Intent_) :
  (-2147483648 ≤ sdcpb.ReqPriority req ≤ 2147483647)%Z →
  datastore.listRawIntent d = Ok l →
  datastore.saveRawIntent env d owner req = (Ok (), d') →
  ∃ l',
    datastore.listRawIntent d' = Ok l'
    ∧ Sorted.StronglySorted
        (λ a b, datastore.intentLess b a = false) l'
    ∧ {| sdcpb.IntentName := owner;
         sdcpb.IntentPriority := sdcpb.ReqPriority req;
         sdcpb.IntentUpdate := [] |} ∈ l'
    ∧ ∀ i, i ∈ l' →
           i = {| sdcpb.IntentName := owner;
                  sdcpb.IntentPriority := sdcpb.ReqPriority req;
                  sdcpb.IntentUpdate := [] |}
           ∨ i ∈ l.
Proof.
  intros Hpr Hlist Hsave.
  set (saved := {| sdcpb.IntentName := owner;
                   sdcpb.IntentPriority := sdcpb.ReqPriority req;
                   sdcpb.IntentUpdate := [] |}).
  destruct (saveRawIntent_store _ _ _ _ _ Hsave) as (upd & Hpath & ->).
  pose proof (decodeRawIntent_rawIntentName upd owner
                (sdcpb.ReqPriority req) [] Hpath Hpr) as Hupd.
  fold saved in Hupd.
  (* what was listed before *)
  assert (Hbefore : ∀ u,
            u ∈ datastore.ReadAll (datastore.cacheClient d)
                  datastore.Store_INTENTS →
            ∃ i, datastore.decodeRawIntent u = Ok i ∧ i ∈ l).
  { unfold datastore.listRawIntent in Hlist. cbn zeta in Hlist.
    destruct (datastore.ReadAll _ _) as [|u0 upds] eqn:E.
    { by inversion 1. }
    rewrite bool_decide_false in Hlist by done.
    unfold mbind, Res_bind in Hlist.
    destruct (datastore.mapRes _ _) as [ints| |] eqn:Hmap; [|done..].
    injection Hlist as <-. apply mapRes_Forall2 in Hmap.
    intros u Hu.
    destruct (Forall2_elem_of_l _ _ _ _ Hmap Hu) as (i & Hi & Hdec).
    exists i. split; [done|by apply sortIntents_elem_of]. }
  (* what the store holds after *)
  assert (Hafter : ∀ u,
            u ∈ datastore.ReadAll
                  (datastore.cacheClient
                     (datastore.withCache d
                        (datastore.setStore (datastore.cacheClient d)
                           datastore.Store_INTENTS
                           (<[("", [datastore.rawIntentName owner
                                      (sdcpb.ReqPriority req)]) := upd]>
                              (datastore.intents
                                 (datastore.cacheClient d))))))
                  datastore.Store_INTENTS
            ↔ u = upd
              ∨ ∃ k, k ≠ ("", [datastore.rawIntentName owner
                                  (sdcpb.ReqPriority req)])
                     ∧ datastore.intents (datastore.cacheClient d) !! k
                       = Some u).
  { intros u. rewrite ReadAll_elem_of. simpl. split.
    - intros [k Hk].
      destruct (decide (k = ("", [datastore.rawIntentName owner
                                    (sdcpb.ReqPriority req)])))
        as [->|Hne].
      + rewrite lookup_insert_eq in Hk. left. congruence.
      + rewrite lookup_insert_ne in Hk by done. right. by exists k.
    - intros [->|(k & Hne & Hk)].
      + eexists. by rewrite lookup_insert_eq.
      + exists k. by rewrite lookup_insert_ne. }
  assert (Hdec : ∀ u i,
            u ∈ datastore.ReadAll
                  (datastore.cacheClient
                     (datastore.withCache d
                        (datastore.setStore (datastore.cacheClient d)
                           datastore.Store_INTENTS
                           (<[("", [datastore.rawIntentName owner
                                      (sdcpb.ReqPriority req)]) := upd]>
                              (datastore.intents
                                 (datastore.cacheClient d))))))
                  datastore.Store_INTENTS →
            datastore.decodeRawIntent u = Ok i →
            i = saved ∨ i ∈ l).
  { intros u i [->|(k & _ & Hk)]%Hafter Hi.
    - left. congruence.
    - right. destruct (Hbefore u) as (i' & Hi' & Hin).
      + apply ReadAll_elem_of. by exists k.
      + congruence. }
  destruct (mapRes_all_Ok datastore.decodeRawIntent
              (datastore.ReadAll
                 (datastore.cacheClient
                    (datastore.withCache d
                       (datastore.setStore (datastore.cacheClient d)
                          datastore.Store_INTENTS
                          (<[("", [datastore.rawIntentName owner
                                     (sdcpb.ReqPriority req)]) := upd]>
                             (datastore.intents
                                (datastore.cacheClient d))))))
                 datastore.Store_INTENTS))
    as [ints Hints].
  { intros u [->|(k & _ & Hk)]%Hafter.
    - by exists saved.
    - destruct (Hbefore u) as (i & Hi & _); [|by exists i].
      apply ReadAll_elem_of. by exists k. }
  pose proof (mapRes_Forall2 _ _ _ Hints) as HF.
  assert (Hin : upd ∈ datastore.ReadAll
                  (datastore.cacheClient
                     (datastore.withCache d
                        (datastore.setStore (datastore.cacheClient d)
                           datastore.Store_INTENTS
                           (<[("", [datastore.rawIntentName owner
                                      (sdcpb.ReqPriority req)]) := upd]>
                              (datastore.intents
                                 (datastore.cacheClient d))))))
                  datastore.Store_INTENTS)
    by (apply Hafter; by left).
  exists (datastore.sortIntents ints). split; [|split; [|split]].
  - unfold datastore.listRawIntent. cbn zeta.
    rewrite bool_decide_false.
    + unfold mbind, Res_bind. by rewrite Hints.
    + intros Hlen. apply nil_length_inv in Hlen.
      rewrite Hlen in Hin. by inversion Hin.
  - apply sortIntents_sorted.
  - apply sortIntents_elem_of.
    destruct (Forall2_elem_of_l _ _ _ _ HF Hin) as (i & Hi & Hd).
    congruence.
  - intros i Hi. apply (proj1 (sortIntents_elem_of _ _)) in Hi.
    destruct (Forall2_elem_of_r _ _ _ _ HF Hi) as (u & Hu & Hd).
    by eapply Hdec.
Qed.

Lemma listRawIntent_after_save_witness :
  ∃ l',
    datastore.listRawIntent
      (datastore.saveRawIntent (examples.env None []) examples.dev1 "A"
         examples.setMtu).2 = Ok l'
    ∧ {| sdcpb.IntentName := "A"; sdcpb.IntentPriority := 10;
         sdcpb.IntentUpdate := [] |} ∈ l'.
Proof.
  destruct (listRawIntent_after_save (examples.env None []) examples.dev1
              (datastore.saveRawIntent (examples.env None [])
                 examples.dev1 "A" examples.setMtu).2
              "A" examples.setMtu [])
    as (l' & Hl & _ & Hin & _).
  - simpl. lia.
  - reflexivity.
  - reflexivity.
  - exists l'. split; [exact Hl|exact Hin].
Defined.

(** X17. After [saveRawIntent] has succeeded, [getRawIntent] of every
    other intent name and priority (of 32 bits) gives what it gave
    before: an intent is only overwritten by one of its own name and
    priority. *)
Theorem raw_intent_save_keeps_others (env : datastore.Env)
    (d d' : datastore.Datastore) (owner : string)
    (req : sdcpb.SetIntentRequest) :
  (-2147483648 ≤ sdcpb.ReqPriority req ≤ 2147483647)%Z →
  datastore.saveRawIntent env d owner req = (Ok (), d') →
  ∀ owner' pr',
    (-2147483648 ≤ pr' ≤ 2147483647)%Z →
    (owner', pr') ≠ (owner, sdcpb.ReqPriority req) →
    datastore.getRawIntent env d' owner' pr'
    = datastore.getRawIntent env d owner' pr'.
Proof.
  intros Hpr Hsave owner' pr' Hpr' Hne.
  destruct (saveRawIntent_store _ _ _ _ _ Hsave) as (upd & _ & ->).
  apply (getRawIntent_other env _ _ owner owner' (sdcpb.ReqPriority req)
           pr').
  - intros k Hk. simpl. by rewrite lookup_insert_ne.
  - intros Heq. apply Hne.
    by destruct (rawIntentName_inj owner owner' (sdcpb.ReqPriority req)
                   pr' Hpr Hpr' Heq) as [-> ->].
Qed.

Lemma raw_intent_save_keeps_others_witness :
  datastore.getRawIntent (examples.env None [])
    (datastore.saveRawIntent (examples.env None [])
       (datastore.saveRawIntent (examples.env None []) examples.dev1 "A"
          examples.setMtu).2 "B" examples.setMtu).2 "A" 10
  = datastore.getRawIntent (examples.env None [])
      (datastore.saveRawIntent (examples.env None []) examples.dev1 "A"
         examples.setMtu).2 "A" 10.
Proof.
  apply (raw_intent_save_keeps_others (examples.env None [])
           (datastore.saveRawIntent (examples.env None []) examples.dev1
              "A" examples.setMtu).2 _ "B" examples.setMtu).
  - simpl. lia.
  - reflexivity.
  - lia.
  - intros [= ].
Defined.

(** ** The intent transaction: locking, pushing and persisting *)

Section TransactionFacts.
Import datastore.

Lemma firstError_Ok {A : Type} (f : A → option string) (l : list A) :
  firstError f l = Ok () → ∀ x, x ∈ l → f x = None.
Proof.
  induction l as [|a l IH]; simpl; [by inversion 2|].
  destruct (f a) eqn:Ha; [done|].
  intros Hl x [->|Hx]%elem_of_cons; [done|by apply IH].
Qed.

Lemma firstError_not_Panic {A : Type} (f : A → option string)
    (l : list A) :
  firstError f l ≠ Panic.
Proof. induction l as [|a l IH]; simpl; [done|]. by destruct (f a). Qed.

Lemma saveRawIntent_fails (env : Env) (d d' : Datastore) (owner : string)
    (req : sdcpb.SetIntentRequest) (r : Res ()) :
  saveRawIntent env d owner req = (r, d') → r ≠ Ok () → d' = d.
Proof.
  unfold saveRawIntent, NewUpdateNamed, Modify, mbind, Res_bind.
  repeat case_match; intros [= <- <-]; done.
Qed.

Lemma Modify_fails_same (env : Env) (d d' : Datastore) (opts : Opts)
    (deletes : list (list string)) (updates : list cache.Update)
    (r : Res ()) :
  Modify env d opts deletes updates = (r, d') → r ≠ Ok () → d' = d.
Proof.
  unfold Modify. destruct (Modify_fails _ _ _ _); intros [= <- <-]; done.
Qed.

Lemma Modify_frame (env : Env) (d d' : Datastore) (opts : Opts)
    (deletes : list (list string)) (updates : list cache.Update)
    (r : Res ()) :
  Modify env d opts deletes updates = (r, d') →
  Name d' = Name d ∧ sbi d' = sbi d.
Proof.
  unfold Modify. destruct (Modify_fails _ _ _ _); by intros [= <- <-].
Qed.

Lemma saveRawIntent_frame (env : Env) (d d' : Datastore) (owner : string)
    (req : sdcpb.SetIntentRequest) (r : Res ()) :
  saveRawIntent env d owner req = (r, d') →
  Name d' = Name d ∧ sbi d' = sbi d.
Proof.
  unfold saveRawIntent, NewUpdateNamed, mbind, Res_bind.
  repeat case_match; try (by intros [= <- <-]).
  all: intros Hmod; by eapply Modify_frame.
Qed.

Lemma setCandidate_Name (env : Env) (d d' : Datastore)
    (req : sdcpb.SetDataRequest) (r : Res ()) :
  setCandidate env d req = (r, d') → Name d' = Name d.
Proof.
  unfold setCandidate. destruct (setCandidate_fails _ _ _);
    by intros [= <- <-].
Qed.

Lemma applyIntent_Name (env : Env) (d d' : Datastore) (cand : string)
    (priority : Z) (sdreq : sdcpb.SetDataRequest) (r : Res ()) :
  applyIntent env d cand priority sdreq = (r, d') → Name d' = Name d.
Proof.
  unfold applyIntent, sbi_Set.
  repeat case_match; by intros [= <- <-].
Qed.

Lemma saveRawIntent_getRawIntent (env : Env) (d d' : Datastore)
    (owner : string) (req : sdcpb.SetIntentRequest) :
  (∀ b, proto_Marshal env req = Ok b → proto_Unmarshal env b = Ok req) →
  (∀ b vb, proto_Marshal env req = Ok b →
           proto_MarshalValue env (sdcpb.TypedValue_BytesVal b) = Ok vb →
           proto_UnmarshalValue env vb = Ok (sdcpb.TypedValue_BytesVal b)) →
  saveRawIntent env d owner req = (Ok (), d') →
  getRawIntent env d' owner (sdcpb.ReqPriority req) = Ok req.
Proof.
  intros Hreq Hval. unfold saveRawIntent.
  destruct (proto_Marshal env req) as [b| |] eqn:Hb; [|by intros [= ]..].
  unfold NewUpdateNamed.
  destruct (proto_MarshalValue env _) as [vb| |] eqn:Hvb;
    simpl; [|by intros [= ]..].
  unfold Modify.
  destruct (Modify_fails _ _ _ _); [by intros [= ]|].
  intros [= <-]. unfold getRawIntent, Read, modifyStore. simpl.
  rewrite lookup_insert_eq. simpl. unfold UpdateValue. simpl.
  rewrite (Hval b vb eq_refl Hvb). simpl. by apply Hreq.
Qed.

End TransactionFacts.

(** X18. [SetIntent] leaves the intent mutex as it found it: held by
    another request, the request is refused with the datastore
    untouched; free, it is free again when [SetIntent] returns, whatever
    the creation of the candidate, the update path and the delete path
    did. *)
Theorem SetIntent_releases_mutex (env : datastore.Env)
    (d : datastore.Datastore) (req : sdcpb.SetIntentRequest) :
  datastore.intentMutex (datastore.SetIntent env d req).2
  = datastore.intentMutex d
  ∧ (datastore.intentMutex d = true →
     ∃ e, datastore.SetIntent env d req = (Err e, d)).
Proof.
  unfold datastore.SetIntent, datastore.SetIntentWith.
  destruct (datastore.intentMutex d) eqn:Hm; [by eauto|].
  split; [|done].
  destruct (datastore.CreateCandidate _ _ _) as [[?| |] d1]; [|done..].
  by repeat case_match.
Qed.

(** X19. Where the candidate can be created and deleted, no candidate
    of the name that [SetIntent] made up is left when it returns,
    whether the update path or the delete path succeeded or failed;
    and where the candidate could not be created, the error is the one
    of the creation and the datastore is as it was. *)
Theorem SetIntent_candidate_removed (env : datastore.Env)
    (d : datastore.Datastore) (req : sdcpb.SetIntentRequest) :
  datastore.intentMutex d = false →
  let candidateName :=
    sdcpb.Intent req +:+ "-" +:+ datastore.decimal (datastore.now env) in
  let ds := {| sdcpb.DSType := sdcpb.Type_CANDIDATE;
               sdcpb.DSName := candidateName;
               sdcpb.DSOwner := sdcpb.Intent req;
               sdcpb.DSPriority := sdcpb.ReqPriority req |} in
  (datastore.CreateCandidate_fails env ds = None →
   datastore.DeleteCandidate_fails env candidateName = None →
   datastore.candidates
     (datastore.cacheClient (datastore.SetIntent env d req).2)
   !! candidateName = None)
  ∧ (∀ e, datastore.CreateCandidate_fails env ds = Some e →
          datastore.SetIntent env d req = (Err e, d)).
Proof.
  intros Hm candidateName ds. split.
  - intros Hc Hd.
    unfold datastore.SetIntent, datastore.SetIntentWith,
      datastore.CreateCandidate, datastore.DeleteCandidate.
    rewrite Hm. fold candidateName. fold ds. rewrite Hc, Hd.
    repeat case_match; simpl; by rewrite lookup_delete_eq.
  - intros e He.
    unfold datastore.SetIntent, datastore.SetIntentWith,
      datastore.CreateCandidate.
    rewrite Hm. fold candidateName. fold ds. rewrite He.
    destruct d; simpl in *. by subst.
Qed.

Lemma SetIntent_candidate_removed_witness :
  datastore.candidates
    (datastore.cacheClient
       (datastore.SetIntent (examples.env (Some "commit failed") [])
          examples.dev1 examples.setMtu).2)
  !! "A-1700000000" = None.
Proof.
  refine (proj1 (SetIntent_candidate_removed
                   (examples.env (Some "commit failed") []) examples.dev1
                   examples.setMtu _) _ _); reflexivity.
Defined.

(** X20. [applyIntent] writes nothing to the cache, and sends at most
    one request to the southbound target: only under a candidate name
    that is not empty, only after every update passed the validation of
    the must statements and of the leafrefs, only where there is an
    update or a delete, and what it sends are the updates and the
    deletes of the request, without replaces. Where it fails nothing is
    sent. *)
Theorem applyIntent_pushes_validated (env : datastore.Env)
    (d d' : datastore.Datastore) (candidateName : string) (priority : Z)
    (sdreq : sdcpb.SetDataRequest) (r : Res ()) :
  datastore.applyIntent env d candidateName priority sdreq = (r, d') →
  datastore.cacheClient d' = datastore.cacheClient d
  ∧ (r ≠ Ok () → d' = d)
  ∧ (candidateName = "" → r = Err "missing candidate name")
  ∧ (d' = d
     ∨ (datastore.sbi d'
        = datastore.sbi d
          ++ [ {| sdcpb.SDName := ""; sdcpb.SDDatastore := None;
                  sdcpb.SDUpdate := sdcpb.SDUpdate sdreq;
                  sdcpb.SDReplace := [];
                  sdcpb.SDDelete := sdcpb.SDDelete sdreq |} ]
        ∧ r = Ok ()
        ∧ candidateName ≠ ""
        ∧ (sdcpb.SDUpdate sdreq ≠ [] ∨ sdcpb.SDDelete sdreq ≠ [])
        ∧ ∀ upd, upd ∈ sdcpb.SDUpdate sdreq →
            datastore.validateMustStatement env (datastore.cacheClient d)
              candidateName (sdcpb.UpdatePath upd) = None
            ∧ datastore.validateLeafRef env (datastore.cacheClient d) upd
                candidateName = None)).
Proof.
  unfold datastore.applyIntent, datastore.sbi_Set.
  destruct (bool_decide (candidateName = "")) eqn:Hc.
  { intros [= <- <-]. by repeat split; [..|left]. }
  apply bool_decide_eq_false in Hc.
  destruct (datastore.firstError _ _) as [[]| |] eqn:Hmust;
    [|intros [= <- <-]; by repeat split; [..|left]..].
  destruct (datastore.firstError (λ upd, datastore.validateLeafRef _ _ _ _)
              _) as [[]| |] eqn:Hleaf;
    [|intros [= <- <-]; by repeat split; [..|left]..].
  destruct (bool_decide _) eqn:Hlen;
    [|intros [= <- <-]; by repeat split; [..|left]].
  destruct (datastore.sbi_Set_fails env _);
    intros [= <- <-]; [by repeat split; [..|left]|].
  split; [done|]. split; [done|]. split; [done|]. right.
  split; [done|]. split; [done|]. split; [done|]. split.
  - apply bool_decide_eq_true in Hlen. simpl in Hlen.
    destruct (sdcpb.SDUpdate sdreq); [|by left].
    destruct (sdcpb.SDDelete sdreq); [simpl in Hlen; lia|by right].
  - intros upd Hupd. split.
    + exact (firstError_Ok _ _ Hmust upd Hupd).
    + exact (firstError_Ok _ _ Hleaf upd Hupd).
Qed.

Lemma applyIntent_pushes_validated_witness :
  datastore.cacheClient
    (datastore.applyIntent (examples.env None []) examples.dev1 "A-1" 10
       examples.setName).2
  = datastore.cacheClient examples.dev1.
Proof.
  refine (proj1 (applyIntent_pushes_validated (examples.env None [])
                   examples.dev1 _ "A-1" 10 examples.setName (Ok ()) _)).
  reflexivity.
Defined.

(** The stores, the name and the southbound target across the steps of
    [SetIntentUpdate] *)
Ltac transaction_frames :=
  repeat match goal with
    | H : datastore.setCandidate _ _ _ = _ |- _ =>
        pose proof (setCandidate_stores _ _ _ _ _
                      datastore.Store_INTENDED H) as [? ?];
        pose proof (setCandidate_stores _ _ _ _ _
                      datastore.Store_CONFIG H) as [? _];
        pose proof (setCandidate_stores _ _ _ _ _
                      datastore.Store_INTENTS H) as [? _];
        pose proof (setCandidate_Name _ _ _ _ _ H);
        clear H
    | H : datastore.Modify _ _ (datastore.mkOpts datastore.Store_INTENDED
                                  _ _) _ _ = _ |- _ =>
        pose proof (Modify_other_stores _ _ _ _ _ _ _
                      datastore.Store_CONFIG H ltac:(done));
        pose proof (Modify_other_stores _ _ _ _ _ _ _
                      datastore.Store_INTENTS H ltac:(done));
        pose proof (Modify_frame _ _ _ _ _ _ _ H) as [? ?];
        pose proof (Modify_fails_same _ _ _ _ _ _ _ H);
        clear H
    | H : datastore.Modify _ _ (datastore.mkOpts datastore.Store_CONFIG
                                  _ _) _ _ = _ |- _ =>
        pose proof (Modify_other_stores _ _ _ _ _ _ _
                      datastore.Store_INTENDED H ltac:(done));
        pose proof (Modify_other_stores _ _ _ _ _ _ _
                      datastore.Store_INTENTS H ltac:(done));
        pose proof (Modify_frame _ _ _ _ _ _ _ H) as [? ?];
        pose proof (Modify_fails_same _ _ _ _ _ _ _ H);
        clear H
    | H : datastore.Modify _ _ (datastore.mkOpts datastore.Store_INTENTS
                                  _ _) _ _ = _ |- _ =>
        pose proof (Modify_other_stores _ _ _ _ _ _ _
                      datastore.Store_INTENDED H ltac:(done));
        pose proof (Modify_other_stores _ _ _ _ _ _ _
                      datastore.Store_CONFIG H ltac:(done));
        pose proof (Modify_frame _ _ _ _ _ _ _ H) as [? ?];
        pose proof (Modify_fails_same _ _ _ _ _ _ _ H);
        clear H
    | H : datastore.saveRawIntent _ _ _ _ = _ |- _ =>
        pose proof (saveRawIntent_frame _ _ _ _ _ _ H) as [? ?];
        pose proof (saveRawIntent_fails _ _ _ _ _ _ H);
        clear H
    end;
  simpl in *.

(** X21. When [SetIntentUpdate] fails while it persists the result, in
    the intended store, the running config store or the intents store,
    the request has passed [applyIntent] and what that sent to the
    southbound target stays sent; the intents store is as it was;
    the running config store is as it was unless the failure is the one
    of the raw intent; and where it is the intended store that failed,
    the intended store is as it was too. *)
Theorem SetIntentUpdate_fails_while_persisting (env : datastore.Env)
    (d d' : datastore.Datastore) (req : sdcpb.SetIntentRequest)
    (candidateName : string) (site : datastore.Site) (e : string) :
  datastore.SetIntentUpdate env d req candidateName
  = (datastore.Failure site e, d') →
  site = datastore.AtIntendedStore ∨ site = datastore.AtConfigStore
  ∨ site = datastore.AtRawIntent →
  datastore.intents (datastore.cacheClient d')
  = datastore.intents (datastore.cacheClient d)
  ∧ (site = datastore.AtIntendedStore →
     datastore.intended (datastore.cacheClient d')
     = datastore.intended (datastore.cacheClient d))
  ∧ (site ≠ datastore.AtRawIntent →
     datastore.config (datastore.cacheClient d')
     = datastore.config (datastore.cacheClient d))
  ∧ ∃ d1 d2 sdreq,
      datastore.applyIntent env d1 candidateName (sdcpb.ReqPriority req)
        sdreq = (Ok (), d2)
      ∧ datastore.sbi d1 = datastore.sbi d
      ∧ datastore.sbi d' = datastore.sbi d2.
Proof.
  unfold datastore.SetIntentUpdate. intros Hrun Hsite.
  repeat case_match; simplify_eq;
    try (by destruct Hsite as [|[|]]).
  all: repeat match goal with
         | u : () |- _ => destruct u
         end.
  all: match goal with
       | Happ : datastore.applyIntent _ ?da _ _ ?sd = (Ok _, ?db) |- _ =>
           pose proof (applyIntent_cache _ _ _ _ _ _ _ Happ);
           assert (∃ d1 d2 sdreq,
                     datastore.applyIntent env d1 candidateName
                       (sdcpb.ReqPriority req) sdreq = (Ok (), d2)
                     ∧ datastore.sbi d1 = datastore.sbi da
                     ∧ datastore.sbi db = datastore.sbi d2)
             by (exists da, db, sd; split; [exact Happ|by split])
       end.
  all: unfold datastore.deleteRawIntent in *; transaction_frames.
  all: repeat match goal with
         | H : ?r ≠ Ok () → _ |- _ =>
             first [specialize (H ltac:(done)) | clear H]
         end.
  all: match goal with
       | H : ∃ _ _ _, _ |- _ => destruct H as (da & db & sd & Happ & Ha & Hb)
       end.
  all: subst; split_and?; try done; try congruence.
  all: exists da, db, sd; split_and?; congruence.
Qed.

Lemma SetIntentUpdate_fails_while_persisting_witness :
  (datastore.SetIntentUpdate
     (examples.envStoreFails datastore.Store_CONFIG) examples.dev1
     examples.setMtu "A-1").1
  = datastore.Failure datastore.AtConfigStore
      "failed updating the running config store for dev1: cache unavailable"
  ∧ datastore.intents
      (datastore.cacheClient
         (datastore.SetIntentUpdate
            (examples.envStoreFails datastore.Store_CONFIG) examples.dev1
            examples.setMtu "A-1").2)
    = datastore.intents (datastore.cacheClient examples.dev1).
Proof.
  split; [reflexivity|].
  refine (proj1 (SetIntentUpdate_fails_while_persisting
            (examples.envStoreFails datastore.Store_CONFIG) examples.dev1
            _ examples.setMtu "A-1" datastore.AtConfigStore
            "failed updating the running config store for dev1: cache unavailable"
            _ _)).
  - reflexivity.
  - right. by left.
Defined.

(** X22. After [SetIntentUpdate] has succeeded, [GetIntent] of the
    owner and the priority of the request answers for the request: where
    the delete flag is clear and the codec gives back what it was given
    for this request, with the name of the datastore and the intent,
    the priority and the updates of the request; where the delete flag
    is set, with the error that the intent is not found. *)
Theorem SetIntentUpdate_then_GetIntent (env : datastore.Env)
    (d d' : datastore.Datastore) (req : sdcpb.SetIntentRequest)
    (candidateName : string) :
  (∀ b, datastore.proto_Marshal env req = Ok b →
        datastore.proto_Unmarshal env b = Ok req) →
  (∀ b vb, datastore.proto_Marshal env req = Ok b →
           datastore.proto_MarshalValue env (sdcpb.TypedValue_BytesVal b)
           = Ok vb →
           datastore.proto_UnmarshalValue env vb
           = Ok (sdcpb.TypedValue_BytesVal b)) →
  datastore.SetIntentUpdate env d req candidateName
  = (datastore.Success, d') →
  datastore.GetIntent env d' (sdcpb.Intent req) (sdcpb.ReqPriority req)
  = if sdcpb.ReqDelete req
    then Err datastore.ErrIntentNotFound
    else Ok {| sdcpb.RspName := datastore.Name d;
               sdcpb.RspIntent :=
                 {| sdcpb.IntentName := sdcpb.Intent req;
                    sdcpb.IntentPriority := sdcpb.ReqPriority req;
                    sdcpb.IntentUpdate := sdcpb.ReqUpdate req |} |}.
Proof.
  intros Hreq Hval. unfold datastore.SetIntentUpdate. intros Hrun.
  repeat case_match; simplify_eq.
  all: repeat match goal with
         | u : () |- _ => destruct u
         end.
  - (* the intent was deleted *)
    match goal with
    | H : datastore.deleteRawIntent _ _ _ _ = _ |- _ =>
        unfold datastore.deleteRawIntent, datastore.Modify in H;
        destruct (datastore.Modify_fails _ _ _ _); [done|];
        injection H as <-
    end.
    unfold datastore.GetIntent, datastore.getRawIntent, datastore.Read,
      datastore.modifyStore. simpl.
    by rewrite lookup_delete_eq.
  - (* the intent was saved *)
    match goal with
    | H : datastore.saveRawIntent _ _ _ _ = _ |- _ =>
        pose proof (saveRawIntent_getRawIntent _ _ _ _ _ Hreq Hval H)
          as Hget
    end.
    match goal with
    | Happ : datastore.applyIntent _ _ _ _ _ = _ |- _ =>
        pose proof (applyIntent_Name _ _ _ _ _ _ _ Happ)
    end.
    transaction_frames.
    unfold datastore.GetIntent. rewrite Hget. simpl.
    do 2 f_equal. congruence.
Qed.

Lemma SetIntentUpdate_then_GetIntent_witness :
  datastore.GetIntent (examples.env None [])
    (datastore.SetIntentUpdate (examples.env None []) examples.dev1
       examples.setMtu "A-1").2 "A" 10
  = Ok {| sdcpb.RspName := "dev1";
          sdcpb.RspIntent :=
            {| sdcpb.IntentName := "A"; sdcpb.IntentPriority := 10;
               sdcpb.IntentUpdate := sdcpb.ReqUpdate examples.setMtu |} |}.
Proof.
  refine (SetIntentUpdate_then_GetIntent (examples.env None [])
            examples.dev1 _ examples.setMtu "A-1" _ _ _).
  - intros b _. reflexivity.
  - intros b vb _ [= <-]. reflexivity.
  - reflexivity.
Defined.

(** ** Paths with the keys as leaves *)

Section KeyPathFacts.
Import datastore.

Lemma fold_left_inv {A B : Type} (I : A → Prop) (f : A → B → A)
    (l : list B) (a : A) :
  (∀ a' x, x ∈ l → I a' → I (f a' x)) → I a → I (fold_left f l a).
Proof.
  revert a. induction l as [|x l IH]; intros a Hstep Ha; simpl; [done|].
  apply IH.
  - intros a' y Hy. apply Hstep. by right.
  - apply Hstep; [left|done].
Qed.

Lemma addKeyPaths_inv (Q : sdcpb.Path → Prop)
    (ToXPath : sdcpb.Path → string) (p : sdcpb.Path) (idx : nat)
    (keys : list (string * string)) (st : list string * list sdcpb.Path) :
  (∀ kv, kv ∈ keys → Q (keyAsLeafPath p idx kv.1)) →
  Forall Q st.2 → Forall Q (addKeyPaths ToXPath p idx keys st).2.
Proof.
  intros Hkeys. unfold addKeyPaths.
  apply (fold_left_inv (λ st, Forall Q st.2)).
  intros st' kv Hkv Hst. cbn zeta.
  destruct (bool_decide _); [done|]. simpl.
  apply Forall_app. split; [done|]. apply Forall_singleton.
  by apply Hkeys.
Qed.

Lemma addElemPaths_inv (Q : sdcpb.Path → Prop)
    (ToXPath : sdcpb.Path → string) (p : sdcpb.Path)
    (st : list string * list sdcpb.Path) :
  (∀ idx pe kv, sdcpb.Elem p !! idx = Some pe → kv ∈ sdcpb.Key pe →
                Q (keyAsLeafPath p idx kv.1)) →
  Forall Q st.2 → Forall Q (addElemPaths ToXPath p st).2.
Proof.
  intros Hkeys. unfold addElemPaths.
  apply (fold_left_inv (λ st, Forall Q st.2)).
  intros st' [idx pe] Hin Hst. cbn [fst snd].
  apply list_elem_of_lookup in Hin as [i Hi].
  rewrite list_lookup_imap in Hi.
  destruct (sdcpb.Elem p !! i) as [pe'|] eqn:Hpe; [|done].
  injection Hi as <- <-.
  destruct (bool_decide _); [done|].
  apply addKeyPaths_inv; [|done].
  intros kv Hkv. by eapply Hkeys.
Qed.

Lemma addKeyPaths_grows (ToXPath : sdcpb.Path → string) (p : sdcpb.Path)
    (idx : nat) (keys : list (string * string))
    (st : list string * list sdcpb.Path) (x : sdcpb.Path) :
  x ∈ st.2 → x ∈ (addKeyPaths ToXPath p idx keys st).2.
Proof.
  unfold addKeyPaths. apply (fold_left_inv (λ st, x ∈ st.2)).
  intros st' kv _ Hst. cbn zeta. destruct (bool_decide _); [done|].
  simpl. apply elem_of_app. by left.
Qed.

Lemma addElemPaths_grows (ToXPath : sdcpb.Path → string) (p : sdcpb.Path)
    (st : list string * list sdcpb.Path) (x : sdcpb.Path) :
  x ∈ st.2 → x ∈ (addElemPaths ToXPath p st).2.
Proof.
  unfold addElemPaths. apply (fold_left_inv (λ st, x ∈ st.2)).
  intros st' ipe _ Hst. destruct (bool_decide _); [done|].
  by apply addKeyPaths_grows.
Qed.

(** The path of a key of an element of a path is a path of a key as a
    leaf. *)
Lemma keyAsLeafPath_is_key (p : sdcpb.Path) (idx : nat)
    (pe : sdcpb.PathElem) (kv : string * string) :
  sdcpb.Elem p !! idx = Some pe → kv ∈ sdcpb.Key pe →
  pathIsKeyAsLeaf (keyAsLeafPath p idx kv.1) = true.
Proof.
  intros Hpe Hkv. unfold pathIsKeyAsLeaf, keyAsLeafPath. cbn zeta.
  cbn [sdcpb.Elem].
  pose proof (lookup_lt_Some _ _ _ Hpe) as Hlt.
  assert (Hlen : length (map (λ pe, {| sdcpb.PathElemName :=
                                         sdcpb.PathElemName pe;
                                       sdcpb.Key := sdcpb.Key pe |})
                           (take (idx + 1) (sdcpb.Elem p))) = idx + 1).
  { rewrite length_map, length_take. lia. }
  rewrite length_app, Hlen. cbn [length].
  rewrite bool_decide_false by lia.
  replace (idx + 1 + 1 - 2) with idx by lia.
  replace (idx + 1 + 1 - 1) with (idx + 1) by lia.
  rewrite lookup_app_l by lia.
  rewrite list_lookup_fmap, lookup_take_lt by lia. rewrite Hpe.
  cbn [fmap option_fmap option_map].
  rewrite lookup_app_r by lia. rewrite Hlen, Nat.sub_diag.
  cbn [lookup list_lookup sdcpb.Key sdcpb.PathElemName].
  apply bool_decide_eq_true. apply list_elem_of_fmap. by exists kv.
Qed.

End KeyPathFacts.

(** X23. Every path that [buildPathsWithKeysAsLeaves] returns is the
    path of a key as a leaf, as [pathIsKeyAsLeaf] tells them: it is made
    of the elements of a path given, up to one that has keys, and of an
    element named after one of these keys. *)
Theorem buildPathsWithKeysAsLeaves_key_paths
    (ToXPath : sdcpb.Path → string) (paths : list sdcpb.Path) :
  Forall
    (λ pp, datastore.pathIsKeyAsLeaf pp = true
           ∧ ∃ p idx pe kv,
               p ∈ paths ∧ sdcpb.Elem p !! idx = Some pe
               ∧ kv ∈ sdcpb.Key pe
               ∧ pp = datastore.keyAsLeafPath p idx kv.1)
    (datastore.buildPathsWithKeysAsLeaves ToXPath paths).
Proof.
  unfold datastore.buildPathsWithKeysAsLeaves.
  apply (fold_left_inv
           (λ st : list string * list sdcpb.Path,
              Forall
                (λ pp, datastore.pathIsKeyAsLeaf pp = true
                       ∧ ∃ p idx pe kv,
                           p ∈ paths ∧ sdcpb.Elem p !! idx = Some pe
                           ∧ kv ∈ sdcpb.Key pe
                           ∧ pp = datastore.keyAsLeafPath p idx kv.1)
                st.2)); [|by constructor].
  intros st p Hp Hst. apply addElemPaths_inv; [|done].
  intros idx pe kv Hpe Hkv. split.
  - by eapply keyAsLeafPath_is_key.
  - by exists p, idx, pe, kv.
Qed.

(** X24. [pathsAddKeysAsLeaves] returns every path it was given, and
    every other path it returns is the path of a key as a leaf, made of
    the elements of a path given, up to one that has keys, and of an
    element named after one of these keys. *)
Theorem pathsAddKeysAsLeaves_paths_and_keys
    (ToXPath : sdcpb.Path → string) (paths : list sdcpb.Path) :
  Forall (λ p, p ∈ datastore.pathsAddKeysAsLeaves ToXPath paths) paths
  ∧ Forall
      (λ pp, pp ∈ paths
             ∨ (datastore.pathIsKeyAsLeaf pp = true
                ∧ ∃ p idx pe kv,
                    p ∈ paths ∧ sdcpb.Elem p !! idx = Some pe
                    ∧ kv ∈ sdcpb.Key pe
                    ∧ pp = datastore.keyAsLeafPath p idx kv.1))
      (datastore.pathsAddKeysAsLeaves ToXPath paths).
Proof.
  unfold datastore.pathsAddKeysAsLeaves. split.
  - apply Forall_forall. intros x Hx.
    assert (Hgen : ∀ l (st : list string * list sdcpb.Path),
              x ∈ st.2 ∨ x ∈ l →
              x ∈ (fold_left
                     (λ (st : list string * list sdcpb.Path) p,
                        datastore.addElemPaths ToXPath p
                          (st.1, st.2 ++ [p]))
                     l st).2).
    { induction l as [|p l IH]; intros st [Hst|Hl]; simpl;
        [done|by inversion Hl|..].
      - apply IH. left. apply addElemPaths_grows. simpl.
        apply elem_of_app. by left.
      - apply elem_of_cons in Hl as [->|Hl].
        + apply IH. left. apply addElemPaths_grows. simpl.
          apply elem_of_app. right. by left.
        + apply IH. by right. }
    apply Hgen. by right.
  - apply (fold_left_inv
             (λ st : list string * list sdcpb.Path,
                Forall
                  (λ pp, pp ∈ paths
                         ∨ (datastore.pathIsKeyAsLeaf pp = true
                            ∧ ∃ p idx pe kv,
                                p ∈ paths ∧ sdcpb.Elem p !! idx = Some pe
                                ∧ kv ∈ sdcpb.Key pe
                                ∧ pp = datastore.keyAsLeafPath p idx kv.1))
                  st.2)); [|by constructor].
    intros st p Hp Hst. apply addElemPaths_inv.
    + intros idx pe kv Hpe Hkv. right. split.
      * by eapply keyAsLeafPath_is_key.
      * by exists p, idx, pe, kv.
    + simpl. apply Forall_app. split; [done|].
      apply Forall_singleton. by left.
Qed.

(** ** The index of the intended store *)

Section KeysMetaFacts.
Import datastore.

Lemma keysStep_listed (entries : list cache.Update)
    (result : gmap string (list cache.Update)) (u : cache.Update) :
  u ∈ entries
  ∨ (∃ l, result !! String.concat KeysIndexSep (cache.GetPath u) = Some l
          ∧ u ∈ l) →
  ∃ l, fold_left keysStep entries result
       !! String.concat KeysIndexSep (cache.GetPath u) = Some l
       ∧ u ∈ l.
Proof.
  revert result. induction entries as [|e entries IH]; intros result.
  - intros [Hin|Hres]; [by inversion Hin|done].
  - intros Hu. simpl. apply IH.
    destruct Hu as [[->|Hin]%elem_of_cons|(l & Hl & Hul)].
    + right. unfold keysStep. rewrite lookup_insert_eq.
      eexists. split; [done|]. apply elem_of_app. right. by left.
    + by left.
    + right. unfold keysStep.
      destruct (decide (String.concat KeysIndexSep (cache.GetPath e)
                        = String.concat KeysIndexSep (cache.GetPath u)))
        as [Heq|Hne].
      * rewrite Heq, lookup_insert_eq, Hl. simpl.
        eexists. split; [done|]. apply elem_of_app. by left.
      * rewrite lookup_insert_ne by done. by exists l.
Qed.

Lemma keysStep_sound (P : cache.Update → Prop)
    (entries : list cache.Update)
    (result : gmap string (list cache.Update)) :
  (∀ u, u ∈ entries → P u) →
  (∀ key l u, result !! key = Some l → u ∈ l →
              String.concat KeysIndexSep (cache.GetPath u) = key ∧ P u) →
  ∀ key l u, fold_left keysStep entries result !! key = Some l → u ∈ l →
             String.concat KeysIndexSep (cache.GetPath u) = key ∧ P u.
Proof.
  revert result. induction entries as [|e entries IH];
    intros result Hent Hres; [done|].
  simpl. apply IH.
  - intros u Hu. apply Hent. by right.
  - intros key l u. unfold keysStep.
    destruct (decide (String.concat KeysIndexSep (cache.GetPath e) = key))
      as [<-|Hne].
    + rewrite lookup_insert_eq. intros [= <-].
      intros [Hold|Hnew]%elem_of_app;
        [|apply list_elem_of_singleton in Hnew as ->].
      * destruct (result !! _) as [l0|] eqn:Hl0; simpl in Hold;
          [by eapply Hres|by inversion Hold].
      * split; [done|]. apply Hent. by left.
    + rewrite lookup_insert_ne by done. apply Hres.
Qed.

End KeysMetaFacts.

(** X25. The index that [readIntendedStoreKeysMeta] builds holds the
    intended store and nothing else: every update of the store is
    listed under its path joined by "_", and every update listed under
    a key is an update of the store whose joined path is that key. *)
Theorem readIntendedStoreKeysMeta_index (env : datastore.Env)
    (d : datastore.Datastore)
    (index : gmap string (list cache.Update)) :
  datastore.readIntendedStoreKeysMeta env d = Ok index →
  (∀ k u, datastore.intended (datastore.cacheClient d) !! k = Some u →
          ∃ l, index !! String.concat "_" (cache.GetPath u) = Some l
               ∧ u ∈ l)
  ∧ (∀ key l u, index !! key = Some l → u ∈ l →
                String.concat "_" (cache.GetPath u) = key
                ∧ ∃ k, datastore.intended (datastore.cacheClient d) !! k
                       = Some u).
Proof.
  unfold datastore.readIntendedStoreKeysMeta, datastore.GetKeys.
  destruct (datastore.GetKeys_fails env _); [done|]. simpl.
  intros [= <-]. split.
  - intros k u Hk.
    apply (keysStep_listed _ ∅ u). left.
    apply (ReadAll_elem_of (datastore.cacheClient d)
             datastore.Store_INTENDED). by exists k.
  - apply (keysStep_sound
             (λ u, ∃ k, datastore.intended (datastore.cacheClient d) !! k
                        = Some u)).
    + intros u Hu.
      by apply (ReadAll_elem_of (datastore.cacheClient d)
                  datastore.Store_INTENDED) in Hu.
    + intros key l u Hl. by rewrite lookup_empty in Hl.
Qed.

Lemma readIntendedStoreKeysMeta_index_witness :
  ∃ l,
    ({["interface_eth0_mtu" := [examples.mtu1500]]}
       : gmap string (list cache.Update))
    !! "interface_eth0_mtu" = Some l
    ∧ examples.mtu1500 ∈ l.
Proof.
  refine (proj1 (readIntendedStoreKeysMeta_index (examples.env None [])
                   examples.dev1Intended
                   {["interface_eth0_mtu" := [examples.mtu1500]]} _)
            ("A", ["interface"; "eth0"; "mtu"]) examples.mtu1500 _);
    reflexivity.
Defined.

(** ** Ranges of signed integers *)

Section RangeFacts.
Import utils.

Lemma inSomeRange_spec (rngs : list SRng) (n : Z) :
  inSomeRange rngs n = true
  ↔ ∃ rng, rng ∈ rngs ∧ (min rng ≤ n ≤ max rng)%Z.
Proof.
  induction rngs as [|rng rngs IH]; simpl.
  - split; [done|]. intros (rng & Hin & _). by inversion Hin.
  - unfold isInRange at 1.
    destruct ((min rng <=? n)%Z && (n <=? max rng)%Z) eqn:Hin.
    + split; [|done]. intros _. exists rng. split; [left|lia].
    + rewrite IH. split.
      * intros (r & Hr & Hn). exists r. split; [by right|done].
      * intros (r & [->|Hr]%elem_of_cons & Hn); [lia|by exists r].
Qed.

End RangeFacts.

(** X26. [isWithinAnyRange] takes the decimal writing of a 64-bit
    integer exactly when it has no range at all or one of its ranges
    holds the integer, bounds included; what it then returns is the
    integer as an [IntVal]. Whatever it takes is an integer that
    [ParseInt] read. *)
Theorem isWithinAnyRange_decimal (r : utils.SRnges) (z : Z) :
  (strconv.minInt64 ≤ z ≤ strconv.maxInt64)%Z →
  (utils.isWithinAnyRange r (datastore.decimal z)
   = Ok (sdcpb.TypedValue_IntVal z)
   ↔ utils.rnges r = []
     ∨ ∃ rng, rng ∈ utils.rnges r
              ∧ (utils.min rng ≤ z ≤ utils.max rng)%Z)
  ∧ (∀ value tv,
       utils.isWithinAnyRange r value = Ok tv →
       ∃ n, strconv.ParseInt value = Ok n
            ∧ tv = sdcpb.TypedValue_IntVal n).
Proof.
  intros Hz. split.
  - unfold utils.isWithinAnyRange, strconv.ParseInt.
    rewrite (parse_decimal "ParseInt" z Hz).
    simpl. destruct (utils.rnges r) as [|rng rngs] eqn:Hr.
    + split; [by left|done].
    + rewrite bool_decide_false by done.
      destruct (utils.inSomeRange (rng :: rngs) z) eqn:Hin.
      * split; [|done]. intros _. right. by apply inSomeRange_spec.
      * split; [done|]. intros [?|Hex]; [done|].
        apply inSomeRange_spec in Hex. congruence.
  - intros value tv. unfold utils.isWithinAnyRange.
    destruct (strconv.ParseInt value) as [n| |] eqn:Hparse; simpl;
      [|done..].
    repeat case_match; [..|done]; intros [= <-]; by exists n.
Qed.

Lemma isWithinAnyRange_decimal_witness :
  utils.isWithinAnyRange
    (utils.addRange (utils.addRange utils.NewSrnges (-128) (-1)) 10 20)
    (datastore.decimal (-128))
  = Ok (sdcpb.TypedValue_IntVal (-128)).
Proof.
  apply (proj1 (isWithinAnyRange_decimal
                  (utils.addRange
                     (utils.addRange utils.NewSrnges (-128) (-1)) 10 20)
                  (-128) ltac:(unfold strconv.minInt64, strconv.maxInt64;
                               lia))).
  right. exists {| utils.min := -128; utils.max := -1 |}.
  split; [left|simpl; lia].
Defined.

(** X27. Once [addRange] has added a range, a value that [ParseInt]
    reads is taken exactly when the range added or one of the ranges
    that were there holds it. So the first range added makes a set of
    ranges that took every integer refuse the integers outside of that
    range. *)
Theorem addRange_accepts (r : utils.SRnges) (lo hi : Z) (value : string)
    (n : Z) :
  strconv.ParseInt value = Ok n →
  (utils.isWithinAnyRange (utils.addRange r lo hi) value
   = Ok (sdcpb.TypedValue_IntVal n)
   ↔ (lo ≤ n ≤ hi)%Z
     ∨ ∃ rng, rng ∈ utils.rnges r
              ∧ (utils.min rng ≤ n ≤ utils.max rng)%Z)
  ∧ (utils.rnges r = [] → ¬ (lo ≤ n ≤ hi)%Z →
     utils.isWithinAnyRange r value = Ok (sdcpb.TypedValue_IntVal n)
     ∧ utils.isWithinAnyRange (utils.addRange r lo hi) value
       = Err (gostrings.quoted value +:+ " not within ranges")).
Proof.
  intros Hn.
  assert (Hin : utils.inSomeRange (utils.rnges (utils.addRange r lo hi)) n
                = true
                ↔ (lo ≤ n ≤ hi)%Z
                  ∨ ∃ rng, rng ∈ utils.rnges r
                           ∧ (utils.min rng ≤ n ≤ utils.max rng)%Z).
  { rewrite inSomeRange_spec. simpl. split.
    - intros (rng & [Hr|Hr]%elem_of_app & Hrng); [right; by exists rng|].
      apply list_elem_of_singleton in Hr as ->. by left.
    - intros [Hnew|(rng & Hr & Hrng)].
      + exists {| utils.min := lo; utils.max := hi |}.
        split; [|done]. apply elem_of_app. right. by left.
      + exists rng. split; [|done]. apply elem_of_app. by left. }
  assert (Hlen : length (utils.rnges (utils.addRange r lo hi)) ≠ 0).
  { simpl. rewrite length_app. simpl. lia. }
  split.
  - unfold utils.isWithinAnyRange. rewrite Hn. simpl.
    rewrite bool_decide_false by exact Hlen.
    destruct (utils.inSomeRange _ n) eqn:Hb.
    + split; [|done]. intros _. by apply Hin.
    + split; [done|]. intros H%Hin. simpl in H. congruence.
  - intros Hr Hout. unfold utils.isWithinAnyRange. rewrite Hn. simpl.
    rewrite Hr. simpl. split; [done|].
    unfold utils.isInRange. simpl.
    destruct (Z.leb_spec lo n), (Z.leb_spec n hi); simpl; try done; lia.
Qed.

Lemma addRange_accepts_witness :
  utils.isWithinAnyRange utils.NewSrnges "300"
  = Ok (sdcpb.TypedValue_IntVal 300)
  ∧ utils.isWithinAnyRange (utils.addRange utils.NewSrnges 0 255) "300"
    = Err (gostrings.quoted "300" +:+ " not within ranges").
Proof.
  refine (proj2 (addRange_accepts utils.NewSrnges 0 255 "300" 300 _) _ _).
  - reflexivity.
  - reflexivity.
  - lia.
Defined.

(** ** The NETCONF target *)

Section TargetFacts.
Import target.

(** What [editDocs] calls: the edit-config of the documents that are
    not empty, in their order, up to the first that fails; then
    [Discard], or [Close] and the reconnection where the connection is
    lost. It never commits. *)
Lemma editDocs_calls (drv : Driver) (docs : list (Res string))
    (t t' : ncTarget) (r : Res ()) :
  editDocs drv t docs = (r, t') →
  ∃ new,
    calls t' = calls t ++ new
    ∧ (Commit ∉ new)
    ∧ (r = Ok () →
       connected t' = connected t
       ∧ (Discard ∉ new)
       ∧ (∃ xdocs, docs = (Ok <$> xdocs)
                   ∧ new = (EditConfig "candidate"
                            <$> filter (λ doc, doc ≠ "") xdocs))
       ∧ ∀ doc, EditConfig "candidate" doc ∈ new →
                EditConfig_fails drv "candidate" doc = None)
    ∧ (r ≠ Ok () → connected t' = false →
       connected t = false ∨ ∃ pre, new = pre ++ [Close; Reconnect]).
Proof.
  revert t. induction docs as [|doc docs IH]; intros t; simpl.
  - intros [= <- <-]. exists []. rewrite app_nil_r.
    split; [done|]. split; [by inversion 1|]. split.
    + intros _. split; [done|]. split; [by inversion 1|].
      split; [by exists []|]. by inversion 1.
    + done.
  - destruct doc as [xdoc|e|];
      [|intros [= <- <-]; exists []; rewrite app_nil_r;
        (split; [done|]); (split; [by inversion 1|]);
        (split; [done|]); by left..].
    destruct (bool_decide (String.length xdoc = 0)) eqn:Hlen.
    + apply bool_decide_eq_true in Hlen.
      assert (xdoc = "") as -> by (by destruct xdoc).
      intros Hrun. destruct (IH _ Hrun) as (new & Hc & Hnc & Hok & Hlost).
      exists new. split; [done|]. split; [done|]. split; [|done].
      intros Hr. destruct (Hok Hr) as (Hconn & Hnd & (xdocs & -> & Hnew) & Hall).
      split; [done|]. split; [done|]. split; [|done].
      exists ("" :: xdocs). split; [done|].
      rewrite filter_cons_False by (intros H; by apply H). done.
    + apply bool_decide_eq_false in Hlen.
      assert (xdoc ≠ "") as Hne by (intros ->; by apply Hlen).
      destruct (EditConfig_fails drv "candidate" xdoc) as [e|] eqn:Hedit.
      * destruct (gostrings.Contains e "EOF"); intros [= <- <-]; simpl.
        -- exists [EditConfig "candidate" xdoc; Close; Reconnect].
           rewrite <- app_assoc. split; [done|].
           split; [rewrite !elem_of_cons, elem_of_nil; intuition discriminate|].
           split; [done|]. intros _ _. right.
           by exists [EditConfig "candidate" xdoc].
        -- exists [EditConfig "candidate" xdoc; Discard].
           rewrite <- app_assoc. split; [done|].
           split; [rewrite !elem_of_cons, elem_of_nil; intuition discriminate|].
           split; [done|]. intros _ Hc. by left.
      * intros Hrun. destruct (IH _ Hrun) as (new & Hc & Hnc & Hok & Hlost).
        simpl in Hc. rewrite <- app_assoc in Hc. simpl in Hc.
        exists (EditConfig "candidate" xdoc :: new).
        split; [done|].
        split; [rewrite elem_of_cons; intuition discriminate|]. split.
        -- intros Hr.
           destruct (Hok Hr) as (Hconn & Hnd & (xdocs & -> & Hnew) & Hall).
           split; [done|].
           split; [rewrite elem_of_cons; intuition discriminate|]. split.
           ++ exists (xdoc :: xdocs). split; [done|].
              rewrite filter_cons_True by done. by rewrite Hnew.
           ++ intros doc [[= ->]|Hin]%elem_of_cons; [done|by apply Hall].
        -- intros Hr Hc'. destruct (Hlost Hr Hc') as [Hcon|[pre ->]].
           ++ by left.
           ++ right. by exists (EditConfig "candidate" xdoc :: pre).
Qed.

End TargetFacts.

(** X28. When [Set] succeeds the target was connected and still is, and
    what [Set] asked of the driver is, in this order: the edit-config
    of the document of the deletes, the edit-config of the document of
    the updates, each only where the document is not empty and each
    accepted by the driver, and the commit. *)
Theorem Set_success_calls (drv : target.Driver) (t t' : target.ncTarget)
    (req : sdcpb.SetDataRequest) :
  target.Set_ drv t req = (Ok (), t') →
  target.connected t = true ∧ target.connected t' = true
  ∧ target.Commit_fails drv = None
  ∧ ∃ ddoc adoc,
      target.DeleteDoc drv (sdcpb.SDDelete req) = Ok ddoc
      ∧ target.AddDoc drv (sdcpb.SDUpdate req) = Ok adoc
      ∧ target.calls t'
        = target.calls t
          ++ (target.EditConfig "candidate"
              <$> filter (λ doc, doc ≠ "") [ddoc; adoc])
          ++ [target.Commit]
      ∧ (ddoc ≠ "" → target.EditConfig_fails drv "candidate" ddoc = None)
      ∧ (adoc ≠ "" → target.EditConfig_fails drv "candidate" adoc = None).
Proof.
  unfold target.Set_. destruct (target.connected t) eqn:Hconn; [|done].
  cbn [negb].
  destruct (target.editDocs drv t _) as [r t1] eqn:Hedit.
  destruct (editDocs_calls _ _ _ _ _ Hedit)
    as (new & Hcalls & _ & Hok & _).
  destruct r as [[]| |]; [|done..].
  destruct (Hok eq_refl) as (Hc1 & _ & (xdocs & Hdocs & Hnew) & Hall).
  destruct (target.Commit_fails drv) eqn:Hcommit;
    [by destruct (gostrings.Contains _ _)|].
  intros [= <-]. simpl.
  split; [done|]. split; [congruence|]. split; [done|].
  destruct xdocs as [|ddoc [|adoc [|]]]; simplify_eq/=.
  exists ddoc, adoc. split; [done|]. split; [done|].
  split; [by rewrite Hcalls, <- app_assoc|].
  split; intros Hne; apply Hall.
  - rewrite filter_cons_True by done. left.
  - apply list_elem_of_fmap. exists adoc. split; [done|].
    apply list_elem_of_filter. split; [done|]. right. left.
Qed.

Lemma Set_success_calls_witness :
  target.calls
    (target.Set_ examples.driver examples.connectedTarget examples.setName).2
  = [target.EditConfig "candidate" "<edit/>"; target.Commit].
Proof.
  destruct (Set_success_calls examples.driver examples.connectedTarget
              (target.Set_ examples.driver examples.connectedTarget
                 examples.setName).2
              examples.setName eq_refl)
    as (_ & _ & _ & ddoc & adoc & [= <-] & [= <-] & Hcalls & _).
  exact Hcalls.
Defined.

(** X29. Whatever [Set] returns, it only adds to the calls made to the
    driver. Not connected, it calls nothing and fails. It commits only
    after every edit-config it sent was accepted, and then discards
    nothing. And where it leaves the target disconnected that was
    connected, it has failed, closed the driver and started the
    reconnection. *)
Theorem Set_commit_discipline (drv : target.Driver)
    (t t' : target.ncTarget) (req : sdcpb.SetDataRequest) (r : Res ()) :
  target.Set_ drv t req = (r, t') →
  ∃ new,
    target.calls t' = target.calls t ++ new
    ∧ (target.connected t = false →
       new = [] ∧ t' = t ∧ r = Err "not connected")
    ∧ (target.Commit ∈ new →
       (target.Discard ∉ new)
       ∧ ∀ doc, target.EditConfig "candidate" doc ∈ new →
                target.EditConfig_fails drv "candidate" doc = None)
    ∧ (target.connected t' = false →
       target.connected t = false
       ∨ (r ≠ Ok ()
          ∧ ∃ pre, new = pre ++ [target.Close; target.Reconnect])).
Proof.
  unfold target.Set_. destruct (target.connected t) eqn:Hconn; cbn [negb].
  2:{ intros [= <- <-]. exists []. rewrite app_nil_r.
      split; [done|]. split; [done|]. split; [by inversion 1|]. by left. }
  destruct (target.editDocs drv t _) as [r1 t1] eqn:Hedit.
  destruct (editDocs_calls _ _ _ _ _ Hedit)
    as (new & Hcalls & Hnc & Hok & Hlost).
  destruct r1 as [[]|e|].
  - destruct (Hok eq_refl) as (Hc1 & Hnd & _ & Hall).
    destruct (target.Commit_fails drv) as [e|] eqn:Hcommit.
    + destruct (gostrings.Contains e "EOF"); intros [= <- <-]; simpl.
      * exists (new ++ [target.Commit; target.Close; target.Reconnect]).
        rewrite Hcalls, <- !app_assoc. split; [done|]. split; [done|].
        split.
        -- intros _. split.
           ++ rewrite elem_of_app, !elem_of_cons, elem_of_nil.
              intuition discriminate.
           ++ intros doc. rewrite elem_of_app, !elem_of_cons, elem_of_nil.
              intros [Hin|Hin]; [by apply Hall|intuition discriminate].
        -- intros _. right. split; [done|].
           exists (new ++ [target.Commit]). by rewrite <- app_assoc.
      * exists (new ++ [target.Commit]).
        rewrite Hcalls, <- !app_assoc. split; [done|]. split; [done|].
        split.
        -- intros _. split.
           ++ rewrite elem_of_app, !elem_of_cons, elem_of_nil.
              intuition discriminate.
           ++ intros doc. rewrite elem_of_app, !elem_of_cons, elem_of_nil.
              intros [Hin|Hin]; [by apply Hall|intuition discriminate].
        -- congruence.
    + intros [= <- <-]; simpl. exists (new ++ [target.Commit]).
      rewrite Hcalls, <- !app_assoc. split; [done|]. split; [done|].
      split.
      * intros _. split.
        -- rewrite elem_of_app, !elem_of_cons, elem_of_nil.
           intuition discriminate.
        -- intros doc. rewrite elem_of_app, !elem_of_cons, elem_of_nil.
           intros [Hin|Hin]; [by apply Hall|intuition discriminate].
      * congruence.
  - intros [= <- <-]. exists new. split; [done|]. split; [done|].
    split; [done|]. intros Hc.
    destruct (Hlost ltac:(done) Hc) as [?|?]; [congruence|by right].
  - intros [= <- <-]. exists new. split; [done|]. split; [done|].
    split; [done|]. intros Hc.
    destruct (Hlost ltac:(done) Hc) as [?|?]; [congruence|by right].
Qed.

Lemma Set_commit_discipline_witness :
  ∃ new,
    target.calls
      (target.Set_ examples.driver examples.lostTarget examples.setName).2
    = target.calls examples.lostTarget ++ new
    ∧ (target.connected examples.lostTarget = false →
       new = []
       ∧ (target.Set_ examples.driver examples.lostTarget
            examples.setName).2 = examples.lostTarget
       ∧ (target.Set_ examples.driver examples.lostTarget
            examples.setName).1 = Err "not connected").
Proof.
  destruct (Set_commit_discipline examples.driver examples.lostTarget
              (target.Set_ examples.driver examples.lostTarget
                 examples.setName).2
              examples.setName
              (target.Set_ examples.driver examples.lostTarget
                 examples.setName).1 eq_refl)
    as (new & Hcalls & Hoff & _).
  exists new. split; [exact Hcalls|exact Hoff].
Defined.

(** ** Inserting the same update again *)

Section InsertAgainFacts.
Import tree.

(** [markFirstByOwner] changes the variant that [GetByOwner] finds and
    no other. *)
Lemma markFirstByOwner_Forall2 (f : LeafEntry → LeafEntry)
    (lv : LeafVariants) (owner : string) (v0 : LeafEntry) :
  GetByOwner lv owner = Some v0 →
  Forall2 (λ x y, y = x ∨ (x = v0 ∧ y = f v0))
    lv (markFirstByOwner f lv owner).
Proof.
  induction lv as [|x lv IH]; simpl; [done|].
  destruct (bool_decide (Owner x = owner)).
  - intros [= ->]. constructor; [by right|].
    apply Forall2_same_length_lookup_2; [done|].
    intros i a b Ha Hb. left. congruence.
  - intros Hget. constructor; [by left|by apply IH].
Qed.

Lemma markDelete_clearDelete (lv : LeafVariants) (owner : string) :
  markFirstByOwner MarkDelete (markFirstByOwner clearDelete lv owner) owner
  = markFirstByOwner MarkDelete lv owner.
Proof.
  induction lv as [|x lv IH]; simpl; [done|].
  destruct (decide (Owner x = owner)) as [Hx|Hx].
  - rewrite (bool_decide_true _ Hx). simpl.
    by rewrite bool_decide_true.
  - rewrite (bool_decide_false _ Hx). simpl.
    by rewrite (bool_decide_false _ Hx), IH.
Qed.

Lemma map_setChild_same (f : Entry → Entry) (cs : list (string * Entry))
    (name : string) (e e' : Entry) :
  getChild cs name = Some e → f e' = f e →
  map (λ kc : string * Entry, (kc.1, f kc.2)) (setChild cs name e')
  = map (λ kc : string * Entry, (kc.1, f kc.2)) cs.
Proof.
  intros Hget Hf. induction cs as [|[k c] cs IH]; simpl in *; [done|].
  destruct (bool_decide (k = name)).
  - injection Hget as ->. simpl. by rewrite Hf.
  - simpl. by rewrite IH.
Qed.

(** Where the entry at the path holds a variant of the owner with the
    value of the update, the insertion walks down to it and clears the
    delete flag of that variant: nothing else changes. *)
Lemma addCacheUpdateFrom_clears (tc : TreeContext) (rest : list string)
    (rm : Entry) (anc : list Entry) (c : cache.Update) (new : bool)
    (leaf0 : Entry) (v0 : LeafEntry) :
  getAt rm rest = Some leaf0 →
  GetByOwner (leafVariants leaf0) (cache.Owner c) = Some v0 →
  EqualSkipPath v0 c = true →
  ∃ r2,
    addCacheUpdateFrom tc rest rm anc c new = Ok r2
    ∧ getAt r2 rest
      = Some (withLeafVariants leaf0
                (markFirstByOwner clearDelete (leafVariants leaf0)
                   (cache.Owner c)))
    ∧ MarkOwnerDelete r2 (cache.Owner c)
      = MarkOwnerDelete rm (cache.Owner c)
    ∧ (Delete v0 = false → r2 = rm).
Proof.
  intros Hat Hget Heq. revert rm anc Hat.
  induction rest as [|name rest IH]; intros rm anc.
  - cbn [getAt addCacheUpdateFrom]. intros [= ->].
    unfold addLeafEntry. rewrite Hget, Heq.
    eexists. split; [done|]. split; [done|]. split.
    + rewrite !MarkOwnerDelete_unfold. simpl.
      by rewrite markDelete_clearDelete.
    + intros Hdel.
      rewrite (markFirstByOwner_id _ _ _ v0 Hget)
        by (destruct v0; simpl in *; by subst).
      by destruct leaf0.
  - cbn [getAt addCacheUpdateFrom].
    destruct (getChild (childs rm) name) as [e|] eqn:E; [|done].
    intros Hat. destruct (IH e (rm :: anc) Hat) as (e' & -> & Hat' & Hm & Hid).
    simpl. eexists. split; [done|]. cbn [childs withChilds].
    rewrite getChild_setChild. split; [done|]. split.
    + rewrite !MarkOwnerDelete_unfold. simpl. f_equal.
      by apply (map_setChild_same (λ x, MarkOwnerDelete x (cache.Owner c))
                  _ _ e).
    + intros Hdel. rewrite (Hid Hdel), (setChild_getChild _ _ _ E).
      by destruct rm.
Qed.

(** The level of an entry is the number of its ancestors. *)
Lemma level_of_ancestors (anc : list Entry) (s : Entry) :
  (if IsRoot anc then 0 else GetLevel anc s) = length anc.
Proof.
  unfold IsRoot, GetLevel. destruct anc as [|p anc]; [done|].
  rewrite bool_decide_false by done. apply Path_length.
Qed.

End InsertAgainFacts.

(** C8. Inserting the same update twice is idempotent. After
    [AddCacheUpdateRecursive] has added an update, the variant of its
    owner is at the entry of its path, holds its value and priority, and
    its delete flag is clear; adding an update of the same owner, path,
    value and priority again succeeds and leaves the tree as it is.
    And whatever the tree, where the entry of the path holds a variant
    of the owner with that value and priority, marked delete or not,
    that insertion succeeds and only clears the delete flag of that
    variant: the flags new and updated and the update it holds are
    untouched, no variant is added or changed beside it, the tree apart
    from the delete flag of the owner is the same, and where the flag
    was clear already the tree is returned as it was. *)
Theorem AddCacheUpdateRecursive_idempotent (tc : tree.TreeContext)
    (r r1 : tree.Entry) (anc : list tree.Entry) (c c' : cache.Update)
    (new new' : bool) :
  cache.Owner c' = cache.Owner c →
  cache.GetPath c' = cache.GetPath c →
  cache.Bytes c' = cache.Bytes c →
  cache.Priority c' = cache.Priority c →
  tree.AddCacheUpdateRecursive tc r anc c new = Ok r1 →
  tree.AddCacheUpdateRecursive tc r1 anc c' new' = Ok r1
  ∧ (∃ leaf v,
       tree.getAt r1 (drop (length anc) (cache.GetPath c)) = Some leaf
       ∧ tree.GetByOwner (tree.leafVariants leaf) (cache.Owner c) = Some v
       ∧ tree.EqualSkipPath v c' = true
       ∧ tree.Delete v = false)
  ∧ ∀ rm leaf0 v0,
      tree.getAt rm (drop (length anc) (cache.GetPath c)) = Some leaf0 →
      tree.GetByOwner (tree.leafVariants leaf0) (cache.Owner c) = Some v0 →
      tree.EqualSkipPath v0 c' = true →
      ∃ r2 leaf,
        tree.AddCacheUpdateRecursive tc rm anc c' new' = Ok r2
        ∧ tree.getAt r2 (drop (length anc) (cache.GetPath c)) = Some leaf
        ∧ tree.GetByOwner (tree.leafVariants leaf) (cache.Owner c)
          = Some {| tree.Update := tree.Update v0;
                    tree.IsNew := tree.IsNew v0;
                    tree.Delete := false;
                    tree.IsUpdated := tree.IsUpdated v0 |}
        ∧ Forall2
            (λ x y, y = x
                    ∨ (x = v0
                       ∧ y = {| tree.Update := tree.Update v0;
                                tree.IsNew := tree.IsNew v0;
                                tree.Delete := false;
                                tree.IsUpdated := tree.IsUpdated v0 |}))
            (tree.leafVariants leaf0) (tree.leafVariants leaf)
        ∧ tree.MarkOwnerDelete r2 (cache.Owner c)
          = tree.MarkOwnerDelete rm (cache.Owner c)
        ∧ (tree.Delete v0 = false → r2 = rm).
Proof.
  intros Ho Hp Hb Hpr Hrun.
  assert (Hsame : cache.sameUpdate c c') by done.
  unfold tree.AddCacheUpdateRecursive in *.
  rewrite Hp. rewrite !level_of_ancestors in *.
  destruct (bool_decide (length (cache.GetPath c) < length anc)) eqn:Hlen;
    [done|].
  split; [by eapply addCacheUpdateFrom_twice|]. split.
  - destruct (addCacheUpdateFrom_lookup _ _ _ _ _ _ _ Hrun)
      as (leaf & v & Hat & Hget & Heq & Hdel).
    exists leaf, v. split; [done|]. split; [done|]. split; [|done].
    unfold tree.EqualSkipPath in *.
    by rewrite (EqualSkipPath_same _ c c').
  - intros rm leaf0 v0 Hat Hget Heq. rewrite <- Ho in Hget.
    destruct (addCacheUpdateFrom_clears tc _ rm anc c' new' leaf0 v0
                Hat Hget Heq) as (r2 & Hr2 & Hat2 & Hm & Hid).
    rewrite level_of_ancestors, Hlen.
    exists r2. eexists. split; [done|]. split; [exact Hat2|].
    rewrite Ho in *. split; [|split; [|done]].
    + cbn [tree.leafVariants tree.withLeafVariants].
      apply (GetByOwner_markFirst tree.clearDelete _ _ v0 Hget).
      by apply (GetByOwner_owner _ _ _ Hget).
    + cbn [tree.leafVariants tree.withLeafVariants].
      by apply (markFirstByOwner_Forall2 tree.clearDelete).
Qed.

Lemma AddCacheUpdateRecursive_idempotent_witness :
  tree.AddCacheUpdateRecursive examples.interfaceSchemas
    examples.emptyRoot [] examples.mtu1500 true
  = Ok examples.mtuInserted
  ∧ tree.AddCacheUpdateRecursive examples.interfaceSchemas
      examples.mtuInserted [] examples.mtu1500Later true
    = Ok examples.mtuInserted
  ∧ ∃ r2 leaf,
      tree.AddCacheUpdateRecursive examples.interfaceSchemas
        (tree.MarkOwnerDelete examples.mtuInserted "A") []
        examples.mtu1500Later true
      = Ok r2
      ∧ tree.getAt r2 ["interface"; "eth0"; "mtu"] = Some leaf
      ∧ tree.GetByOwner (tree.leafVariants leaf) "A"
        = Some {| tree.Update := examples.mtu1500; tree.IsNew := true;
                  tree.Delete := false; tree.IsUpdated := false |}.
Proof.
  split; [reflexivity|].
  destruct (AddCacheUpdateRecursive_idempotent examples.interfaceSchemas
              examples.emptyRoot examples.mtuInserted [] examples.mtu1500
              examples.mtu1500Later true true
              eq_refl eq_refl eq_refl eq_refl eq_refl)
    as (Htwice & _ & Hclears).
  split; [exact Htwice|].
  destruct (Hclears (tree.MarkOwnerDelete examples.mtuInserted "A")
              (examples.leaf "mtu" "A" 10 "1500" true true false
                 ["interface"; "eth0"; "mtu"])
              {| tree.Update := examples.mtu1500; tree.IsNew := true;
                 tree.Delete := true; tree.IsUpdated := false |}
              eq_refl eq_refl eq_refl)
    as (r2 & leaf & Hr2 & Hat & Hget & _).
  exists r2, leaf. split; [exact Hr2|]. split; [exact Hat|exact Hget].
Defined.
